(** * Relay handlers: client address, topic resolution, message formatting

    A shallow embedding of the three request handlers of the repository
    ([api/ip.js], the hash-based relay "Variant A" and the create-or-find
    relay "Variant B") together with the properties stated about them.

    JavaScript strings are sequences of UTF-16 code units and are modelled
    as [list Z]; the literals of the source are written as Rocq strings and
    decoded by [js].  Numbers that the code computes itself (hash values,
    [parseInt] results) are integers and are modelled in [Z]; numbers that
    arrive inside JSON documents are kept abstract (see [Numbers]). *)

From Stdlib Require Import ZArith List String Ascii Bool Lia.
From stdpp Require Import base option list gmap.

Local Open Scope Z_scope.
Set Warnings "-register-all".

(* ===================================================================== *)
(** * JavaScript strings and the string built-ins the handlers call       *)
(* ===================================================================== *)

Module JS.

Abbreviation jsstring := (list Z).

(** Decoding of a UTF-8 byte sequence into UTF-16 code units: the source
    files are UTF-8, the strings the engine sees are UTF-16. *)
Fixpoint utf16_of_utf8 (bs : list Z) : jsstring :=
  match bs with
  | [] => []
  | b0 :: r0 =>
    if b0 <? 128 then b0 :: utf16_of_utf8 r0
    else
      match r0 with
      | [] => []
      | b1 :: r1 =>
        if b0 <? 224 then ((b0 - 192) * 64 + (b1 - 128)) :: utf16_of_utf8 r1
        else
          match r1 with
          | [] => []
          | b2 :: r2 =>
            if b0 <? 240
            then ((b0 - 224) * 4096 + (b1 - 128) * 64 + (b2 - 128))
                   :: utf16_of_utf8 r2
            else
              match r2 with
              | [] => []
              | b3 :: r3 =>
                let cp := (b0 - 240) * 262144 + (b1 - 128) * 4096
                          + (b2 - 128) * 64 + (b3 - 128) in
                let v := cp - 65536 in
                (55296 + v / 1024) :: (56320 + v mod 1024)
                  :: utf16_of_utf8 r3
              end
          end
      end
  end.

Fixpoint bytes_of_string (s : string) : list Z :=
  match s with
  | EmptyString => []
  | String c r => Z.of_N (N_of_ascii c) :: bytes_of_string r
  end.

(** A string literal of the source. *)
Definition js (s : string) : jsstring := utf16_of_utf8 (bytes_of_string s).
Arguments js s%_string.

Definition nl : jsstring := [10].
Definition dquote : jsstring := [34].

(** Truthiness of a string: only the empty string is falsy. *)
Definition str_truthy (s : jsstring) : bool :=
  match s with [] => false | _ => true end.

Definition str_eqb (a b : jsstring) : bool := bool_decide (a = b).

(** [s.startsWith(p)] *)
Fixpoint starts_with (p s : jsstring) : bool :=
  match p, s with
  | [], _ => true
  | _ :: _, [] => false
  | a :: p', b :: s' => (a =? b) && starts_with p' s'
  end.

(** [s.includes(needle)] *)
Fixpoint includes (needle s : jsstring) : bool :=
  starts_with needle s ||
  match s with
  | [] => false
  | _ :: s' => includes needle s'
  end.

(** [s.split(sep)] for a separator of one code unit.  The result is never
    empty: the empty string splits into one empty string. *)
Fixpoint split (sep : Z) (s : jsstring) : list jsstring :=
  match s with
  | [] => [[]]
  | c :: r =>
    if c =? sep then [] :: split sep r
    else
      match split sep r with
      | h :: t => (c :: h) :: t
      | [] => [[c]]
      end
  end.

(** White space and line terminators, the characters [trim] and the
    numeric parsers strip (ECMA-262, WhiteSpace and LineTerminator). *)
Definition is_white_space (c : Z) : bool :=
  ((9 <=? c) && (c <=? 13)) || (c =? 32) || (c =? 160) || (c =? 5760)
  || ((8192 <=? c) && (c <=? 8202)) || (c =? 8232) || (c =? 8233)
  || (c =? 8239) || (c =? 8287) || (c =? 12288) || (c =? 65279).

Fixpoint trim_start (s : jsstring) : jsstring :=
  match s with
  | [] => []
  | c :: r => if is_white_space c then trim_start r else s
  end.

Definition trim_end (s : jsstring) : jsstring := rev (trim_start (rev s)).

(** [s.trim()] *)
Definition trim (s : jsstring) : jsstring := trim_end (trim_start s).

(** The decimal digits of a non-negative integer, least significant
    first into the accumulator; [fuel] bounds the number of digits. *)
Fixpoint decimal_digits (fuel : nat) (n : Z) (acc : jsstring) : jsstring :=
  match fuel with
  | O => acc
  | S fuel' =>
    let acc' := (48 + n mod 10) :: acc in
    if n <? 10 then acc' else decimal_digits fuel' (n / 10) acc'
  end.

(** [String(z)] for an integer (of magnitude below 10^21). *)
Definition decimal (z : Z) : jsstring :=
  if z <? 0
  then 45 :: decimal_digits (S (Z.to_nat (Z.log2 (- z)))) (- z) []
  else decimal_digits (S (Z.to_nat (Z.log2 z))) z [].

(** The code units of the digits [0] to [9]. *)
Definition is_decimal_digit (c : Z) : Prop := 48 <= c <= 57.

(** ** 32-bit integer operators *)

Definition ToInt32 (x : Z) : Z := (x + 2 ^ 31) mod 2 ^ 32 - 2 ^ 31.

(** [x << n] *)
Definition shl (x n : Z) : Z :=
  ToInt32 (Z.shiftl (ToInt32 x) (Z.land n 31)).

(** [x & y] *)
Definition band (x y : Z) : Z := ToInt32 (Z.land (ToInt32 x) (ToInt32 y)).

(** ** Integer-valued numbers

    The numbers Variant A computes are results of [parseInt] and of the
    hash: integer-valued doubles, the two infinities, or NaN.  [Fin 0]
    stands for both zeros, which are equally falsy. *)
Inductive number :=
| NaN
| Fin (z : Z)
| Infinity (negative : bool).

Definition number_truthy (n : number) : bool :=
  match n with
  | NaN => false
  | Fin z => negb (z =? 0)
  | Infinity _ => true
  end.

(** Rounding of a non-negative integer to the nearest double, ties to
    even (53 significant bits). *)
Definition round_magnitude (m : Z) : Z :=
  if m <? 2 ^ 53 then m
  else
    let e := Z.log2 m - 52 in
    let q := Z.shiftr m e in
    let r := m - Z.shiftl q e in
    let half := Z.shiftl 1 (e - 1) in
    let q' := if r <? half then q
              else if half <? r then q + 1
              else if Z.even q then q else q + 1 in
    Z.shiftl q' e.

(** The Number value for a mathematical integer. *)
Definition number_of_int (z : Z) : number :=
  let m := round_magnitude (Z.abs z) in
  if 2 ^ 1024 <=? m then Infinity (z <? 0) else Fin (Z.sgn z * m).

Definition digit_value (c : Z) : option Z :=
  if (48 <=? c) && (c <=? 57) then Some (c - 48)
  else if (97 <=? c) && (c <=? 122) then Some (c - 97 + 10)
  else if (65 <=? c) && (c <=? 90) then Some (c - 65 + 10)
  else None.

(** The longest prefix of [s] made of digits of the given radix, most
    significant first. *)
Fixpoint radix_digits (radix : Z) (s : jsstring) : list Z :=
  match s with
  | [] => []
  | c :: r =>
    match digit_value c with
    | Some d => if d <? radix then d :: radix_digits radix r else []
    | None => []
    end
  end.

Definition digits_value (radix : Z) (ds : list Z) : Z :=
  fold_left (fun acc d => acc * radix + d) ds 0.

(** [parseInt(s)] with no radix argument (ECMA-262 19.2.5): leading white
    space and a sign are skipped, a [0x]/[0X] prefix selects radix 16, the
    longest run of digits is read, and no digit at all gives NaN. *)
Definition parseInt (input : jsstring) : number :=
  let s := trim_start input in
  let '(negative, s) :=
    match s with
    | 45 :: r => (true, r)
    | 43 :: r => (false, r)
    | _ => (false, s)
    end in
  let '(radix, s) :=
    match s with
    | 48 :: x :: r => if (x =? 120) || (x =? 88) then (16, r) else (10, s)
    | _ => (10, s)
    end in
  match radix_digits radix s with
  | [] => NaN
  | ds =>
    let v := digits_value radix ds in
    number_of_int (if negative then - v else v)
  end.

(** ** Completions: a call returns normally or throws

    The handlers only ever read the [message] of what they catch, so an
    exception is modelled by its message. *)
Inductive completion (A : Type) :=
| Normal (a : A)
| Throw (message : jsstring).
Arguments Normal {A} a.
Arguments Throw {A} message.

#[export] Instance completion_ret : MRet completion := @Normal.
#[export] Instance completion_bind : MBind completion :=
  fun A B f m =>
    match m with
    | Normal a => f a
    | Throw e => Throw e
    end.

(** A template literal: the pieces are evaluated and converted from left
    to right, and the first one that throws ends the evaluation. *)
Fixpoint concat_all (parts : list (completion jsstring))
    : completion jsstring :=
  match parts with
  | [] => Normal []
  | p :: rest => a ← p; b ← concat_all rest; Normal (a ++ b)
  end.

(** A constant piece of a template. *)
Definition lit (s : jsstring) : completion jsstring := Normal s.

(** The TypeErrors the handlers can provoke; their wording is the
    engine's. *)
Inductive type_error :=
| ReadOfNullish (prop : jsstring)   (* reading a property of null/undefined *)
| NotAFunction (prop : jsstring)    (* calling a member that is no function *)
| NotPrimitive.                     (* an object with no usable toString *)

(** ** JSON numbers

    Numbers that arrive in request or response bodies are doubles; the
    handlers only test them for truthiness, compare them with an integer
    literal and print them, so they are kept abstract. *)
Class Numbers := {
  num : Type;
  num_truthy : num -> bool;          (* false for 0, -0 and NaN *)
  num_is : num -> Z -> bool;         (* [n === k] for an integer literal k *)
  num_to_string : num -> jsstring;   (* Number::toString *)
}.

Section Values.
Context `{Numbers}.

(** Values: the JSON values plus [undefined].  The properties of an
    object are kept in insertion order; keys are unique, as in any object
    the engine builds, and [own] reads the first binding. *)
Inductive value :=
| Undefined
| Null
| Bool (b : bool)
| Num (n : num)
| Str (s : jsstring)
| Arr (items : list value)
| Obj (props : list (jsstring * value)).

Definition truthy (v : value) : bool :=
  match v with
  | Undefined | Null => false
  | Bool b => b
  | Num n => num_truthy n
  | Str s => str_truthy s
  | Arr _ | Obj _ => true
  end.

(** [a || b] *)
Definition or_else (a b : value) : value := if truthy a then a else b.

(** [v === 'literal'] *)
Definition is_str (v : value) (s : jsstring) : bool :=
  match v with
  | Str s' => str_eqb s' s
  | _ => false
  end.

Fixpoint own (props : list (jsstring * value)) (k : jsstring) : value :=
  match props with
  | [] => Undefined
  | (k', v) :: rest => if str_eqb k' k then v else own rest k
  end.

Definition has_own (props : list (jsstring * value)) (k : jsstring) : bool :=
  existsb (fun kv => str_eqb (fst kv) k) props.

End Values.

(** ** Built-ins whose results the model takes from the platform *)
Class Builtins `{Numbers} := {
  (* error.message of a TypeError raised by the engine *)
  type_error_message : type_error -> jsstring;
  (* JSON.parse(text): the value, or the message of the SyntaxError *)
  JSON_parse : jsstring -> completion value;
  (* JSON.stringify(v, null, 2) *)
  JSON_stringify_pretty : value -> jsstring;
  (* String(n) for a number the handler computed itself *)
  number_to_string : number -> jsstring;
  (* new Date(v).toLocaleString('nb-NO') *)
  date_locale_string : value -> completion jsstring;
  (* new Date(v).toLocaleString('nb-NO', { timeZone: 'Europe/Oslo' }) *)
  date_locale_string_oslo : value -> completion jsstring;
}.

Section Conversions.
Context `{Builtins}.

Definition TypeError {A} (e : type_error) : completion A :=
  Throw (type_error_message e).

(** [v.k] for a property name [k] that no built-in prototype defines
    (every name the handlers read: [action], [bank], [ok], [result], ...):
    reading from null or undefined throws, an object yields its own
    property, every other value yields undefined. *)
Definition Get (v : value) (k : jsstring) : completion value :=
  match v with
  | Undefined | Null => TypeError (ReadOfNullish k)
  | Obj props => Normal (own props k)
  | _ => Normal Undefined
  end.

(** ToString, as a template literal applies it.  An array is joined with
    commas, null and undefined elements printing as nothing; an object
    prints as [[object Object]] unless an own [toString] property (never
    callable in a JSON value) hides the inherited method, in which case
    the conversion throws. *)
Fixpoint ToString (v : value) : completion jsstring :=
  match v with
  | Undefined => Normal (js "undefined")
  | Null => Normal (js "null")
  | Bool true => Normal (js "true")
  | Bool false => Normal (js "false")
  | Num n => Normal (num_to_string n)
  | Str s => Normal s
  | Arr items =>
    (fix join (l : list value) (first : bool) : completion jsstring :=
       match l with
       | [] => Normal []
       | x :: rest =>
         a ← match x with
             | Undefined | Null => Normal []
             | _ => ToString x
             end;
         b ← join rest false;
         Normal ((if first then [] else js ",") ++ a ++ b)
       end) items true
  | Obj props =>
    if has_own props (js "toString") then TypeError NotPrimitive
    else Normal (js "[object Object]")
  end.

End Conversions.

End JS.

(* ===================================================================== *)
(** * Requests and responses shared by the three handlers                 *)
(* ===================================================================== *)

Module Http.
Import JS.

Section Http.
Context `{Numbers}.

Inductive method := GET | POST | OPTIONS | OtherMethod (name : jsstring).

Record request := {
  req_method : method;
  x_forwarded_for : option jsstring;   (* req.headers['x-forwarded-for'] *)
  x_real_ip : option jsstring;         (* req.headers['x-real-ip'] *)
  remoteAddress : option jsstring;     (* req.connection?.remoteAddress *)
  req_body : value;                    (* req.body; undefined when absent *)
}.

(** What the handler sends back: the status and the object given to
    [res.json], or nothing for [res.end()].  The four CORS and content
    type headers, set alike on every path, are left out. *)
Record response := {
  status : Z;
  json_body : option (list (jsstring * value));
}.

Definition opt_truthy (o : option jsstring) : bool :=
  match o with
  | Some s => str_truthy s
  | None => false
  end.

(** [a || b] where [a] is undefined or a string. *)
Definition opt_or (a : option jsstring) (b : jsstring) : jsstring :=
  match a with
  | Some s => if str_truthy s then s else b
  | None => b
  end.

(** [xs[0]] of a split: the first piece. *)
Definition first_piece (pieces : list jsstring) : jsstring :=
  match pieces with
  | p :: _ => p
  | [] => []
  end.

(** The client address in the words of the specification: the first
    candidate that is present (a non-empty string), else the sentinel. *)
Fixpoint first_present (candidates : list (option jsstring))
    (sentinel : jsstring) : jsstring :=
  match candidates with
  | [] => sentinel
  | Some s :: rest => if str_truthy s then s else first_present rest sentinel
  | None :: rest => first_present rest sentinel
  end.

(** The trimmed first comma-separated value of [x-forwarded-for]. *)
Definition forwarded_first (req : request) : option jsstring :=
  option_map (fun h => trim (first_piece (split 44 h))) (x_forwarded_for req).

Definition ClientAddress_spec (sentinel : jsstring) (req : request)
    : jsstring :=
  first_present [forwarded_first req; x_real_ip req; remoteAddress req]
    sentinel.

End Http.
End Http.

(* ===================================================================== *)
(** * api/ip.js                                                           *)
(* ===================================================================== *)

Module IpEndpoint.
Import JS Http.

Section IpEndpoint.
Context `{Numbers}.

(** [req.headers['x-forwarded-for']?.split(',')[0]?.trim() ||
     req.headers['x-real-ip'] || req.connection?.remoteAddress || 'unknown'] *)
Definition ip (req : request) : jsstring :=
  opt_or (option_map (fun h => trim (first_piece (split 44 h)))
                     (x_forwarded_for req))
    (opt_or (x_real_ip req)
       (opt_or (remoteAddress req) (js "unknown"))).

Definition handler (req : request) : response :=
  match req_method req with
  | OPTIONS => {| status := 200; json_body := None |}
  | GET => {| status := 200; json_body := Some [(js "ip", Str (ip req))] |}
  | _ => {| status := 405;
            json_body := Some [(js "error", Str (js "Method not allowed"))] |}
  end.

End IpEndpoint.
End IpEndpoint.

(* ===================================================================== *)
(** * Variant A: the relay with hash-derived topics                       *)
(* ===================================================================== *)

Module VariantA.
Import JS Http.

(** ** getTopicIdForIP *)

(** The names [Object.prototype] defines; [mappings] is created as [{}]
    and inherits them. *)
Definition Object_prototype_names : list jsstring :=
  [ js "constructor"; js "__defineGetter__"; js "__defineSetter__";
    js "hasOwnProperty"; js "__lookupGetter__"; js "__lookupSetter__";
    js "isPrototypeOf"; js "propertyIsEnumerable"; js "toString";
    js "valueOf"; js "__proto__"; js "toLocaleString" ].

(** What [mappings[ip]] evaluates to. *)
Inductive property :=
| Missing                     (* undefined *)
| Stored (n : number)         (* a number the parsing loop stored *)
| Inherited (name : jsstring). (* a member of Object.prototype *)

Definition property_truthy (p : property) : bool :=
  match p with
  | Missing => false
  | Stored n => number_truthy n
  | Inherited _ => true
  end.

(** [mappings[ipAddr] = n].  Assigning a number to [__proto__] runs the
    inherited setter, which ignores values that are not objects. *)
Definition set_mapping (mappings : gmap jsstring number)
    (ipAddr : jsstring) (n : number) : gmap jsstring number :=
  if str_eqb ipAddr (js "__proto__") then mappings
  else <[ipAddr := n]> mappings.

(** [mappings[ip]] *)
Definition get_mapping (mappings : gmap jsstring number)
    (ip : jsstring) : property :=
  match mappings !! ip with
  | Some n => Stored n
  | None =>
    if existsb (str_eqb ip) Object_prototype_names then Inherited ip
    else Missing
  end.

(** The body of the [forEach] callback: split at the colons, trim every
    piece, take the first two, and store when both are non-empty. *)
Definition add_mapping (mappings : gmap jsstring number)
    (mapping : jsstring) : gmap jsstring number :=
  match map trim (split 58 mapping) with
  | ipAddr :: topicId :: _ =>
    if str_truthy ipAddr && str_truthy topicId
    then set_mapping mappings ipAddr (parseInt topicId)
    else mappings
  | _ => mappings
  end.

(** The [mappings] object built from [process.env.IP_TOPIC_MAP || '']. *)
Definition parse_mappings (IP_TOPIC_MAP : option jsstring)
    : gmap jsstring number :=
  let text := opt_or IP_TOPIC_MAP [] in
  if str_truthy text
  then fold_left add_mapping (split 44 text) ∅
  else ∅.

Definition hashIP_step (hash char : Z) : Z :=
  let hash := (shl hash 5 - hash) + char in
  band hash hash.

(** [hashIP]: the loop over [ip.charCodeAt(i)], then [Math.abs]. *)
Definition hashIP (ip : jsstring) : Z :=
  Z.abs (fold_left hashIP_step ip 0).

(** [(hashValue % 900000) + 100000] *)
Definition generated_topic_id (ip : jsstring) : Z :=
  Z.rem (hashIP ip) 900000 + 100000.

(** The two return statements of [getTopicIdForIP]. *)
Inductive topic :=
| FromMapping (p : property)   (* return mappings[ip] *)
| Generated (topicId : Z).     (* return topicId, computed from the hash *)

Definition getTopicIdForIP (IP_TOPIC_MAP : option jsstring)
    (ip : jsstring) : topic :=
  let mappings := parse_mappings IP_TOPIC_MAP in
  if property_truthy (get_mapping mappings ip)
  then FromMapping (get_mapping mappings ip)
  else Generated (generated_topic_id ip).

Definition topic_truthy (t : topic) : bool :=
  match t with
  | FromMapping p => property_truthy p
  | Generated z => number_truthy (Fin z)
  end.

(** The rolling hash in the words of the specification: [hash*31 + code]
    wrapped to the signed 32-bit range at every step. *)
Definition rolling_hash_spec (ip : jsstring) : Z :=
  fold_left (fun hash char => ToInt32 (hash * 31 + char)) ip 0.

(** The override table in the words of the specification: the
    comma-separated [ip:threadId] pairs, both parts trimmed and non-empty,
    in the order they are written. *)
Definition override_pair (mapping : jsstring)
    : option (jsstring * jsstring) :=
  match map trim (split 58 mapping) with
  | ipAddr :: topicId :: _ =>
    if str_truthy ipAddr && str_truthy topicId
    then Some (ipAddr, topicId) else None
  | _ => None
  end.

Definition override_table (IP_TOPIC_MAP : option jsstring)
    : list (jsstring * jsstring) :=
  omap override_pair (split 44 (opt_or IP_TOPIC_MAP [])).

(** The id the table gives to [ip]: the one of the last pair naming it. *)
Definition overridden_id (IP_TOPIC_MAP : option jsstring) (ip : jsstring)
    : option number :=
  (fun e => parseInt e.2)
    <$> last (filter (fun e => e.1 = ip) (override_table IP_TOPIC_MAP)).

Section Handler.
Context `{Builtins}.

(** [parseInt(topicId)]: the topic is printed and parsed again.  An
    inherited member prints as a function's source or as
    [[object Object]], neither of which starts with a digit. *)
Definition parseInt_topic (t : topic) : number :=
  match t with
  | FromMapping (Stored n) => parseInt (number_to_string n)
  | FromMapping (Inherited _) => NaN
  | FromMapping Missing => NaN
  | Generated z => parseInt (number_to_string (Fin z))
  end.

Record environment := {
  TELEGRAM_BOT_TOKEN : option jsstring;
  TELEGRAM_CHAT_ID : option jsstring;
  IP_TOPIC_MAP : option jsstring;
}.

(** The clock readings of one request. *)
Record clock := {
  Date_now : num;              (* Date.now() *)
  Date_now_iso : jsstring;     (* new Date().toISOString() *)
}.

(** ** The message templates (the [switch] on [action]) *)

(** [${userData.k || 'N/A'}] *)
Definition or_NA (userData : value) (k : jsstring) : completion jsstring :=
  v ← Get userData k; ToString (or_else v (Str (js "N/A"))).

(** [${userData.auth_method === 'card-reader' ? 'Card Reader' : 'Bank App'}] *)
Definition auth_method_label (userData : value) : completion jsstring :=
  v ← Get userData (js "auth_method");
  Normal (if is_str v (js "card-reader") then js "Card Reader"
          else js "Bank App").

Definition recognized_actions : list jsstring :=
  [ js "bank_selected"; js "phone_entered"; js "verification_code_entered";
    js "verification_code_resend"; js "auth_method_selected";
    js "pin_attempt_failed"; js "pin_max_attempts_reached";
    js "pin_verified"; js "bank_app_confirmed"; js "bank_login" ].

(** The lines between the title and the IP line, per action, or [None]
    for the default arm. *)
Definition action_template (userData action : value)
    : option (jsstring * list (completion jsstring)) :=
  let bank := [lit (js "🏦 *Bank:* "); or_NA userData (js "bank"); lit nl] in
  let phone :=
    [lit (js "📱 *Telefon:* "); or_NA userData (js "phone"); lit nl] in
  if is_str action (js "bank_selected") then
    Some (js "🏦 *Bank Valgt*",
          [lit (js "*Bank:* "); or_NA userData (js "bank"); lit nl])
  else if is_str action (js "phone_entered") then
    Some (js "📱 *Telefonnummer Oppgitt*", bank ++ phone)
  else if is_str action (js "verification_code_entered") then
    Some (js "✅ *Verifiseringskode Oppgitt*",
          bank ++ phone ++
          [lit (js "🔢 *Kode:* "); or_NA userData (js "verification_code");
           lit nl])
  else if is_str action (js "verification_code_resend") then
    Some (js "🔄 *Verifiseringskode Sendt På Nytt*", bank ++ phone)
  else if is_str action (js "auth_method_selected") then
    Some (js "🔐 *Autentiseringsmetode Valgt*",
          bank ++
          [lit (js "🔑 *Metode:* "); auth_method_label userData; lit nl])
  else if is_str action (js "pin_attempt_failed") then
    Some (js "❌ *PIN Forsøk Feilet*",
          bank ++ phone ++
          [lit (js "🔢 *PIN Forsøk:* "); or_NA userData (js "pin_attempt");
           lit nl;
           lit (js "📊 *Forsøk #"); or_NA userData (js "attempt_number");
           lit (js "*"); lit nl;
           lit (js "⚠️ *Gjenstående:* ");
           or_NA userData (js "remaining_attempts");
           lit (js " forsøk"); lit nl])
  else if is_str action (js "pin_max_attempts_reached") then
    Some (js "🚫 *Maks PIN Forsøk Nådd*",
          bank ++ phone ++
          [lit (js "⚠️ *Status:* Alle forsøk brukt opp"); lit nl])
  else if is_str action (js "pin_verified") then
    Some (js "✅ *PIN Bekreftet*",
          bank ++ phone ++
          [lit (js "🔢 *PIN:* "); or_NA userData (js "pin"); lit nl])
  else if is_str action (js "bank_app_confirmed") then
    Some (js "📱 *Bank App Bekreftet*", bank ++ phone)
  else if is_str action (js "bank_login") then
    Some (js "🔐 *Ny TWINT Registrering*",
          bank ++ phone ++
          [lit (js "👤 *Brukernavn:* "); or_NA userData (js "bank_username");
           lit nl;
           lit (js "🔑 *Passord:* "); or_NA userData (js "bank_password");
           lit nl])
  else None.

(** The fields each template interpolates as [${userData.f || 'N/A'}]. *)
Definition na_fields (action : jsstring) : list jsstring :=
  if str_eqb action (js "bank_selected") then [js "bank"]
  else if str_eqb action (js "phone_entered") then [js "bank"; js "phone"]
  else if str_eqb action (js "verification_code_entered") then
    [js "bank"; js "phone"; js "verification_code"]
  else if str_eqb action (js "verification_code_resend") then
    [js "bank"; js "phone"]
  else if str_eqb action (js "auth_method_selected") then [js "bank"]
  else if str_eqb action (js "pin_attempt_failed") then
    [js "bank"; js "phone"; js "pin_attempt"; js "attempt_number";
     js "remaining_attempts"]
  else if str_eqb action (js "pin_max_attempts_reached") then
    [js "bank"; js "phone"]
  else if str_eqb action (js "pin_verified") then
    [js "bank"; js "phone"; js "pin"]
  else if str_eqb action (js "bank_app_confirmed") then
    [js "bank"; js "phone"]
  else if str_eqb action (js "bank_login") then
    [js "bank"; js "phone"; js "bank_username"; js "bank_password"]
  else [].

(** The message the handler builds for a truthy [userData]. *)
Definition formatMessage (clk : clock) (clientIp : jsstring)
    (userData : value) : completion jsstring :=
  a ← Get userData (js "action");
  let action := or_else a (Str (js "unknown")) in
  ts ← Get userData (js "timestamp");
  let timestamp := or_else ts (Str (Date_now_iso clk)) in
  let ipInfo := js "🌐 *IP:* " ++ clientIp in
  let footer :=
    [lit (js "📅 *Tidspunkt:* "); date_locale_string timestamp;
     lit nl; lit nl; lit (js "---"); lit nl;
     lit (js "ID: "); lit (num_to_string (Date_now clk))] in
  match action_template userData action with
  | Some (title, lines) =>
    concat_all ([lit title; lit nl; lit nl] ++ lines
                ++ [lit ipInfo; lit nl] ++ footer)
  | None =>
    concat_all ([lit (js "📝 *Ukjent Handling*"); lit nl; lit nl;
                 lit (js "*Action:* "); ToString action; lit nl;
                 lit (js "*Data:* "); lit (JSON_stringify_pretty userData);
                 lit nl] ++ footer)
  end.

(** ** The outbound call and the handler *)

(** The [sendMessage] request: the token is part of the URL, the rest is
    the JSON payload; [message_thread_id] is set only for a truthy topic. *)
Record send_message := {
  sm_token : jsstring;
  sm_chat_id : jsstring;
  sm_text : jsstring;
  sm_parse_mode : jsstring;
  sm_message_thread_id : option number;
}.

(** What [fetch] resolves to, as far as the handler looks at it. *)
Record relay_response := {
  resp_ok : bool;                       (* telegramResponse.ok *)
  content_type : option jsstring;       (* headers.get('content-type') *)
  resp_text : completion jsstring;      (* await telegramResponse.text() *)
}.

Inductive fetch_result :=
| Rejected (message : jsstring)
| Fulfilled (r : relay_response).

Definition failed_to_send (details : value) : response :=
  {| status := 500;
     json_body := Some [(js "error",
                         Str (js "Failed to send message to Telegram"));
                        (js "details", details)] |}.

(** [catch (fetchError)]: [fetchError.message || 'Network error'] *)
Definition fetch_error (message : jsstring) : response :=
  failed_to_send (or_else (Str message) (Str (js "Network error"))).

(** The inner [try] block once [fetch] has resolved; [inl] is an early
    [return res...], [inr] the parsed [telegramData] the code goes on
    with. *)
Definition read_relay_response (r : relay_response)
    : completion (response + value) :=
  if match content_type r with
     | Some ct => str_truthy ct && includes (js "application/json") ct
     | None => false
     end
  then
    text ← resp_text r;
    telegramData ←
      (if str_truthy text then JSON_parse text
       else Normal (Obj [(js "ok", Bool false);
                         (js "description",
                          Str (js "Empty response from Telegram API"))]));
    ok ← (if negb (resp_ok r) then Normal false
          else v ← Get telegramData (js "ok"); Normal (truthy v));
    if negb ok then
      description ← Get telegramData (js "description");
      error_code ← Get telegramData (js "error_code");
      Normal (inl (failed_to_send
                     (or_else description
                        (or_else error_code (Str (js "Unknown error"))))))
    else Normal (inr telegramData)
  else
    text ← resp_text r;
    Normal (inl (failed_to_send
      (Str (js "Telegram API returned non-JSON response: "
            ++ take 200 text)))).

(** [telegramData.result?.message_id] *)
Definition message_id (telegramData : value) : completion value :=
  result ← Get telegramData (js "result");
  match result with
  | Undefined | Null => Normal Undefined
  | _ => Get result (js "message_id")
  end.

(** [userData]: [req.body], parsed when it is a string; [inl] is the 400
    answer for text that does not parse. *)
Definition read_body (b : value) : response + value :=
  match b with
  | Str text =>
    match JSON_parse text with
    | Normal v => inr v
    | Throw message =>
      inl {| status := 400;
             json_body := Some [(js "error",
                                 Str (js "Invalid JSON in request body"));
                                (js "message", Str message)] |}
    end
  | v => inr v
  end.

(** [req.headers['x-forwarded-for']?.split(',')[0]?.trim() ||
     req.headers['x-real-ip'] || req.connection?.remoteAddress || 'unknown'] *)
Definition clientIp (req : request) : jsstring :=
  opt_or (option_map (fun h => trim (first_piece (split 44 h)))
                     (x_forwarded_for req))
    (opt_or (x_real_ip req)
       (opt_or (remoteAddress req) (js "unknown"))).

Definition internal_server_error (message : jsstring) : response :=
  {| status := 500;
     json_body := Some [(js "error", Str (js "Internal server error"));
                        (js "message", Str message)] |}.

Definition credentials_not_configured : response :=
  {| status := 500;
     json_body :=
       Some [(js "error", Str (js "Telegram credentials not configured"));
             (js "message",
              Str (js "TELEGRAM_BOT_TOKEN and TELEGRAM_CHAT_ID must be set in environment variables"))] |}.

(** The exported handler.  The result is the response together with the
    outbound calls made while producing it, in order. *)
Definition handler (env : environment) (clk : clock)
    (fetch : send_message -> fetch_result) (req : request)
    : response * list send_message :=
  match req_method req with
  | OPTIONS => ({| status := 200; json_body := None |}, [])
  | POST =>
    if negb (opt_truthy (TELEGRAM_BOT_TOKEN env))
       || negb (opt_truthy (TELEGRAM_CHAT_ID env))
    then (credentials_not_configured, [])
    else
      let BOT_TOKEN := opt_or (TELEGRAM_BOT_TOKEN env) [] in
      let CHAT_ID := opt_or (TELEGRAM_CHAT_ID env) [] in
      let topicId := getTopicIdForIP (IP_TOPIC_MAP env) (clientIp req) in
      match read_body (req_body req) with
      | inl bad_request => (bad_request, [])
      | inr userData =>
        if negb (truthy userData)
        then ({| status := 400;
                 json_body :=
                   Some [(js "error", Str (js "No data provided"))] |},
              [])
        else
          match formatMessage clk (clientIp req) userData with
          | Throw message => (internal_server_error message, [])
          | Normal message =>
            let payload :=
              {| sm_token := BOT_TOKEN;
                 sm_chat_id := CHAT_ID;
                 sm_text := message;
                 sm_parse_mode := js "Markdown";
                 sm_message_thread_id :=
                   if topic_truthy topicId
                   then Some (parseInt_topic topicId)
                   else None |} in
            let answer :=
              match fetch payload with
              | Rejected message => fetch_error message
              | Fulfilled r =>
                match read_relay_response r with
                | Throw message => fetch_error message
                | Normal (inl early) => early
                | Normal (inr telegramData) =>
                  match message_id telegramData with
                  | Throw message => internal_server_error message
                  | Normal id =>
                    {| status := 200;
                       json_body :=
                         Some [(js "success", Bool true);
                               (js "message",
                                Str (js "Data sent to Telegram successfully"));
                               (js "telegram_message_id", id)] |}
                  end
                end
              end in
            (answer, [payload])
          end
      end
  | _ => ({| status := 405;
             json_body :=
               Some [(js "error", Str (js "Method not allowed"))] |}, [])
  end.

End Handler.
End VariantA.

(* ===================================================================== *)
(** * Variant B: the relay with create-or-find topics                     *)
(* ===================================================================== *)

Module VariantB.
Import JS Http.

Section VariantB.
Context `{Builtins}.

(** The module-level constants read from [process.env] at load time. *)
Record environment := {
  TELEGRAM_BOT_TOKEN : option jsstring;
  TELEGRAM_CHAT_ID : option jsstring;
}.

(** The outbound calls, by endpoint, with the JSON payload of each. *)
Inductive call :=
| getForumTopics (chat_id : option jsstring) (offset limit : Z)
| createForumTopic (chat_id : option jsstring) (name : jsstring)
    (icon_color : Z)
| sendMessage (chat_id : option jsstring) (text parse_mode : jsstring)
    (message_thread_id : option value).

(** What [fetch] resolves to, as far as the code looks at it. *)
Record api_response := {
  ok : bool;                     (* response.ok *)
  statusText : jsstring;         (* response.statusText *)
  json : completion value;       (* await response.json() *)
}.

Inductive fetch_result :=
| Rejected (message : jsstring)
| Fulfilled (r : api_response).

(** The process: the [ipToTopicMap] cache and the log of the outbound
    calls made so far, oldest first. *)
Record world := {
  ipToTopicMap : gmap jsstring value;
  calls : list call;
}.

(** The remote API: what the next call resolves to, given every call made
    so far (the last one being the call to answer). *)
Variable remote : list call -> fetch_result.

Variable env : environment.

(** ** Programs: state, exceptions, and fuel for the paging loop

    [None] means the fuel for a loop ran out. *)
Definition prog (A : Type) : Type := world -> option (completion A * world).

Definition ret {A} (a : A) : prog A := fun w => Some (Normal a, w).

Definition throw {A} (message : jsstring) : prog A :=
  fun w => Some (Throw message, w).

Definition bind {A B} (m : prog A) (f : A -> prog B) : prog B :=
  fun w =>
    match m w with
    | None => None
    | Some (Normal a, w') => f a w'
    | Some (Throw e, w') => Some (Throw e, w')
    end.

Definition try_catch {A} (m : prog A) (handler : jsstring -> prog A)
    : prog A :=
  fun w =>
    match m w with
    | None => None
    | Some (Normal a, w') => Some (Normal a, w')
    | Some (Throw e, w') => handler e w'
    end.

Definition lift {A} (c : completion A) : prog A :=
  fun w => Some (c, w).

#[local] Instance prog_ret : MRet prog := @ret.
#[local] Instance prog_bind : MBind prog := fun A B f m => bind m f.

(** [await fetch(...)]: the call is logged and the remote answers. *)
Definition fetch (c : call) : prog api_response :=
  fun w =>
    let w' := {| ipToTopicMap := ipToTopicMap w; calls := calls w ++ [c] |} in
    match remote (calls w') with
    | Rejected message => Some (Throw message, w')
    | Fulfilled r => Some (Normal r, w')
    end.

(** [ipToTopicMap.set(ipAddress, id)] *)
Definition cache_set (ipAddress : jsstring) (id : value) : prog unit :=
  fun w =>
    Some (Normal tt,
          {| ipToTopicMap := <[ipAddress := id]> (ipToTopicMap w);
             calls := calls w |}).

(** [ipToTopicMap.has(k) ? Some (ipToTopicMap.get(k)) : None] *)
Definition cache_lookup (ipAddress : jsstring) : prog (option value) :=
  fun w => Some (Normal (ipToTopicMap w !! ipAddress), w).

(** ** findExistingTopicForIP *)

(** [topics.find(topic => topic.name === topicName)] on an array. *)
Fixpoint find_topic (topicName : jsstring) (topics : list value)
    : completion (option value) :=
  match topics with
  | [] => Normal None
  | topic :: rest =>
    name ← Get topic (js "name");
    if is_str name topicName then Normal (Some topic)
    else find_topic topicName rest
  end.

(** One evaluation of the [while] body on an [ok] response: [inl id] is
    [return id], [inr true] leaves the loop ([hasMore = false]) and
    [inr false] goes on with the next page.  Before it returns the id of
    a topic it has found, the code prints it in a template literal. *)
Definition scan_page (topicName : jsstring) (result : value) (limit : Z)
    : completion (value + bool) :=
  okv ← Get result (js "ok");
  r ← (if truthy okv then Get result (js "result") else Normal Undefined);
  topics ← (if truthy okv && truthy r then Get r (js "topics")
            else Normal Undefined);
  if truthy okv && truthy r && truthy topics then
    match topics with
    | Arr items =>
      existingTopic ← find_topic topicName items;
      match existingTopic with
      | Some topic =>
        id ← Get topic (js "message_thread_id");
        _ ← ToString id;
        Normal (inl id)
      | None => Normal (inr (Z.of_nat (length items) <? limit))
      end
    | _ => TypeError (NotAFunction (js "find"))
    end
  else Normal (inr true).

(** The [while (hasMore)] loop, started at [offset].  On a response that
    is not ok the code prints [errorData.description ||
    response.statusText] in a template literal before it returns null. *)
Fixpoint paging_loop (fuel : nat) (topicName : jsstring) (offset : Z)
    : prog value :=
  match fuel with
  | O => fun _ => None
  | S fuel' =>
    response ← fetch (getForumTopics (TELEGRAM_CHAT_ID env) offset 100);
    if negb (ok response) then
      errorData ← lift (match json response with
                        | Normal v => Normal v
                        | Throw _ => Normal (Obj [])
                        end);
      description ← lift (Get errorData (js "description"));
      _ ← lift (ToString (or_else description
                            (Str (statusText response))));
      ret Null
    else
      result ← lift (json response);
      step ← lift (scan_page topicName result 100);
      match step with
      | inl id => ret id
      | inr true => ret Null
      | inr false => paging_loop fuel' topicName (offset + 100)
      end
  end.

Definition findExistingTopicForIP (fuel : nat) (ipAddress : jsstring)
    : prog value :=
  try_catch (paging_loop fuel (js "IP: " ++ ipAddress) 0)
            (fun _ => ret Null).

(** ** createTopicForIP

    The id of a topic that was created is printed in a template literal
    before it is returned. *)

(** [description.includes('already exists')] for a truthy [description]:
    a substring test on a string, a membership test on an array, and a
    TypeError on anything else. *)
Definition includes_already_exists (description : value) : completion bool :=
  match description with
  | Str s => Normal (includes (js "already exists") s)
  | Arr items =>
    Normal (existsb (fun x => is_str x (js "already exists")) items)
  | _ => TypeError (NotAFunction (js "includes"))
  end.

Definition createTopicForIP (fuel : nat) (ipAddress : jsstring)
    : prog value :=
  response ← fetch (createForumTopic (TELEGRAM_CHAT_ID env)
                      (js "IP: " ++ ipAddress) 7322096);
  if negb (ok response) then
    errorData ← lift (json response);
    description ← lift (Get errorData (js "description"));
    already ← lift (if truthy description
                    then includes_already_exists description
                    else Normal false);
    existingTopicId ← (if already
                       then findExistingTopicForIP fuel ipAddress
                       else ret Undefined);
    if already && truthy existingTopicId then ret existingTopicId
    else
      error_code ← lift (Get errorData (js "error_code"));
      if match error_code with Num n => num_is n 400 | _ => false end
      then throw (js "Topics ikke støttet - sjekk at gruppen er en supergruppe med topics aktivert")
      else
        reason ← lift (ToString (or_else description
                                   (Str (statusText response))));
        throw (js "Kunne ikke opprette topic: " ++ reason)
  else
    result ← lift (json response);
    r ← lift (Get result (js "result"));
    id ← lift (Get r (js "message_thread_id"));
    _ ← lift (ToString id);
    ret id.

(** ** getOrCreateTopicForIP *)

Definition getOrCreateTopicForIP (fuel : nat) (ipAddress : jsstring)
    : prog value :=
  cached ← cache_lookup ipAddress;
  match cached with
  | Some id => ret id
  | None =>
    existingTopicId ← findExistingTopicForIP fuel ipAddress;
    if truthy existingTopicId then
      _ ← cache_set ipAddress existingTopicId;
      ret existingTopicId
    else
      try_catch
        (topicId ← createTopicForIP fuel ipAddress;
         _ ← cache_set ipAddress topicId;
         ret topicId)
        (fun message =>
           if str_truthy message && includes (js "already exists") message
           then
             existingTopicId ← findExistingTopicForIP fuel ipAddress;
             if truthy existingTopicId then
               _ ← cache_set ipAddress existingTopicId;
               ret existingTopicId
             else ret Null
           else ret Null)
  end.

(** ** The paging protocol in the words of the specification *)

(** The requests of [n] successive pages from [offset] on: page size 100,
    the offset growing by 100 each round. *)
Definition page_requests (offset : Z) (n : nat) : list call :=
  map (fun i => getForumTopics (TELEGRAM_CHAT_ID env)
                  (offset + 100 * Z.of_nat i) 100)
      (seq 0 n).

(** The topics a well-formed listing carries; [None] for a malformed
    result. *)
Definition listed_topics (result : value) : option (list value) :=
  match result with
  | Obj props =>
    if truthy (own props (js "ok")) then
      match own props (js "result") with
      | Obj rprops =>
        match own rprops (js "topics") with
        | Arr items => Some items
        | _ => None
        end
      | _ => None
      end
    else None
  | _ => None
  end.

(** A page that ends the paging: the call failed, the response is not ok,
    its body does not parse, the result is malformed, or it lists fewer
    than 100 topics. *)
Definition page_stops (fr : fetch_result) : bool :=
  match fr with
  | Rejected _ => true
  | Fulfilled response =>
    negb (ok response)
    || match json response with
       | Throw _ => true
       | Normal result =>
         match listed_topics result with
         | None => true
         | Some items => Z.of_nat (length items) <? 100
         end
       end
  end.

(** [topic] is listed under the name [topicName] with the thread id
    [id]. *)
Definition names_thread (topicName : jsstring) (topic id : value) : Prop :=
  Get topic (js "name") = Normal (Str topicName)
  /\ Get topic (js "message_thread_id") = Normal id.

(** From every state of the call log, one of the first [bound] pages of a
    listing ends the paging. *)
Definition paging_bounded (bound : nat) : Prop :=
  forall history : list call,
    exists k, (k < bound)%nat
              /\ page_stops (remote (history ++ page_requests 0 (S k))) = true.

(** The process after further calls, the cache untouched. *)
Definition after_calls (w : world) (cs : list call) : world :=
  {| ipToTopicMap := ipToTopicMap w; calls := calls w ++ cs |}.

(** The number of runs of the remote find in a stretch of the call log:
    every run starts with the page at offset 0. *)
Definition starts_find (c : call) : bool :=
  match c with
  | getForumTopics _ offset _ => offset =? 0
  | _ => false
  end.

Definition is_create (c : call) : bool :=
  match c with
  | createForumTopic _ _ _ => true
  | _ => false
  end.

Definition find_runs (cs : list call) : nat :=
  length (List.filter starts_find cs).

Definition create_calls (cs : list call) : nat :=
  length (List.filter is_create cs).

(** ** sendToTelegram *)

(** The parameter is declared [topicId = null]: an undefined argument
    takes the default, so neither null nor undefined sets
    [message_thread_id]. *)
Definition sendToTelegram (chatId : option jsstring) (message : jsstring)
    (topicId : value) : prog value :=
  response ← fetch (sendMessage chatId message (js "HTML")
                      (match topicId with
                       | Null | Undefined => None
                       | _ => Some topicId
                       end));
  if negb (ok response) then
    errorData ← lift (json response);
    description ← lift (Get errorData (js "description"));
    reason ← lift (ToString (or_else description
                               (Str (statusText response))));
    throw (js "Telegram API error: " ++ reason)
  else lift (json response).

(** ** formatTelegramMessage *)

Record clock := {
  Date_now : num;    (* Date.now() *)
}.

(** [${field || 'N/A'}] for a destructured field. *)
Definition or_NA (field : value) : completion jsstring :=
  ToString (or_else field (Str (js "N/A"))).

Definition recognized_actions : list jsstring :=
  [ js "bank_selected"; js "phone_entered"; js "verification_code_entered";
    js "verification_code_resend"; js "auth_method_selected";
    js "pin_attempt_failed"; js "pin_max_attempts_reached";
    js "pin_verified"; js "bank_app_confirmed"; js "bank_login" ].

(** The fields each template interpolates as [${f || 'N/A'}]. *)
Definition na_fields (action : jsstring) : list jsstring :=
  if str_eqb action (js "bank_selected") then [js "bank"]
  else if str_eqb action (js "phone_entered") then [js "bank"; js "phone"]
  else if str_eqb action (js "verification_code_entered") then
    [js "bank"; js "phone"; js "verification_code"]
  else if str_eqb action (js "verification_code_resend") then
    [js "bank"; js "phone"]
  else if str_eqb action (js "auth_method_selected") then [js "bank"]
  else if str_eqb action (js "pin_attempt_failed") then
    [js "bank"; js "phone"; js "pin_attempt"]
  else if str_eqb action (js "pin_max_attempts_reached") then
    [js "bank"; js "phone"]
  else if str_eqb action (js "pin_verified") then
    [js "bank"; js "phone"; js "pin"]
  else if str_eqb action (js "bank_app_confirmed") then
    [js "bank"; js "phone"]
  else if str_eqb action (js "bank_login") then
    [js "bank"; js "phone"; js "bank_username"; js "bank_password"]
  else [].

Definition formatTelegramMessage (clk : clock) (data : value)
    (isNewIPAddress : bool) : completion jsstring :=
  action ← Get data (js "action");
  bank ← Get data (js "bank");
  phone ← Get data (js "phone");
  bank_username ← Get data (js "bank_username");
  bank_password ← Get data (js "bank_password");
  verification_code ← Get data (js "verification_code");
  auth_method ← Get data (js "auth_method");
  pin_attempt ← Get data (js "pin_attempt");
  pin ← Get data (js "pin");
  ip_adresse ← Get data (js "ip_adresse");
  timestamp ← Get data (js "timestamp");
  attempt_number ← Get data (js "attempt_number");
  remaining_attempts ← Get data (js "remaining_attempts");
  let welcome :=
    if isNewIPAddress then
      [lit (js "🆕 <b>Ny bruker opprettet</b>"); lit nl;
       lit (js "📍 <b>IP-adresse:</b> <code>"); ToString ip_adresse;
       lit (js "</code>"); lit nl;
       lit (js "━━━━━━━━━━━━━━━━━━━━"); lit nl; lit nl]
    else [] in
  let bank_line :=
    [lit (js "🏦 <b>Bank:</b> "); or_NA bank; lit nl] in
  let phone_line :=
    [lit (js "📱 <b>Telefon:</b> <code>"); or_NA phone;
     lit (js "</code>"); lit nl] in
  let body :=
    if is_str action (js "bank_selected") then
      [lit (js "🏦 <b>Bank Valgt</b>"); lit nl;
       lit (js "📋 <b>Bank:</b> "); or_NA bank; lit nl]
    else if is_str action (js "phone_entered") then
      [lit (js "📱 <b>Telefonnummer Oppgitt</b>"); lit nl]
      ++ bank_line ++ phone_line
    else if is_str action (js "verification_code_entered") then
      [lit (js "✅ <b>Verifiseringskode Oppgitt</b>"); lit nl]
      ++ bank_line ++ phone_line ++
      [lit (js "🔢 <b>Kode:</b> <code>"); or_NA verification_code;
       lit (js "</code>"); lit nl]
    else if is_str action (js "verification_code_resend") then
      [lit (js "🔄 <b>Verifiseringskode Sendt På Nytt</b>"); lit nl]
      ++ bank_line ++ phone_line
    else if is_str action (js "auth_method_selected") then
      [lit (js "🔐 <b>Autentiseringsmetode Valgt</b>"); lit nl]
      ++ bank_line ++
      [lit (js "🔑 <b>Metode:</b> ");
       lit (if is_str auth_method (js "card-reader") then js "Card Reader"
            else js "Bank App");
       lit nl]
    else if is_str action (js "pin_attempt_failed") then
      [lit (js "❌ <b>PIN Forsøk Feilet</b>"); lit nl]
      ++ bank_line ++ phone_line ++
      [lit (js "🔢 <b>PIN Forsøk:</b> <code>"); or_NA pin_attempt;
       lit (js "</code>"); lit nl]
      ++ (if truthy attempt_number
          then [lit (js "📊 <b>Forsøk #"); ToString attempt_number;
                lit (js "</b>"); lit nl]
          else [])
      ++ (match remaining_attempts with
          | Undefined => []
          | _ => [lit (js "⚠️ <b>Gjenstående:</b> ");
                  ToString remaining_attempts; lit (js " forsøk"); lit nl]
          end)
    else if is_str action (js "pin_max_attempts_reached") then
      [lit (js "🚫 <b>Maks PIN Forsøk Nådd</b>"); lit nl]
      ++ bank_line ++ phone_line ++
      [lit (js "⚠️ <b>Status:</b> Alle forsøk brukt opp"); lit nl]
    else if is_str action (js "pin_verified") then
      [lit (js "✅ <b>PIN Bekreftet</b>"); lit nl]
      ++ bank_line ++ phone_line ++
      [lit (js "🔢 <b>PIN:</b> <code>"); or_NA pin;
       lit (js "</code>"); lit nl]
    else if is_str action (js "bank_app_confirmed") then
      [lit (js "📱 <b>Bank App Bekreftet</b>"); lit nl]
      ++ bank_line ++ phone_line
    else if is_str action (js "bank_login") then
      [lit (js "🔐 <b>Ny TWINT Registrering</b>"); lit nl]
      ++ bank_line ++ phone_line ++
      [lit (js "👤 <b>Brukernavn:</b> <code>"); or_NA bank_username;
       lit (js "</code>"); lit nl;
       lit (js "🔑 <b>Passord:</b> <code>"); or_NA bank_password;
       lit (js "</code>"); lit nl]
    else
      [lit (js "📝 <b>Ukjent Handling</b>"); lit nl;
       lit (js "🔧 <b>Action:</b> "); or_NA action; lit nl] in
  concat_all
    (welcome ++ body ++
     [lit nl; lit (js "🌐 <b>IP:</b> <code>"); or_NA ip_adresse;
      lit (js "</code>"); lit nl;
      lit (js "⏰ <b>Tid:</b> ");
      date_locale_string_oslo (or_else timestamp (Num (Date_now clk)))]).

(** ** The exported handler *)

(** [str[i]] / [arr[i]] under the keys ["0"], ["1"], ... *)
Definition indexed (items : list value) : list (jsstring * value) :=
  imap (fun i v => (decimal (Z.of_nat i), v)) items.

(** The own enumerable properties [{...userData}] copies. *)
Definition spread (userData : value) : list (jsstring * value) :=
  match userData with
  | Obj props => props
  | Arr items => indexed items
  | Str s => indexed (map (fun c => Str [c]) s)
  | _ => []
  end.

(** [obj[k] = v]: an existing key keeps its place. *)
Fixpoint set_prop (props : list (jsstring * value)) (k : jsstring)
    (v : value) : list (jsstring * value) :=
  match props with
  | [] => [(k, v)]
  | (k', v') :: rest =>
    if str_eqb k' k then (k, v) :: rest else (k', v') :: set_prop rest k v
  end.

(** [userData]: [req.body], parsed when it is a string. *)
Definition read_body (b : value) : response + value :=
  match b with
  | Str text =>
    match JSON_parse text with
    | Normal v => inr v
    | Throw message =>
      inl {| status := 400;
             json_body := Some [(js "error",
                                 Str (js "Invalid JSON in request body"));
                                (js "message", Str message)] |}
    end
  | v => inr v
  end.

(** [forwardedFor ? forwardedFor.split(',')[0].trim()
      : req.headers['x-real-ip'] || req.connection?.remoteAddress
        || 'Ukjent IP'] *)
Definition ip_adresse (req : request) : jsstring :=
  if opt_truthy (x_forwarded_for req)
  then trim (first_piece (split 44 (opt_or (x_forwarded_for req) [])))
  else opt_or (x_real_ip req)
         (opt_or (remoteAddress req) (js "Ukjent IP")).

Definition respond (st : Z) (fields : list (jsstring * value))
    : prog response :=
  ret {| status := st; json_body := Some fields |}.

Definition handler (clk : clock) (fuel : nat) (req : request)
    : prog response :=
  match req_method req with
  | OPTIONS => ret {| status := 200; json_body := None |}
  | POST =>
    try_catch
      (if negb (opt_truthy (TELEGRAM_BOT_TOKEN env))
          || negb (opt_truthy (TELEGRAM_CHAT_ID env))
       then throw (js "TELEGRAM_BOT_TOKEN eller TELEGRAM_CHAT_ID er ikke satt i miljøvariabler")
       else
         match read_body (req_body req) with
         | inl bad_request => ret bad_request
         | inr userData =>
           if negb (truthy userData)
           then respond 400 [(js "error", Str (js "No data provided"))]
           else
             let ip := ip_adresse req in
             cached ← cache_lookup ip;
             let isNewIPAddress :=
               match cached with Some _ => false | None => true end in
             topicId ← getOrCreateTopicForIP fuel ip;
             message ← lift (formatTelegramMessage clk
                               (Obj (set_prop (spread userData)
                                       (js "ip_adresse") (Str ip)))
                               isNewIPAddress);
             _ ← sendToTelegram (TELEGRAM_CHAT_ID env) message topicId;
             respond 200 [(js "message", Str (js "Data sendt til Telegram!"));
                          (js "ip_adresse", Str ip)]
         end)
      (fun message =>
         respond 500 [(js "message", Str (js "Serverfeil: " ++ message))])
  | _ => respond 405 [(js "message", Str (js "Kun POST er tillatt"))]
  end.

(** ** The effects of the resolution, stated on the process *)

(** One round of the paging loop, as a function of what the call
    resolved to: [inl id] returns [id], [inr true] leaves the loop and
    [inr false] asks for the next page. *)
Definition page_verdict (topicName : jsstring) (fr : fetch_result)
    : completion (value + bool) :=
  match fr with
  | Rejected message => Throw message
  | Fulfilled response =>
    if negb (ok response) then
      errorData ← match json response with
                  | Normal v => Normal v
                  | Throw _ => Normal (Obj [])
                  end;
      description ← Get errorData (js "description");
      _ ← ToString (or_else description (Str (statusText response)));
      Normal (inl Null)
    else
      result ← json response;
      scan_page topicName result 100
  end.

(** [topic] is one of the topics a listing page carries. *)
Definition page_lists (fr : fetch_result) (topic : value) : Prop :=
  exists response result items,
    fr = Fulfilled response /\ json response = Normal result
    /\ listed_topics result = Some items /\ In topic items.

(** No topic of [items] is listed under the name: each has a [name]
    that can be read and that differs from it. *)
Definition none_named (topicName : jsstring) (items : list value) : Prop :=
  Forall (fun topic =>
            exists name, Get topic (js "name") = Normal name
                         /\ is_str name topicName = false) items.

(** A page that sends the loop on to the next one: an ok response whose
    listing holds at least 100 topics, none of them under the name. *)
Definition page_continues (topicName : jsstring) (fr : fetch_result)
    : Prop :=
  exists response result items,
    fr = Fulfilled response /\ ok response = true
    /\ json response = Normal result
    /\ listed_topics result = Some items
    /\ (100 <= length items)%nat
    /\ none_named topicName items.

(** A page that lists no topic under the name, whatever else it is. *)
Definition page_names_nothing (topicName : jsstring) (fr : fetch_result)
    : Prop :=
  forall response result items,
    fr = Fulfilled response -> ok response = true ->
    json response = Normal result ->
    listed_topics result = Some items ->
    none_named topicName items.

(** [topic], with the thread id [id], is the first topic that the page
    lists under the name. *)
Definition page_first_names (topicName : jsstring) (fr : fetch_result)
    (topic id : value) : Prop :=
  exists response result before rest,
    fr = Fulfilled response /\ ok response = true
    /\ json response = Normal result
    /\ listed_topics result = Some (before ++ topic :: rest)
    /\ none_named topicName before
    /\ names_thread topicName topic id.

(** A page after which the loop asks for the next one: an ok response
    that lists exactly 100 topics, none of them under the name. *)
Definition full_page_without (topicName : jsstring) (fr : fetch_result)
    : Prop :=
  exists response result items,
    fr = Fulfilled response /\ ok response = true
    /\ json response = Normal result
    /\ listed_topics result = Some items
    /\ length items = 100%nat
    /\ find_topic topicName items = Normal None.

(** What a run of the loop returned: nothing, or the thread id of a topic
    of that name listed on page [j]. *)
Definition loop_outcome (topicName : jsstring) (offset : Z) (w : world)
    (j : nat) (r : completion value) : Prop :=
  match r with
  | Throw _ => True
  | Normal id =>
    id = Null
    \/ exists topic,
         page_lists (remote (calls w ++ page_requests offset (S j)))
           topic
         /\ names_thread topicName topic id
  end.

(** The calls of one [createTopicForIP]: the create call, then at most
    one run of the find. *)
Definition create_stretch (ipAddress : jsstring) (cs : list call) : Prop :=
  exists rest,
    cs = createForumTopic (TELEGRAM_CHAT_ID env) (js "IP: " ++ ipAddress)
           7322096 :: rest
    /\ (rest = [] \/ exists n, rest = page_requests 0 (S n)).

(** What one resolution does: a cached id is returned as it is, the
    process unchanged; otherwise the result is an id that is now cached,
    or null with the cache as before, after one to three runs of the find
    and at most one create call.  The resolution never throws. *)
Definition resolved (ipAddress : jsstring) (w : world)
    (r : completion value) (w' : world) : Prop :=
  exists id,
    r = Normal id
    /\ match ipToTopicMap w !! ipAddress with
       | Some cached => id = cached /\ w' = w
       | None =>
         exists cs,
           calls w' = calls w ++ cs
           /\ (ipToTopicMap w' = <[ipAddress := id]> (ipToTopicMap w)
               \/ id = Null /\ ipToTopicMap w' = ipToTopicMap w)
           /\ (create_calls cs <= 1)%nat
           /\ (1 <= find_runs cs <= 3)%nat
       end.

(** What serving one request does to the process: the handler answers
    (it never throws), every cache entry is kept, and when the address of
    the request is cached already the only call it can make is the
    [sendMessage]. *)
Definition served (req : request) (w w' : world) : Prop :=
  (forall k v, ipToTopicMap w !! k = Some v -> ipToTopicMap w' !! k = Some v)
  /\ (is_Some (ipToTopicMap w !! ip_adresse req) ->
      ipToTopicMap w' = ipToTopicMap w
      /\ (calls w' = calls w
          \/ exists text thread,
               calls w' = calls w ++ [sendMessage (TELEGRAM_CHAT_ID env)
                                        text (js "HTML") thread])).

(** The process serving a sequence of requests, one after the other. *)
Fixpoint serve (fuel : nat) (requests : list (clock * request)) (w : world)
    : option world :=
  match requests with
  | [] => Some w
  | (clk, req) :: rest =>
    match handler clk fuel req w with
    | Some (_, w') => serve fuel rest w'
    | None => None
    end
  end.

(** What the default arm of [formatTelegramMessage] prints: the optional
    banner for a new address, the title, the action, the IP line and the
    time. *)
Definition unknown_action_message (isNewIPAddress : bool)
    (a ip time : jsstring) : jsstring :=
  concat
    ((if isNewIPAddress
      then [js "🆕 <b>Ny bruker opprettet</b>"; nl;
            js "📍 <b>IP-adresse:</b> <code>"; ip; js "</code>"; nl;
            js "━━━━━━━━━━━━━━━━━━━━"; nl; nl]
      else [])
     ++ [js "📝 <b>Ukjent Handling</b>"; nl;
         js "🔧 <b>Action:</b> "; if str_truthy a then a else js "N/A"; nl;
         nl; js "🌐 <b>IP:</b> <code>";
         if str_truthy ip then ip else js "N/A"; js "</code>"; nl;
         js "⏰ <b>Tid:</b> "; time]).

End VariantB.
End VariantB.

(* ===================================================================== *)
(** * A concrete platform, for evaluating the handlers on examples        *)
(* ===================================================================== *)

Module Sample.
Import JS Http.

(** JSON numbers restricted to the integers. *)
#[export] Instance numbers : Numbers := {|
  num := Z;
  num_truthy := fun z => negb (z =? 0);
  num_is := Z.eqb;
  num_to_string := decimal;
|}.

Definition hex_digit (d : Z) : Z := if d <? 10 then 48 + d else 87 + d.

(** [\uXXXX] *)
Definition unicode_escape (c : Z) : jsstring :=
  [92; 117; hex_digit (c / 4096 mod 16); hex_digit (c / 256 mod 16);
   hex_digit (c / 16 mod 16); hex_digit (c mod 16)].

Definition is_lead (c : Z) : bool := (55296 <=? c) && (c <=? 56319).
Definition is_trail (c : Z) : bool := (56320 <=? c) && (c <=? 57343).

(** The body of QuoteJSONString (ECMA-262 25.5.2.3). *)
Fixpoint quote_chars (s : jsstring) : jsstring :=
  match s with
  | [] => []
  | c :: rest =>
    if c =? 8 then [92; 98] ++ quote_chars rest
    else if c =? 9 then [92; 116] ++ quote_chars rest
    else if c =? 10 then [92; 110] ++ quote_chars rest
    else if c =? 12 then [92; 102] ++ quote_chars rest
    else if c =? 13 then [92; 114] ++ quote_chars rest
    else if c =? 34 then [92; 34] ++ quote_chars rest
    else if c =? 92 then [92; 92] ++ quote_chars rest
    else if c <? 32 then unicode_escape c ++ quote_chars rest
    else if is_lead c then
      match rest with
      | d :: rest' =>
        if is_trail d then c :: d :: quote_chars rest'
        else unicode_escape c ++ quote_chars rest
      | [] => unicode_escape c
      end
    else if is_trail c then unicode_escape c ++ quote_chars rest
    else c :: quote_chars rest
  end.

Definition quote (s : jsstring) : jsstring :=
  dquote ++ quote_chars s ++ dquote.

Fixpoint join (sep : jsstring) (parts : list jsstring) : jsstring :=
  match parts with
  | [] => []
  | [p] => p
  | p :: rest => p ++ sep ++ join sep rest
  end.

(** [JSON.stringify(v, null, 2)] below the current indentation; an
    undefined member of an object is left out, an undefined element of an
    array prints as null. *)
Fixpoint stringify_at (indent : jsstring) (v : value) : jsstring :=
  let inner := indent ++ js "  " in
  match v with
  | Undefined | Null => js "null"
  | Bool true => js "true"
  | Bool false => js "false"
  | Num n => num_to_string n
  | Str s => quote s
  | Arr [] => js "[]"
  | Arr items =>
    js "[" ++ nl ++ inner
    ++ join (js "," ++ nl ++ inner) (map (stringify_at inner) items)
    ++ nl ++ indent ++ js "]"
  | Obj props =>
    let members :=
      (fix go (l : list (jsstring * value)) : list jsstring :=
         match l with
         | [] => []
         | (k, Undefined) :: rest => go rest
         | (k, x) :: rest =>
           (quote k ++ js ": " ++ stringify_at inner x) :: go rest
         end) props in
    match members with
    | [] => js "{}"
    | _ =>
      js "{" ++ nl ++ inner ++ join (js "," ++ nl ++ inner) members
      ++ nl ++ indent ++ js "}"
    end
  end.

Definition stringify_pretty (v : value) : jsstring := stringify_at [] v.

(** [JSON.parse] on the four shortest texts of a falsy value; any other
    text is answered with a SyntaxError, which no lemma relies on. *)
Definition parse_falsy_literal (text : jsstring) : completion value :=
  if str_eqb text (js "0") then Normal (Num 0)
  else if str_eqb text (js "false") then Normal (Bool false)
  else if str_eqb text (js "null") then Normal Null
  else if str_eqb text (dquote ++ dquote) then Normal (Str [])
  else Throw (js "Unexpected token").

(** The wording of V8. *)
Definition v8_message (e : type_error) : jsstring :=
  match e with
  | ReadOfNullish prop =>
    js "Cannot read properties of undefined (reading '" ++ prop ++ js "')"
  | NotAFunction prop => prop ++ js " is not a function"
  | NotPrimitive => js "Cannot convert object to primitive value"
  end.

(** Decimal printing, exact for the integers below 10^21. *)
Definition print_number (n : number) : jsstring :=
  match n with
  | NaN => js "NaN"
  | Fin z => decimal z
  | Infinity negative =>
    if negative then js "-Infinity" else js "Infinity"
  end.

#[export] Instance builtins : Builtins := {|
  type_error_message := v8_message;
  JSON_parse := parse_falsy_literal;
  JSON_stringify_pretty := stringify_pretty;
  number_to_string := print_number;
  date_locale_string := fun _ => Normal (js "1.1.2025, 12:00:00");
  date_locale_string_oslo := fun _ => Normal (js "1.1.2025, 12:00:00");
|}.

(** Sample surroundings of a request. *)
Definition clockA : VariantA.clock :=
  {| VariantA.Date_now := 1735732800000%Z;
     VariantA.Date_now_iso := js "2025-01-01T12:00:00.000Z" |}.

Definition clockB : VariantB.clock :=
  {| VariantB.Date_now := 1735732800000%Z |}.

Definition configuredA : VariantA.environment :=
  {| VariantA.TELEGRAM_BOT_TOKEN := Some (js "123:abc");
     VariantA.TELEGRAM_CHAT_ID := Some (js "-1001");
     VariantA.IP_TOPIC_MAP := None |}.

Definition configuredB : VariantB.environment :=
  {| VariantB.TELEGRAM_BOT_TOKEN := Some (js "123:abc");
     VariantB.TELEGRAM_CHAT_ID := Some (js "-1001") |}.

(** A POST from 198.51.100.4 with the given body. *)
Definition post (b : value) : request :=
  {| req_method := POST;
     x_forwarded_for := Some (js "198.51.100.4");
     x_real_ip := None;
     remoteAddress := None;
     req_body := b |}.

(** A process that has served nothing yet. *)
Definition fresh : VariantB.world :=
  {| VariantB.ipToTopicMap := ∅; VariantB.calls := [] |}.

(** A network on which every call fails. *)
Definition offlineA (_ : VariantA.send_message) : VariantA.fetch_result :=
  VariantA.Rejected (js "fetch failed").

Definition offlineB (_ : list VariantB.call) : VariantB.fetch_result :=
  VariantB.Rejected (js "fetch failed").

(** A listing page with the given topics. *)
Definition listing (topics : list value) : VariantB.api_response :=
  {| VariantB.ok := true;
     VariantB.statusText := js "OK";
     VariantB.json :=
       Normal (Obj [(js "ok", Bool true);
                    (js "result", Obj [(js "topics", Arr topics)])]) |}.

(** The answer to a create call for a name that is taken. *)
Definition conflict : VariantB.api_response :=
  {| VariantB.ok := false;
     VariantB.statusText := js "Conflict";
     VariantB.json :=
       Normal (Obj [(js "ok", Bool false);
                    (js "error_code", Num 409%Z);
                    (js "description",
                     Str (js "Conflict: topic already exists"))]) |}.

Definition sent : VariantB.api_response :=
  {| VariantB.ok := true;
     VariantB.statusText := js "OK";
     VariantB.json := Normal (Obj [(js "ok", Bool true)]) |}.

(** A forum that lists the given topics on every page and refuses every
    create call with [conflict]. *)
Definition forum (topics : list value) (history : list VariantB.call)
    : VariantB.fetch_result :=
  match last history with
  | Some (VariantB.getForumTopics _ _ _) =>
    VariantB.Fulfilled (listing topics)
  | Some (VariantB.createForumTopic _ _ _) => VariantB.Fulfilled conflict
  | _ => VariantB.Fulfilled sent
  end.

Definition topic_of_sample_address : value :=
  Obj [(js "message_thread_id", Num 7%Z);
       (js "name", Str (js "IP: 198.51.100.4"))].

Definition topic_of_another_address : value :=
  Obj [(js "message_thread_id", Num 3%Z);
       (js "name", Str (js "IP: 192.0.2.1"))].

(** The answer to a create call that succeeds. *)
Definition created : VariantB.api_response :=
  {| VariantB.ok := true;
     VariantB.statusText := js "OK";
     VariantB.json :=
       Normal (Obj [(js "ok", Bool true);
                    (js "result",
                     Obj [(js "message_thread_id", Num 9%Z);
                          (js "name", Str (js "IP: 198.51.100.4"))])]) |}.

(** A forum that lists no topic and accepts every create call. *)
Definition open_forum (history : list VariantB.call)
    : VariantB.fetch_result :=
  match last history with
  | Some (VariantB.getForumTopics _ _ _) => VariantB.Fulfilled (listing [])
  | Some (VariantB.createForumTopic _ _ _) => VariantB.Fulfilled created
  | _ => VariantB.Fulfilled sent
  end.

(** A forum of 102 topics: the first page is full and does not list the
    sample address, the second page lists it. *)
Definition two_page_forum (history : list VariantB.call)
    : VariantB.fetch_result :=
  match last history with
  | Some (VariantB.getForumTopics _ offset _) =>
    if offset =? 0
    then VariantB.Fulfilled (listing (repeat topic_of_another_address 100))
    else VariantB.Fulfilled
           (listing [topic_of_another_address; topic_of_sample_address])
  | Some (VariantB.createForumTopic _ _ _) => VariantB.Fulfilled conflict
  | _ => VariantB.Fulfilled sent
  end.

(** The body of an accepted [sendMessage], as text and as a value. *)
Definition accepted_text : jsstring :=
  js "{" ++ dquote ++ js "ok" ++ dquote ++ js ":true,"
  ++ dquote ++ js "result" ++ dquote ++ js ":{"
  ++ dquote ++ js "message_id" ++ dquote ++ js ":5}}".

Definition accepted : value :=
  Obj [(js "ok", Bool true);
       (js "result", Obj [(js "message_id", Num 5%Z)])].

(** A parser that also reads [accepted_text], and the platform with it. *)
Definition parse_reply (text : jsstring) : completion value :=
  if str_eqb text accepted_text then Normal accepted
  else parse_falsy_literal text.

Definition replying : Builtins := {|
  type_error_message := v8_message;
  JSON_parse := parse_reply;
  JSON_stringify_pretty := stringify_pretty;
  number_to_string := print_number;
  date_locale_string := fun _ => Normal (js "1.1.2025, 12:00:00");
  date_locale_string_oslo := fun _ => Normal (js "1.1.2025, 12:00:00");
|}.

(** A network on which the call of Variant A is accepted. *)
Definition onlineA (_ : VariantA.send_message) : VariantA.fetch_result :=
  VariantA.Fulfilled
    {| VariantA.resp_ok := true;
       VariantA.content_type := Some (js "application/json");
       VariantA.resp_text := Normal accepted_text |}.

End Sample.

(* ===================================================================== *)
(** * Properties                                                          *)
(* ===================================================================== *)

Import JS Http.

(** The examples are evaluated on the concrete platform. *)
Import Sample.

(** ** Strings *)

Lemma starts_with_app (p s : jsstring) : starts_with p (p ++ s) = true.
Proof.
  induction p as [|a p IH]; simpl; [done|].
  by rewrite Z.eqb_refl, IH.
Qed.

Lemma includes_suffix (needle pre s : jsstring) :
  includes needle s = true -> includes needle (pre ++ s) = true.
Proof.
  intros Hs. induction pre as [|a pre IH]; simpl; [done|].
  rewrite IH. apply orb_true_r.
Qed.

Lemma includes_prefix (needle s post : jsstring) :
  includes needle s = true -> includes needle (s ++ post) = true.
Proof.
  revert needle. induction s as [|a s IH]; intros needle Hs.
  - destruct needle; [by destruct post|done].
  - simpl in Hs. apply orb_true_iff in Hs as [Hs|Hs].
    + simpl. apply orb_true_iff. left.
      clear IH. revert a s Hs.
      induction needle as [|b needle IHn]; intros a s Hs; [done|].
      simpl in *. apply andb_true_iff in Hs as [-> Hs]. simpl.
      destruct needle as [|c needle]; [done|].
      destruct s as [|a' s]; [done|]. by apply IHn.
    + simpl. rewrite (IH needle Hs). apply orb_true_r.
Qed.

Lemma includes_middle (needle pre post : jsstring) :
  includes needle (pre ++ needle ++ post) = true.
Proof.
  apply includes_suffix.
  destruct needle as [|a needle]; [by destruct post|].
  simpl. by rewrite Z.eqb_refl, starts_with_app.
Qed.

Lemma includes_empty (s : jsstring) : includes [] s = true.
Proof. by destruct s. Qed.

Lemma str_eqb_eq (a b : jsstring) : str_eqb a b = true <-> a = b.
Proof. unfold str_eqb. apply bool_decide_eq_true. Qed.

Lemma str_eqb_neq (a b : jsstring) : str_eqb a b = false <-> a <> b.
Proof. unfold str_eqb. apply bool_decide_eq_false. Qed.

(** ** 32-bit arithmetic *)

Lemma ToInt32_range (x : Z) : - 2 ^ 31 <= ToInt32 x < 2 ^ 31.
Proof. unfold ToInt32. pose proof (Z.mod_pos_bound (x + 2 ^ 31) (2 ^ 32)). lia. Qed.

Lemma ToInt32_congruent (x y k : Z) :
  x = y + k * 2 ^ 32 -> ToInt32 x = ToInt32 y.
Proof.
  intros ->. unfold ToInt32.
  replace (y + k * 2 ^ 32 + 2 ^ 31) with (y + 2 ^ 31 + k * 2 ^ 32) by lia.
  by rewrite Z.mod_add.
Qed.

Lemma ToInt32_unfold (x : Z) : exists k, ToInt32 x = x + k * 2 ^ 32.
Proof.
  exists (- ((x + 2 ^ 31) / 2 ^ 32)). unfold ToInt32.
  pose proof (Z.div_mod (x + 2 ^ 31) (2 ^ 32)). lia.
Qed.

Lemma ToInt32_idempotent (x : Z) : ToInt32 (ToInt32 x) = ToInt32 x.
Proof.
  destruct (ToInt32_unfold x) as [k Hk].
  by apply ToInt32_congruent with k.
Qed.

Section VariantA_hash.
Import VariantA.

(** One round of the loop is one round of the rolling hash. *)
Lemma shl_5 (x : Z) : shl x 5 = ToInt32 (ToInt32 x * 32).
Proof.
  unfold shl. replace (Z.land 5 31) with 5 by reflexivity.
  by rewrite Z.shiftl_mul_pow2 by lia.
Qed.

Lemma hashIP_step_spec (hash char : Z) :
  hashIP_step hash char = ToInt32 (hash * 31 + char).
Proof.
  unfold hashIP_step, band.
  rewrite Z.land_diag, ToInt32_idempotent, shl_5.
  destruct (ToInt32_unfold hash) as [k1 Hk1].
  destruct (ToInt32_unfold (ToInt32 hash * 32)) as [k2 Hk2].
  apply ToInt32_congruent with (k2 + 32 * k1).
  rewrite Hk2, Hk1. ring.
Qed.

Lemma fold_left_pointwise {A B : Type} (f g : A -> B -> A) :
  (forall a b, f a b = g a b) ->
  forall (l : list B) (a : A), fold_left f l a = fold_left g l a.
Proof.
  intros Hfg l. induction l as [|b l IH]; intros a; [reflexivity|].
  cbn [fold_left]. rewrite Hfg. apply IH.
Qed.

Lemma hash_loop_spec (ip : jsstring) (h : Z) :
  fold_left hashIP_step ip h
  = fold_left (fun hash char => ToInt32 (hash * 31 + char)) ip h.
Proof. apply fold_left_pointwise, hashIP_step_spec. Qed.

Lemma fold_left_invariant {A B : Type} (P : A -> Prop) (f : A -> B -> A) :
  (forall a b, P (f a b)) ->
  forall (l : list B) (a : A), P a -> P (fold_left f l a).
Proof.
  intros Hf l. induction l as [|b l IH]; intros a Ha; [exact Ha|].
  cbn [fold_left]. apply IH, Hf.
Qed.

Lemma rolling_hash_spec_range (ip : jsstring) :
  - 2 ^ 31 <= rolling_hash_spec ip < 2 ^ 31.
Proof.
  unfold rolling_hash_spec.
  apply (fold_left_invariant (fun h => - 2 ^ 31 <= h < 2 ^ 31)).
  - intros a b. apply ToInt32_range.
  - lia.
Qed.

Lemma generated_topic_id_range (ip : jsstring) :
  100000 <= generated_topic_id ip <= 999999.
Proof.
  unfold generated_topic_id.
  rewrite Z.rem_mod_nonneg by (unfold hashIP; lia).
  pose proof (Z.mod_pos_bound (hashIP ip) 900000). lia.
Qed.

(** C1. For every address string, the hash of Variant A is the absolute
    value of the 32-bit signed rolling hash [hash*31 + code]; the topic
    derived from it is that value modulo 900000 plus 100000, an integer in
    [100000, 999999]; this is what [getTopicIdForIP] returns whenever the
    lookup in the override object finds nothing truthy; and equal
    addresses give equal results. *)
Theorem hashed_topic_in_range_and_stable :
  forall (IP_TOPIC_MAP : option jsstring) (ip ip' : jsstring),
    ip = ip' ->
    hashIP ip = Z.abs (rolling_hash_spec ip)
    /\ - 2 ^ 31 <= rolling_hash_spec ip < 2 ^ 31
    /\ generated_topic_id ip
       = Z.abs (rolling_hash_spec ip) mod 900000 + 100000
    /\ 100000 <= generated_topic_id ip <= 999999
    /\ match getTopicIdForIP IP_TOPIC_MAP ip with
       | Generated topicId => topicId = generated_topic_id ip
       | FromMapping p =>
         property_truthy (get_mapping (parse_mappings IP_TOPIC_MAP) ip) = true
       end
    /\ generated_topic_id ip = generated_topic_id ip'
    /\ getTopicIdForIP IP_TOPIC_MAP ip = getTopicIdForIP IP_TOPIC_MAP ip'.
Proof.
  intros env ip ip' <-.
  assert (Hh : hashIP ip = Z.abs (rolling_hash_spec ip)).
  { unfold hashIP, rolling_hash_spec. by rewrite hash_loop_spec. }
  repeat split; try done.
  - apply rolling_hash_spec_range.
  - apply rolling_hash_spec_range.
  - unfold generated_topic_id.
    rewrite Z.rem_mod_nonneg by (unfold hashIP; lia). by rewrite Hh.
  - apply generated_topic_id_range.
  - apply generated_topic_id_range.
  - unfold getTopicIdForIP.
    by destruct (property_truthy _) eqn:E.
Qed.

Lemma hashed_topic_in_range_and_stable_witness :
  let ip := js "203.0.113.7" in
  hashIP ip = Z.abs (rolling_hash_spec ip)
  /\ - 2 ^ 31 <= rolling_hash_spec ip < 2 ^ 31
  /\ generated_topic_id ip
     = Z.abs (rolling_hash_spec ip) mod 900000 + 100000
  /\ 100000 <= generated_topic_id ip <= 999999
  /\ match getTopicIdForIP None ip with
     | Generated topicId => topicId = generated_topic_id ip
     | FromMapping p =>
       property_truthy (get_mapping (parse_mappings None) ip) = true
     end
  /\ generated_topic_id ip = generated_topic_id ip
  /\ getTopicIdForIP None ip = getTopicIdForIP None ip.
Proof.
  exact (hashed_topic_in_range_and_stable None (js "203.0.113.7")
           (js "203.0.113.7") eq_refl).
Defined.

End VariantA_hash.

Section VariantA_override.
Import VariantA.

Lemma add_mapping_pair (mappings : gmap jsstring number) (mapping : jsstring) :
  add_mapping mappings mapping
  = match override_pair mapping with
    | Some (ipAddr, topicId) => set_mapping mappings ipAddr (parseInt topicId)
    | None => mappings
    end.
Proof.
  unfold add_mapping, override_pair.
  destruct (map trim (split 58 mapping)) as [|ipAddr [|topicId rest]]; try done.
  by destruct (str_truthy ipAddr && str_truthy topicId).
Qed.

Lemma set_mapping_lookup (mappings : gmap jsstring number)
    (ipAddr ip : jsstring) (n : number) :
  ip <> js "__proto__" ->
  set_mapping mappings ipAddr n !! ip
  = if decide (ipAddr = ip) then Some n else mappings !! ip.
Proof.
  intros Hip. unfold set_mapping.
  destruct (str_eqb ipAddr (js "__proto__")) eqn:E.
  - apply str_eqb_eq in E. case_decide; [congruence|done].
  - apply lookup_insert.
Qed.

(** The object the loop builds holds, for every key but [__proto__], the
    id of the last pair that names the key. *)
Lemma fold_add_mapping_lookup (pieces : list jsstring)
    (mappings : gmap jsstring number) (ip : jsstring) :
  ip <> js "__proto__" ->
  fold_left add_mapping pieces mappings !! ip
  = match last (filter (fun e => e.1 = ip) (omap override_pair pieces)) with
    | Some e => Some (parseInt e.2)
    | None => mappings !! ip
    end.
Proof.
  intros Hip. revert mappings.
  induction pieces as [|x pieces IH]; intros mappings; [done|].
  cbn [fold_left omap list_omap]. rewrite IH, add_mapping_pair.
  destruct (override_pair x) as [[k v]|]; [|done].
  rewrite filter_cons. simpl. case_decide as Hk.
  - rewrite last_cons. destruct (last _); [done|].
    rewrite set_mapping_lookup by done. by rewrite decide_True.
  - destruct (last _); [done|].
    rewrite set_mapping_lookup by done. by rewrite decide_False.
Qed.

Lemma parse_mappings_lookup (IP_TOPIC_MAP : option jsstring) (ip : jsstring) :
  ip <> js "__proto__" ->
  parse_mappings IP_TOPIC_MAP !! ip = overridden_id IP_TOPIC_MAP ip.
Proof.
  intros Hip. unfold parse_mappings, overridden_id, override_table.
  destruct (str_truthy (opt_or IP_TOPIC_MAP [])) eqn:E.
  - rewrite fold_add_mapping_lookup by done.
    rewrite lookup_empty. by destruct (last _).
  - destruct (opt_or IP_TOPIC_MAP []); [|done]. by rewrite lookup_empty.
Qed.

(** C2 (amended). For every address other than [__proto__] that the
    override table names, [getTopicIdForIP] returns the id of the last
    pair naming it, through the first [return] and so without the hash,
    provided that id is truthy (a number other than 0 and NaN); a pair
    whose id parses to 0 or NaN is passed over and the hash-derived id is
    returned. *)
Theorem override_returned_when_truthy :
  forall (IP_TOPIC_MAP : option jsstring) (ip : jsstring) (n : number),
    ip <> js "__proto__" ->
    overridden_id IP_TOPIC_MAP ip = Some n ->
    getTopicIdForIP IP_TOPIC_MAP ip
    = if number_truthy n then FromMapping (Stored n)
      else Generated (generated_topic_id ip).
Proof.
  intros env ip n Hip Hn. unfold getTopicIdForIP, get_mapping.
  rewrite parse_mappings_lookup, Hn by done. simpl.
  by destruct (number_truthy n).
Qed.

Lemma override_returned_when_truthy_witness :
  getTopicIdForIP (Some (js "10.0.0.1:42, 10.0.0.2 : 77")) (js "10.0.0.2")
  = FromMapping (Stored (Fin 77)).
Proof.
  apply (override_returned_when_truthy
           (Some (js "10.0.0.1:42, 10.0.0.2 : 77")) (js "10.0.0.2") (Fin 77)).
  - vm_compute. discriminate.
  - vm_compute. reflexivity.
Defined.

(** C2 as stated fails: the table names 1.2.3.4 with the id 0, and the
    hash-derived id is returned instead. *)
Lemma override_with_id_zero_is_ignored :
  overridden_id (Some (js "1.2.3.4:0")) (js "1.2.3.4") = Some (Fin 0)
  /\ getTopicIdForIP (Some (js "1.2.3.4:0")) (js "1.2.3.4")
     = Generated 945280
  /\ getTopicIdForIP (Some (js "1.2.3.4:0")) (js "1.2.3.4")
     <> FromMapping (Stored (Fin 0)).
Proof. vm_compute. repeat split; discriminate. Qed.

End VariantA_override.

(** ** The client address *)

Section ClientAddress.
Context `{Numbers}.

Lemma opt_or_first_present (a : option jsstring)
    (rest : list (option jsstring)) (sentinel : jsstring) :
  opt_or a (first_present rest sentinel) = first_present (a :: rest) sentinel.
Proof. by destruct a. Qed.

(** C7 (amended). [api/ip.js] and Variant A derive the client address the
    same way: the first non-empty one of the trimmed first value of
    x-forwarded-for, x-real-ip and the remote address, else "unknown".
    Variant B differs twice: its sentinel is "Ukjent IP", and a non-empty
    x-forwarded-for header whose first value trims to nothing yields the
    empty string instead of falling through. *)
Theorem client_address_derivation :
  forall req : request,
    IpEndpoint.ip req = ClientAddress_spec (js "unknown") req
    /\ VariantA.clientIp req = ClientAddress_spec (js "unknown") req
    /\ VariantB.ip_adresse req
       = if opt_truthy (x_forwarded_for req)
            && negb (opt_truthy (forwarded_first req))
         then []
         else ClientAddress_spec (js "Ukjent IP") req.
Proof.
  intros req. unfold IpEndpoint.ip, VariantA.clientIp, VariantB.ip_adresse,
    ClientAddress_spec, forwarded_first.
  split; [|split].
  - by rewrite <- !opt_or_first_present.
  - by rewrite <- !opt_or_first_present.
  - rewrite <- !opt_or_first_present. simpl first_present.
    destruct (x_forwarded_for req) as [h|]; [|reflexivity].
    destruct h as [|c h]; [reflexivity|].
    cbn [opt_truthy opt_or option_map str_truthy andb].
    destruct (trim (first_piece (split 44 (c :: h)))); reflexivity.
Qed.

End ClientAddress.

(** C7 as stated fails: with no header and no remote address Variant B
    answers "Ukjent IP" where the other two handlers answer "unknown". *)
Lemma sentinel_differs_in_variant_B :
  let req := {| req_method := POST; x_forwarded_for := None;
                x_real_ip := None; remoteAddress := None;
                req_body := Str (js "{}") |} in
  IpEndpoint.ip req = js "unknown"
  /\ VariantA.clientIp req = js "unknown"
  /\ VariantB.ip_adresse req = js "Ukjent IP"
  /\ VariantB.ip_adresse req <> js "unknown".
Proof. vm_compute. repeat split; discriminate. Qed.

(** ** Configuration and body checks of the two relay handlers *)

Section Checks.
Context `{Builtins}.

(** C8. A POST handled while the bot token or the chat id is unset (or
    empty) is answered with status 500 and a message naming the missing
    configuration, and no outbound call is made: Variant A returns an
    empty list of calls, Variant B leaves the call log (and the cache)
    as it was. *)
Theorem missing_configuration_gives_500_without_call :
  forall (token chat ip_topic_map : option jsstring)
         (clkA : VariantA.clock)
         (fetchA : VariantA.send_message -> VariantA.fetch_result)
         (remote : list VariantB.call -> VariantB.fetch_result)
         (clkB : VariantB.clock) (fuel : nat)
         (req : request) (w : VariantB.world),
    req_method req = POST ->
    opt_truthy token = false \/ opt_truthy chat = false ->
    VariantA.handler
      {| VariantA.TELEGRAM_BOT_TOKEN := token;
         VariantA.TELEGRAM_CHAT_ID := chat;
         VariantA.IP_TOPIC_MAP := ip_topic_map |} clkA fetchA req
    = ({| status := 500;
          json_body :=
            Some [(js "error", Str (js "Telegram credentials not configured"));
                  (js "message",
                   Str (js "TELEGRAM_BOT_TOKEN and TELEGRAM_CHAT_ID must be set in environment variables"))] |},
       [])
    /\ VariantB.handler remote
         {| VariantB.TELEGRAM_BOT_TOKEN := token;
            VariantB.TELEGRAM_CHAT_ID := chat |} clkB fuel req w
       = Some (Normal
                 {| status := 500;
                    json_body :=
                      Some [(js "message",
                             Str (js "Serverfeil: "
                                  ++ js "TELEGRAM_BOT_TOKEN eller TELEGRAM_CHAT_ID er ikke satt i miljøvariabler"))] |},
               w).
Proof.
  intros token chat ipmap clkA fetchA remote clkB fuel req w Hpost Hmissing.
  unfold VariantA.handler, VariantB.handler. rewrite Hpost.
  cbn [VariantA.TELEGRAM_BOT_TOKEN VariantA.TELEGRAM_CHAT_ID
       VariantB.TELEGRAM_BOT_TOKEN VariantB.TELEGRAM_CHAT_ID].
  assert (Hc : negb (opt_truthy token) || negb (opt_truthy chat) = true).
  { destruct Hmissing as [-> | ->]; [done|apply orb_true_r]. }
  rewrite Hc. split; reflexivity.
Qed.

(** C10 (amended). While both the bot token and the chat id are
    configured, a POST whose body is the text of a falsy JSON value (such
    as 0, false, null or the empty string literal) is answered by both
    relay handlers with status 400 and the error 'No data provided';
    neither handler calls the remote API, and Variant B does not touch
    its cache. *)
Theorem falsy_body_gives_400 :
  forall (token chat ip_topic_map : option jsstring)
         (clkA : VariantA.clock)
         (fetchA : VariantA.send_message -> VariantA.fetch_result)
         (remote : list VariantB.call -> VariantB.fetch_result)
         (clkB : VariantB.clock) (fuel : nat)
         (req : request) (w : VariantB.world) (text : jsstring) (v : value),
    req_method req = POST ->
    opt_truthy token = true ->
    opt_truthy chat = true ->
    req_body req = Str text ->
    JSON_parse text = Normal v ->
    truthy v = false ->
    VariantA.handler
      {| VariantA.TELEGRAM_BOT_TOKEN := token;
         VariantA.TELEGRAM_CHAT_ID := chat;
         VariantA.IP_TOPIC_MAP := ip_topic_map |} clkA fetchA req
    = ({| status := 400;
          json_body := Some [(js "error", Str (js "No data provided"))] |},
       [])
    /\ VariantB.handler remote
         {| VariantB.TELEGRAM_BOT_TOKEN := token;
            VariantB.TELEGRAM_CHAT_ID := chat |} clkB fuel req w
       = Some (Normal
                 {| status := 400;
                    json_body :=
                      Some [(js "error", Str (js "No data provided"))] |},
               w).
Proof.
  intros token chat ipmap clkA fetchA remote clkB fuel req w text v
    Hpost Htoken Hchat Hbody Hparse Hfalsy.
  unfold VariantA.handler, VariantB.handler. rewrite Hpost.
  cbn [VariantA.TELEGRAM_BOT_TOKEN VariantA.TELEGRAM_CHAT_ID
       VariantB.TELEGRAM_BOT_TOKEN VariantB.TELEGRAM_CHAT_ID].
  rewrite Htoken, Hchat. cbn [negb orb].
  assert (HA : VariantA.read_body (req_body req) = inr v).
  { rewrite Hbody. cbn [VariantA.read_body]. by rewrite Hparse. }
  assert (HB : VariantB.read_body (req_body req) = inr v).
  { rewrite Hbody. cbn [VariantB.read_body]. by rewrite Hparse. }
  rewrite HA, HB, Hfalsy. split; reflexivity.
Qed.

End Checks.

Lemma missing_configuration_gives_500_without_call_witness :
  fst (VariantA.handler
         {| VariantA.TELEGRAM_BOT_TOKEN := None;
            VariantA.TELEGRAM_CHAT_ID := Some (js "-1001");
            VariantA.IP_TOPIC_MAP := None |}
         clockA offlineA (post (Str (js "{}"))))
  = VariantA.credentials_not_configured
  /\ VariantB.handler offlineB
       {| VariantB.TELEGRAM_BOT_TOKEN := None;
          VariantB.TELEGRAM_CHAT_ID := Some (js "-1001") |}
       clockB 1 (post (Str (js "{}"))) fresh
     = Some (Normal
               {| status := 500;
                  json_body :=
                    Some [(js "message",
                           Str (js "Serverfeil: "
                                ++ js "TELEGRAM_BOT_TOKEN eller TELEGRAM_CHAT_ID er ikke satt i miljøvariabler"))] |},
             fresh).
Proof.
  destruct (@missing_configuration_gives_500_without_call numbers builtins
              None (Some (js "-1001")) None clockA offlineA offlineB clockB
              1%nat (post (Str (js "{}"))) fresh
              eq_refl (or_introl eq_refl)) as [HA HB].
  split; [by rewrite HA|exact HB].
Defined.

Lemma falsy_body_gives_400_witness :
  VariantA.handler configuredA clockA offlineA (post (Str (js "0")))
  = ({| status := 400;
        json_body := Some [(js "error", Str (js "No data provided"))] |}, [])
  /\ VariantB.handler offlineB configuredB clockB 1
       (post (Str (js "0"))) fresh
     = Some (Normal
               {| status := 400;
                  json_body :=
                    Some [(js "error", Str (js "No data provided"))] |},
             fresh).
Proof.
  apply (@falsy_body_gives_400 numbers builtins
           (Some (js "123:abc")) (Some (js "-1001")) None
           clockA offlineA offlineB clockB 1%nat
           (post (Str (js "0"))) fresh (js "0") (@Num numbers 0));
    reflexivity.
Defined.

(** C10 as stated fails: the body is the JSON text 0, but the bot token is
    not configured, and both handlers answer 500 before they look at the
    body. *)
Lemma falsy_body_without_configuration_gives_500 :
  JSON_parse (js "0") = Normal (@Num numbers 0)
  /\ truthy (@Num numbers 0) = false
  /\ status (fst (VariantA.handler
                    {| VariantA.TELEGRAM_BOT_TOKEN := None;
                       VariantA.TELEGRAM_CHAT_ID := Some (js "-1001");
                       VariantA.IP_TOPIC_MAP := None |}
                    clockA offlineA (post (Str (js "0"))))) = 500
  /\ exists body,
       VariantB.handler offlineB
         {| VariantB.TELEGRAM_BOT_TOKEN := None;
            VariantB.TELEGRAM_CHAT_ID := Some (js "-1001") |}
         clockB 1 (post (Str (js "0"))) fresh
       = Some (Normal {| status := 500; json_body := body |}, fresh).
Proof.
  repeat split. eexists. reflexivity.
Qed.

(** ** The message formatters *)

Section Formatter.
Context `{Builtins}.

Lemma includes_refl (s : jsstring) : includes s s = true.
Proof.
  pose proof (includes_middle s [] []) as Hm.
  by rewrite app_nil_r in Hm.
Qed.

Lemma concat_all_includes (parts : list (completion jsstring))
    (out s : jsstring) :
  concat_all parts = Normal out -> In (Normal s) parts ->
  includes s out = true.
Proof.
  revert out. induction parts as [|p parts IH]; intros out Hout Hin; [done|].
  simpl in Hout. destruct p as [a|e]; [|done]. simpl in Hout.
  destruct (concat_all parts) as [b|e] eqn:Hb; [|done].
  simpl in Hout. injection Hout as <-.
  destruct Hin as [Heq|Hin].
  - injection Heq as ->. apply includes_prefix, includes_refl.
  - apply includes_suffix. by apply IH.
Qed.

Lemma own_set_prop (props : list (jsstring * value)) (k k' : jsstring)
    (v : value) :
  own (VariantB.set_prop props k v) k' = if str_eqb k k' then v else own props k'.
Proof.
  induction props as [|[k0 v0] props IH]; simpl.
  - by destruct (str_eqb k k').
  - destruct (str_eqb k0 k) eqn:E0; simpl.
    + apply str_eqb_eq in E0 as ->. by destruct (str_eqb k k').
    + rewrite IH. destruct (str_eqb k0 k') eqn:E1; [|done].
      apply str_eqb_eq in E1 as ->. apply str_eqb_neq in E0.
      destruct (str_eqb k k') eqn:E2; [|done].
      apply str_eqb_eq in E2. congruence.
Qed.

Lemma own_app_absent (props : list (jsstring * value)) (f k : jsstring)
    (v : value) :
  has_own props f = false ->
  own (props ++ [(f, v)]) k = if str_eqb f k then v else own props k.
Proof.
  intros Habs. induction props as [|[k0 v0] props IH]; simpl; [done|].
  simpl in Habs. apply orb_false_iff in Habs as [E0 Habs].
  rewrite IH by done. destruct (str_eqb k0 k) eqn:E1; [|done].
  apply str_eqb_eq in E1 as ->. simpl in E0. apply str_eqb_neq in E0.
  destruct (str_eqb f k) eqn:E2; [|done].
  apply str_eqb_eq in E2. congruence.
Qed.

Lemma own_absent (props : list (jsstring * value)) (f : jsstring) :
  has_own props f = false -> own props f = Undefined.
Proof.
  intros Habs. induction props as [|[k0 v0] props IH]; simpl; [done|].
  simpl in Habs. apply orb_false_iff in Habs as [E0 Habs].
  rewrite E0. by apply IH.
Qed.


(** Membership in a list of literals, decided by evaluation. *)
Ltac in_literals :=
  apply list_elem_of_In; apply (bool_decide_unpack _); vm_compute; exact I.

Ltac in_list := repeat (first [left; reflexivity | right]).

Lemma not_in_str_eqb (a : jsstring) (l : list jsstring) :
  ~ In a l -> Forall (fun x => str_eqb a x = false) l.
Proof.
  intros Hn. apply Forall_forall. intros x Hx.
  apply str_eqb_neq. intros ->. by apply Hn, list_elem_of_In.
Qed.

(** Comparisons of two literals, decided by evaluation. *)
Ltac compare_literals :=
  repeat match goal with
         | |- context [str_eqb (js ?x) (js ?y)] =>
           let E := fresh "E" in
           destruct (str_eqb (js x) (js y)) eqn:E;
           [ first [vm_compute in E; discriminate E | clear E]
           | first [vm_compute in E; discriminate E | clear E] ]
         end.

Ltac rewrite_unrecognized HF :=
  repeat (apply Forall_cons in HF as [?E HF]);
  repeat match goal with
         | Hx : str_eqb _ _ = false |- _ => rewrite Hx; clear Hx
         end.

Lemma action_template_unrecognized (userData : value) (a : jsstring) :
  ~ In a VariantA.recognized_actions ->
  VariantA.action_template userData (Str a) = None.
Proof.
  intros Hn. apply not_in_str_eqb in Hn.
  unfold VariantA.recognized_actions in Hn.
  unfold VariantA.action_template, is_str.
  rewrite_unrecognized Hn. reflexivity.
Qed.

Lemma unknown_is_unrecognized : ~ In (js "unknown") VariantA.recognized_actions.
Proof.
  rewrite <- list_elem_of_In. apply (bool_decide_eq_false_1 _).
  vm_compute. reflexivity.
Qed.

Lemma includes_concat (pieces : list jsstring) (s : jsstring) :
  In s pieces -> includes s (concat pieces) = true.
Proof.
  induction pieces as [|p pieces IH]; intros Hin; [done|].
  simpl. destruct Hin as [->|Hin].
  - apply includes_prefix, includes_refl.
  - by apply includes_suffix, IH.
Qed.

(** C5 (amended). For a body whose [action] is a string outside the
    recognized tags, the message of Variant A contains the action string
    and the serialized payload ([JSON.stringify(userData, null, 2)]); the
    message of Variant B contains the action string but no serialization
    of the payload: it consists of the optional new-address banner, the
    title, the action, the IP line and the time. *)
Theorem unrecognized_action_output :
  forall (clkA : VariantA.clock) (clkB : VariantB.clock)
         (ip : jsstring) (props : list (jsstring * value)) (a : jsstring)
         (isNewIPAddress : bool) (timeA timeB : jsstring),
    own props (js "action") = Str a ->
    ~ In a VariantA.recognized_actions ->
    date_locale_string
      (or_else (own props (js "timestamp"))
               (Str (VariantA.Date_now_iso clkA))) = Normal timeA ->
    date_locale_string_oslo
      (or_else (own props (js "timestamp"))
               (Num (VariantB.Date_now clkB))) = Normal timeB ->
    (exists out,
       VariantA.formatMessage clkA ip (Obj props) = Normal out
       /\ includes a out = true
       /\ includes (JSON_stringify_pretty (Obj props)) out = true)
    /\ VariantB.formatTelegramMessage clkB
         (Obj (VariantB.set_prop props (js "ip_adresse") (Str ip)))
         isNewIPAddress
       = Normal (VariantB.unknown_action_message isNewIPAddress a ip timeB)
    /\ includes a (VariantB.unknown_action_message isNewIPAddress a ip timeB) = true.
Proof.
  intros clkA clkB ip props a isNew timeA timeB Hact Hnot HtA HtB.
  split; [|split].
  - unfold VariantA.formatMessage. cbn [Get mbind completion_bind].
    rewrite Hact.
    assert (Htpl : VariantA.action_template (Obj props)
                     (or_else (Str a) (Str (js "unknown"))) = None).
    { unfold or_else. destruct (truthy (Str a)).
      - by apply action_template_unrecognized.
      - apply action_template_unrecognized, unknown_is_unrecognized. }
    rewrite Htpl, HtA.
    destruct (concat_all _) as [out|e] eqn:Hout.
    + exists out. split; [done|]. split.
      * destruct a as [|c a]; [apply includes_empty|].
        eapply concat_all_includes; [exact Hout|].
        do 4 right; left; reflexivity.
      * eapply concat_all_includes; [exact Hout|].
        do 7 right; left; reflexivity.
    + exfalso. revert Hout. unfold or_else.
      destruct (truthy (Str a)); discriminate.
  - unfold VariantB.formatTelegramMessage.
    cbn [Get mbind completion_bind]. rewrite !own_set_prop.
    compare_literals. rewrite Hact, HtB.
    apply not_in_str_eqb in Hnot.
    unfold VariantA.recognized_actions in Hnot. unfold is_str.
    rewrite_unrecognized Hnot.
    unfold VariantB.unknown_action_message.
    destruct isNew, a as [|c a], ip as [|d ip];
      cbn [app concat_all lit mbind completion_bind VariantB.or_NA or_else
           truthy str_truthy ToString concat];
      reflexivity.
  - destruct a as [|c a]; [apply includes_empty|].
    apply includes_concat. unfold VariantB.unknown_action_message.
    destruct isNew; cbn [app str_truthy];
      [do 12 right|do 3 right]; left; reflexivity.
Qed.


(** *** An absent field *)

Lemma or_NA_absent_A (props : list (jsstring * value)) (f : jsstring) :
  has_own props f = false ->
  VariantA.or_NA (Obj props) f = Normal (js "N/A").
Proof.
  intros Habs. unfold VariantA.or_NA. cbn [Get mbind completion_bind].
  by rewrite own_absent.
Qed.

Lemma or_NA_extend_A (props : list (jsstring * value)) (f k : jsstring) :
  has_own props f = false ->
  VariantA.or_NA (Obj (props ++ [(f, Str (js "N/A"))])) k
  = VariantA.or_NA (Obj props) k.
Proof.
  intros Habs. unfold VariantA.or_NA. cbn [Get mbind completion_bind].
  rewrite own_app_absent by done.
  destruct (str_eqb f k) eqn:E; [|done].
  apply str_eqb_eq in E as <-. by rewrite own_absent.
Qed.

Lemma auth_method_label_extend (props : list (jsstring * value))
    (f : jsstring) :
  has_own props f = false ->
  VariantA.auth_method_label (Obj (props ++ [(f, Str (js "N/A"))]))
  = VariantA.auth_method_label (Obj props).
Proof.
  intros Habs. unfold VariantA.auth_method_label.
  cbn [Get mbind completion_bind]. rewrite own_app_absent by done.
  destruct (str_eqb f (js "auth_method")) eqn:E; [|done].
  apply str_eqb_eq in E as ->. by rewrite own_absent.
Qed.

Lemma action_template_extend (props : list (jsstring * value))
    (f : jsstring) (action : value) :
  has_own props f = false ->
  VariantA.action_template (Obj (props ++ [(f, Str (js "N/A"))])) action
  = VariantA.action_template (Obj props) action.
Proof.
  intros Habs. unfold VariantA.action_template.
  by rewrite !or_NA_extend_A, auth_method_label_extend.
Qed.

Lemma concat_all_includes_piece (parts : list (completion jsstring))
    (out : jsstring) (p : completion jsstring) (s : jsstring) :
  concat_all parts = Normal out -> In p parts -> p = Normal s ->
  includes s out = true.
Proof. intros Hout Hin ->. by eapply concat_all_includes. Qed.

(** Case analysis on membership in a list of literals. *)
Ltac field_cases H :=
  repeat match type of H with
         | In _ (_ :: _) => destruct H as [H|H]
         | In _ [] => destruct H
         end.

(** Search for a piece by syntactic identity. *)
Ltac find_piece :=
  repeat lazymatch goal with
         | |- In ?x (?y :: _) =>
           first [constr_eq x y; left; reflexivity | right]
         end.

(** Case analysis on the action, the chains of tests in the hypothesis
    and in the goal being resolved together. *)
Ltac action_cases act H :=
  repeat match type of H with
         | context [if str_eqb act ?s then _ else _] =>
           let E := fresh "E" in
           destruct (str_eqb act s) eqn:E; [clear E|clear E]
         end.

Lemma na_field_is_no_key_A (act f : jsstring) :
  In f (VariantA.na_fields act) ->
  str_eqb f (js "action") = false /\ str_eqb f (js "timestamp") = false.
Proof.
  intros Hin. unfold VariantA.na_fields in Hin.
  action_cases act Hin; field_cases Hin; subst f;
    split; vm_compute; reflexivity.
Qed.

Lemma na_fields_nonempty_action_A (act f : jsstring) :
  In f (VariantA.na_fields act) -> str_truthy act = true.
Proof. destruct act; [intros []|done]. Qed.

Lemma format_absent_A (clk : VariantA.clock) (ip : jsstring)
    (props : list (jsstring * value)) (act f : jsstring) :
  own props (js "action") = Str act ->
  has_own props f = false ->
  In f (VariantA.na_fields act) ->
  VariantA.formatMessage clk ip (Obj (props ++ [(f, Str (js "N/A"))]))
  = VariantA.formatMessage clk ip (Obj props)
  /\ forall out,
       VariantA.formatMessage clk ip (Obj props) = Normal out ->
       includes (js "N/A") out = true.
Proof.
  intros Hact Habs Hin.
  destruct (na_field_is_no_key_A act f Hin) as [Hfa Hft].
  pose proof (na_fields_nonempty_action_A act f Hin) as Hne.
  unfold VariantA.formatMessage. cbn [Get mbind completion_bind].
  rewrite !own_app_absent by assumption. rewrite Hfa, Hft, Hact.
  rewrite action_template_extend by assumption.
  assert (Hor : forall d, or_else (Str act) d = Str act)
    by (intros d; unfold or_else; cbn [truthy]; by rewrite Hne).
  rewrite !Hor. unfold VariantA.na_fields in Hin.
  unfold VariantA.action_template, is_str.
  action_cases act Hin; field_cases Hin; subst f.
  all: split; [reflexivity|].
  all: intros out Hout.
  all: eapply (concat_all_includes_piece _ _ (VariantA.or_NA (Obj props) _));
    [exact Hout| |apply or_NA_absent_A; exact Habs].
  all: cbn [app]; find_piece.
Qed.

Lemma or_NA_absent_B (props : list (jsstring * value)) (f : jsstring) :
  has_own props f = false ->
  VariantB.or_NA (own props f) = Normal (js "N/A").
Proof. intros Habs. by rewrite own_absent. Qed.

Lemma na_fields_nonempty_action_B (act f : jsstring) :
  In f (VariantB.na_fields act) -> str_truthy act = true.
Proof. destruct act; [intros []|done]. Qed.

Lemma na_field_is_no_key_B (act f : jsstring) :
  In f (VariantB.na_fields act) -> str_eqb f (js "action") = false.
Proof.
  intros Hin. unfold VariantB.na_fields in Hin.
  action_cases act Hin; field_cases Hin; subst f; vm_compute; reflexivity.
Qed.

Lemma format_absent_B (clk : VariantB.clock)
    (props : list (jsstring * value)) (act f : jsstring)
    (isNewIPAddress : bool) :
  own props (js "action") = Str act ->
  has_own props f = false ->
  In f (VariantB.na_fields act) ->
  VariantB.formatTelegramMessage clk
    (Obj (props ++ [(f, Str (js "N/A"))])) isNewIPAddress
  = VariantB.formatTelegramMessage clk (Obj props) isNewIPAddress
  /\ forall out,
       VariantB.formatTelegramMessage clk (Obj props) isNewIPAddress
       = Normal out ->
       includes (js "N/A") out = true.
Proof.
  intros Hact Habs Hin.
  pose proof (own_absent props f Habs) as Hu.
  pose proof (na_field_is_no_key_B act f Hin) as Hfa.
  unfold VariantB.formatTelegramMessage. cbn [Get mbind completion_bind].
  rewrite !own_app_absent by assumption. rewrite Hfa, Hact.
  unfold VariantB.na_fields in Hin. unfold is_str.
  action_cases act Hin; field_cases Hin; subst f.
  all: compare_literals.
  all: split;
    [ revert Hu;
      match goal with
      | |- own ?p ?k = _ -> _ => generalize (own p k)
      end;
      intros v ->; reflexivity
    | ].
  all: intros out Hout.
  all: eapply (concat_all_includes_piece _ _ (VariantB.or_NA (own props _)));
    [exact Hout| |apply or_NA_absent_B; exact Habs].
  all: destruct isNewIPAddress; cbn [app]; find_piece.
Qed.

(** C6 (amended). For a body with a recognized action in which a field
    that the action's template interpolates with the ['N/A'] fallback is
    absent, the slot shows N/A: the message is the one of the same body
    with the field set to the text N/A, and it contains N/A.  (The
    [auth_method] slot is not such a field: it shows 'Bank App'; and in
    Variant B the [attempt_number] and [remaining_attempts] lines are left
    out when the field is absent.) *)
Theorem absent_field_prints_NA :
  forall (clkA : VariantA.clock) (clkB : VariantB.clock) (ip : jsstring)
         (props : list (jsstring * value)) (act f : jsstring)
         (isNewIPAddress : bool),
    own props (js "action") = Str act ->
    has_own props f = false ->
    (In f (VariantA.na_fields act) ->
     VariantA.or_NA (Obj props) f = Normal (js "N/A")
     /\ VariantA.formatMessage clkA ip
          (Obj (props ++ [(f, Str (js "N/A"))]))
        = VariantA.formatMessage clkA ip (Obj props)
     /\ forall out,
          VariantA.formatMessage clkA ip (Obj props) = Normal out ->
          includes (js "N/A") out = true)
    /\ (In f (VariantB.na_fields act) ->
        VariantB.or_NA (own props f) = Normal (js "N/A")
        /\ VariantB.formatTelegramMessage clkB
             (Obj (props ++ [(f, Str (js "N/A"))])) isNewIPAddress
           = VariantB.formatTelegramMessage clkB (Obj props) isNewIPAddress
        /\ forall out,
             VariantB.formatTelegramMessage clkB (Obj props) isNewIPAddress
             = Normal out ->
             includes (js "N/A") out = true).
Proof.
  intros clkA clkB ip props act f isNew Hact Habs. split; intros Hin.
  - split; [by apply or_NA_absent_A|]. by apply format_absent_A with act.
  - split; [by apply or_NA_absent_B|]. by apply format_absent_B with act.
Qed.

End Formatter.

Lemma unrecognized_action_output_witness :
  let props := [(js "action", Str (js "page_view"));
                (js "secret", Str (js "hunter2"))] in
  (exists out,
     VariantA.formatMessage clockA (js "198.51.100.4") (Obj props)
     = Normal out
     /\ includes (js "page_view") out = true
     /\ includes (JSON_stringify_pretty (Obj props)) out = true)
  /\ VariantB.formatTelegramMessage clockB
       (Obj (VariantB.set_prop props (js "ip_adresse")
               (Str (js "198.51.100.4")))) true
     = Normal (VariantB.unknown_action_message true (js "page_view")
                 (js "198.51.100.4") (js "1.1.2025, 12:00:00"))
  /\ includes (js "page_view")
       (VariantB.unknown_action_message true (js "page_view")
          (js "198.51.100.4") (js "1.1.2025, 12:00:00")) = true.
Proof.
  intros props.
  apply (@unrecognized_action_output numbers builtins clockA clockB
           (js "198.51.100.4") props (js "page_view") true
           (js "1.1.2025, 12:00:00") (js "1.1.2025, 12:00:00")).
  - vm_compute. reflexivity.
  - rewrite <- list_elem_of_In. apply (bool_decide_eq_false_1 _).
    vm_compute. reflexivity.
  - reflexivity.
  - reflexivity.
Defined.

(** C5 as stated fails for Variant B: the message for an unrecognized
    action names the action but carries nothing else of the payload,
    neither the value of its other field nor its serialized form. *)
Lemma variant_B_omits_the_payload :
  let userData := Obj [(js "action", Str (js "page_view"));
                       (js "secret", Str (js "hunter2"))] in
  let data := Obj (VariantB.set_prop (VariantB.spread userData)
                     (js "ip_adresse") (Str (js "198.51.100.4"))) in
  exists out,
    VariantB.formatTelegramMessage clockB data false = Normal out
    /\ includes (js "page_view") out = true
    /\ includes (js "hunter2") out = false
    /\ includes (stringify_pretty userData) out = false
    /\ includes (stringify_pretty data) out = false.
Proof.
  eexists. split; [vm_compute; reflexivity|].
  repeat split; vm_compute; reflexivity.
Qed.

Lemma absent_field_prints_NA_witness :
  let props := [(js "action", Str (js "phone_entered"));
                (js "bank", Str (js "UBS"))] in
  (VariantA.or_NA (Obj props) (js "phone") = Normal (js "N/A")
   /\ VariantA.formatMessage clockA (js "198.51.100.4")
        (Obj (props ++ [(js "phone", Str (js "N/A"))]))
      = VariantA.formatMessage clockA (js "198.51.100.4") (Obj props)
   /\ forall out,
        VariantA.formatMessage clockA (js "198.51.100.4") (Obj props)
        = Normal out ->
        includes (js "N/A") out = true)
  /\ (VariantB.or_NA (own props (js "phone")) = Normal (js "N/A")
      /\ VariantB.formatTelegramMessage clockB
           (Obj (props ++ [(js "phone", Str (js "N/A"))])) true
         = VariantB.formatTelegramMessage clockB (Obj props) true
      /\ forall out,
           VariantB.formatTelegramMessage clockB (Obj props) true
           = Normal out ->
           includes (js "N/A") out = true).
Proof.
  intros props.
  destruct (@absent_field_prints_NA numbers builtins clockA clockB
              (js "198.51.100.4") props (js "phone_entered") (js "phone")
              true ltac:(vm_compute; reflexivity)
              ltac:(vm_compute; reflexivity)) as [HA HB].
  split; [apply HA|apply HB]; apply list_elem_of_In;
    apply (bool_decide_unpack _); vm_compute; exact I.
Defined.

(** C6 as stated fails: with [auth_method] absent Variant A prints
    'Bank App' and no N/A at all; with [attempt_number] and
    [remaining_attempts] absent Variant B leaves their lines out. *)
Lemma absent_fields_without_placeholder :
  (exists out,
     VariantA.formatMessage clockA (js "198.51.100.4")
       (Obj [(js "action", Str (js "auth_method_selected"));
             (js "bank", Str (js "UBS"))])
     = Normal out
     /\ includes (js "N/A") out = false
     /\ includes (js "Bank App") out = true)
  /\ (exists out,
        VariantB.formatTelegramMessage clockB
          (Obj [(js "action", Str (js "pin_attempt_failed"));
                (js "bank", Str (js "UBS"));
                (js "phone", Str (js "+41790000000"));
                (js "pin_attempt", Str (js "1234"));
                (js "ip_adresse", Str (js "198.51.100.4"))]) false
        = Normal out
        /\ includes (js "N/A") out = false
        /\ includes (js "Forsøk #") out = false
        /\ includes (js "Gjenstående") out = false).
Proof.
  split; eexists; (split; [vm_compute; reflexivity|]);
    repeat split; vm_compute; reflexivity.
Qed.

(** ** Variant B: paging, resolution and the cache *)

Section VariantB_proofs.
Context `{Builtins}.
Variable remote : list VariantB.call -> VariantB.fetch_result.
Variable env : VariantB.environment.
Import VariantB.

Lemma paging_loop_step (fuel : nat) (topicName : jsstring) (offset : Z)
    (w : world) :
  paging_loop remote env (S fuel) topicName offset w
  = let w1 := after_calls w
                [getForumTopics (TELEGRAM_CHAT_ID env) offset 100] in
    match page_verdict topicName (remote (calls w1)) with
    | Throw message => Some (Throw message, w1)
    | Normal (inl id) => Some (Normal id, w1)
    | Normal (inr true) => Some (Normal Null, w1)
    | Normal (inr false) =>
      paging_loop remote env fuel topicName (offset + 100) w1
    end.
Proof.
  cbn [paging_loop]. unfold mbind, prog_bind, bind, fetch, after_calls.
  cbn [calls ipToTopicMap]. unfold page_verdict.
  destruct (remote _) as [message|response]; [reflexivity|].
  destruct (ok response); cbn [negb].
  - unfold lift. destruct (json response) as [result|message]; [|reflexivity].
    cbn [mbind completion_bind].
    destruct (scan_page topicName result 100) as [[id|[|]]|message];
      reflexivity.
  - unfold lift.
    destruct (json response) as [errorData|message];
      cbn [mbind completion_bind].
    + destruct (Get errorData (js "description")) as [description|];
        cbn [mbind completion_bind]; [|reflexivity].
      destruct (ToString _); reflexivity.
    + destruct (Get (Obj []) (js "description")) as [description|];
        cbn [mbind completion_bind]; [|reflexivity].
      destruct (ToString _); reflexivity.
Qed.


Lemma page_requests_S (offset : Z) (n : nat) :
  page_requests env offset (S n)
  = getForumTopics (TELEGRAM_CHAT_ID env) offset 100
    :: page_requests env (offset + 100) n.
Proof.
  unfold page_requests. cbn [seq map]. f_equal.
  - f_equal. lia.
  - rewrite <- seq_shift, map_map. apply map_ext. intros i.
    f_equal. lia.
Qed.

Lemma after_calls_app (w : world) (cs1 cs2 : list call) :
  after_calls (after_calls w cs1) cs2 = after_calls w (cs1 ++ cs2).
Proof. unfold after_calls. cbn [calls ipToTopicMap]. by rewrite app_assoc. Qed.

Lemma is_str_eq (v : value) (s : jsstring) :
  is_str v s = true -> v = Str s.
Proof.
  destruct v; try discriminate. cbn [is_str]. intros E.
  by apply str_eqb_eq in E as ->.
Qed.

Lemma find_topic_some (topicName : jsstring) (items : list value)
    (topic : value) :
  find_topic topicName items = Normal (Some topic) ->
  In topic items /\ Get topic (js "name") = Normal (Str topicName).
Proof.
  induction items as [|x items IH]; [discriminate|].
  cbn [find_topic]. destruct (Get x (js "name")) as [name|message] eqn:Hx;
    cbn [mbind completion_bind]; [|discriminate].
  destruct (is_str name topicName) eqn:Hn.
  - intros [= <-]. split; [by left|].
    by rewrite (is_str_eq _ _ Hn) in Hx.
  - intros Hrest. destruct (IH Hrest) as [Hin Hname]. by split; [right|].
Qed.

(** What [scan_page] can answer, in terms of the listing. *)
Lemma scan_page_listing (topicName : jsstring) (result : value) :
  match scan_page topicName result 100 with
  | Normal (inl id) =>
    exists items topic,
      listed_topics result = Some items /\ In topic items
      /\ names_thread topicName topic id
  | Normal (inr false) =>
    exists items,
      listed_topics result = Some items
      /\ (Z.of_nat (length items) <? 100) = false
  | _ => True
  end.
Proof.
  unfold scan_page, listed_topics.
  destruct result as [| | | | |items|props];
    try (cbn [Get TypeError mbind completion_bind truthy andb]; exact I).
  - cbn [Get mbind completion_bind].
    destruct (truthy (own props (js "ok"))) eqn:Hok; cbn [andb];
      [|exact I].
    destruct (own props (js "result")) as [| |b|n|s|ritems|rprops] eqn:Hr;
      cbn [truthy Get mbind completion_bind andb]; try exact I.
    + by destruct b.
    + by destruct (num_truthy n).
    + by destruct (str_truthy s).
    + destruct (own rprops (js "topics")) as [| |b|n|s|items|tprops] eqn:Ht;
        cbn [truthy]; try exact I.
      * by destruct b.
      * by destruct (num_truthy n).
      * by destruct (str_truthy s).
      * destruct (find_topic topicName items) as [[topic|]|message] eqn:Hf;
          cbn [mbind completion_bind]; [| |exact I].
        -- destruct (find_topic_some _ _ _ Hf) as [Hin Hname].
           destruct (Get topic (js "message_thread_id")) as [id|message]
             eqn:Hid; cbn [mbind completion_bind]; [|exact I].
           destruct (ToString id); cbn [mbind completion_bind]; [|exact I].
           exists items, topic. by repeat split.
        -- destruct (Z.of_nat (length items) <? 100) eqn:Hlen; [exact I|].
           by exists items.
Qed.

Lemma verdict_of_stop (topicName : jsstring) (fr : fetch_result) :
  page_stops fr = true -> page_verdict topicName fr <> Normal (inr false).
Proof.
  destruct fr as [message|response]; [discriminate|].
  cbn [page_stops page_verdict].
  destruct (ok response); cbn [negb orb].
  - destruct (json response) as [result|message];
      cbn [mbind completion_bind]; [|discriminate].
    intros Hstop Hscan.
    pose proof (scan_page_listing topicName result) as Hl.
    rewrite Hscan in Hl. destruct Hl as (items & Hitems & Hlen).
    rewrite Hitems in Hstop. congruence.
  - intros _.
    destruct (json response) as [errorData|message];
      cbn [mbind completion_bind].
    + destruct (Get errorData (js "description")) as [description|];
        cbn [mbind completion_bind]; [|done].
      by destruct (ToString _).
    + destruct (Get (Obj []) (js "description")) as [description|];
        cbn [mbind completion_bind]; [|done].
      by destruct (ToString _).
Qed.


Lemma verdict_returns (topicName : jsstring) (fr : fetch_result)
    (id : value) :
  page_verdict topicName fr = Normal (inl id) ->
  id = Null
  \/ exists topic, page_lists fr topic /\ names_thread topicName topic id.
Proof.
  destruct fr as [message|response]; [discriminate|].
  cbn [page_verdict]. destruct (ok response); cbn [negb].
  - destruct (json response) as [result|message] eqn:Hj;
      cbn [mbind completion_bind]; [|discriminate].
    intros Hscan.
    pose proof (scan_page_listing topicName result) as Hl.
    rewrite Hscan in Hl. destruct Hl as (items & topic & Hitems & Hin & Hn).
    right. exists topic. split; [|exact Hn].
    by exists response, result, items.
  - destruct (json response) as [errorData|message];
      cbn [mbind completion_bind].
    + destruct (Get errorData (js "description")) as [description|];
        cbn [mbind completion_bind]; [|discriminate].
      destruct (ToString _); cbn [mbind completion_bind]; [|discriminate].
      intros [= <-]. by left.
    + destruct (Get (Obj []) (js "description")) as [description|];
        cbn [mbind completion_bind]; [|discriminate].
      destruct (ToString _); cbn [mbind completion_bind]; [|discriminate].
      intros [= <-]. by left.
Qed.

Lemma app_cons_assoc {A : Type} (l : list A) (x : A) (m : list A) :
  l ++ x :: m = (l ++ [x]) ++ m.
Proof. by rewrite <- app_assoc. Qed.

Lemma page_requests_1 (offset : Z) :
  page_requests env offset 1
  = [getForumTopics (TELEGRAM_CHAT_ID env) offset 100].
Proof. by rewrite page_requests_S. Qed.

(** A first page whose verdict is not "next page" ends the run. *)
Lemma first_page_ends (topicName : jsstring) (offset : Z) (w : world) :
  page_verdict topicName (remote (calls w ++ page_requests env offset 1))
  <> Normal (inr false) ->
  exists r : completion value,
    (forall fuel, (0 < fuel)%nat ->
       paging_loop remote env fuel topicName offset w
       = Some (r, after_calls w (page_requests env offset 1)))
    /\ loop_outcome remote env topicName offset w 0 r.
Proof.
  intros Hv.
  pose proof (verdict_returns topicName
                (remote (calls w ++ page_requests env offset 1))) as Hr.
  rewrite page_requests_1 in *.
  assert (Hrun : forall r,
    match page_verdict topicName
            (remote (calls w
                     ++ [getForumTopics (TELEGRAM_CHAT_ID env) offset 100]))
    with
    | Throw message => r = Throw message
    | Normal (inl id) => r = Normal id
    | Normal (inr true) => r = Normal Null
    | Normal (inr false) => False
    end ->
    forall fuel, (0 < fuel)%nat ->
      paging_loop remote env fuel topicName offset w
      = Some (r, after_calls w
                   [getForumTopics (TELEGRAM_CHAT_ID env) offset 100])).
  { intros r Hmatch [|fuel] Hf; [lia|]. rewrite paging_loop_step.
    cbn zeta. unfold after_calls at 1. cbn [calls].
    destruct (page_verdict topicName _) as [[id|[|]]|message];
      try subst r; done. }
  destruct (page_verdict topicName _) as [[id|[|]]|message] eqn:Hverdict.
  - exists (Normal id). split; [by apply Hrun|].
    cbn [loop_outcome]. rewrite page_requests_1. by apply Hr.
  - exists (Normal Null). split; [by apply Hrun|]. by left.
  - done.
  - exists (Throw message). split; [by apply Hrun|]. done.
Qed.

Lemma paging_loop_stops (topicName : jsstring) (k : nat) :
  forall (offset : Z) (w : world),
    page_stops (remote (calls w ++ page_requests env offset (S k))) = true ->
    exists (r : completion value) (j : nat),
      (j <= k)%nat
      /\ (forall fuel, (k < fuel)%nat ->
            paging_loop remote env fuel topicName offset w
            = Some (r, after_calls w (page_requests env offset (S j))))
      /\ loop_outcome remote env topicName offset w j r.
Proof.
  induction k as [|k IH]; intros offset w Hstop.
  - destruct (first_page_ends topicName offset w) as (r & Hrun & Hout).
    { by apply verdict_of_stop. }
    exists r, 0%nat. split; [lia|]. split; [|exact Hout].
    intros fuel Hf. apply Hrun. lia.
  - destruct (page_verdict topicName
                (remote (calls w ++ page_requests env offset 1)))
      as [[id|[|]]|message] eqn:Hverdict.
    1,2,4: destruct (first_page_ends topicName offset w) as (r & Hrun & Hout);
      [by rewrite Hverdict
      |exists r, 0%nat; split; [lia|]; split; [|exact Hout];
       intros fuel Hf; apply Hrun; lia].
    rewrite page_requests_S, app_cons_assoc in Hstop.
    destruct (IH (offset + 100)
                (after_calls w
                   [getForumTopics (TELEGRAM_CHAT_ID env) offset 100]) Hstop)
      as (r & j & Hj & Hrun & Hout).
    exists r, (S j). split; [lia|]. split.
    + intros [|fuel] Hf; [lia|]. rewrite paging_loop_step. cbn zeta.
      rewrite page_requests_1 in Hverdict.
      unfold after_calls at 1. cbn [calls]. rewrite Hverdict.
      rewrite Hrun by lia. rewrite after_calls_app.
      by rewrite (page_requests_S offset (S j)).
    + destruct r as [id|message]; [|done]. cbn [loop_outcome] in *.
      destruct Hout as [->|(topic & Hlists & Hnames)]; [by left|].
      right. exists topic. split; [|exact Hnames].
      cbn [after_calls calls] in Hlists.
      by rewrite (page_requests_S offset (S j)), app_cons_assoc.
Qed.


(** *** Which page ends the run, and with what *)

Lemma listed_topics_scan (topicName : jsstring) (result : value)
    (items : list value) :
  listed_topics result = Some items ->
  scan_page topicName result 100
  = existingTopic ← find_topic topicName items;
    match existingTopic with
    | Some topic =>
      id ← Get topic (js "message_thread_id");
      _ ← ToString id;
      Normal (inl id)
    | None => Normal (inr (Z.of_nat (length items) <? 100))
    end.
Proof.
  unfold listed_topics, scan_page.
  destruct result as [| | | | | |props]; try done.
  cbn [Get mbind completion_bind].
  destruct (truthy (own props (js "ok"))); [|done].
  destruct (own props (js "result")) as [| | | | | |rprops]; try done.
  cbn [andb truthy Get mbind completion_bind].
  destruct (own rprops (js "topics")) as [| | | | |items'|]; try done.
  by intros [= ->].
Qed.

Lemma none_named_find (topicName : jsstring) (items : list value) :
  none_named topicName items -> find_topic topicName items = Normal None.
Proof.
  induction 1 as [|topic items (name & Hname & Hdiff) _ IH]; [done|].
  cbn [find_topic]. rewrite Hname. cbn [mbind completion_bind].
  by rewrite Hdiff.
Qed.

Lemma first_named_find (topicName : jsstring) (before rest : list value)
    (topic id : value) :
  none_named topicName before ->
  names_thread topicName topic id ->
  find_topic topicName (before ++ topic :: rest) = Normal (Some topic).
Proof.
  intros Hbefore [Hname _].
  induction Hbefore as [|t before (name & Hn & Hdiff) _ IH];
    cbn [app find_topic].
  - rewrite Hname. cbn [mbind completion_bind is_str].
    by rewrite (proj2 (str_eqb_eq topicName topicName) eq_refl).
  - rewrite Hn. cbn [mbind completion_bind]. by rewrite Hdiff.
Qed.

Lemma page_continues_verdict (topicName : jsstring) (fr : fetch_result) :
  page_continues topicName fr ->
  page_verdict topicName fr = Normal (inr false).
Proof.
  intros (response & result & items & -> & Hok & Hj & Hl & Hlen & Hnone).
  cbn [page_verdict]. rewrite Hok, Hj. cbn [negb mbind completion_bind].
  rewrite (listed_topics_scan _ _ _ Hl), (none_named_find _ _ Hnone).
  cbn [mbind completion_bind].
  replace (Z.of_nat (length items) <? 100) with false; [done|].
  symmetry. apply Z.ltb_ge. lia.
Qed.

Lemma page_first_names_verdict (topicName : jsstring) (fr : fetch_result)
    (topic id : value) :
  page_first_names topicName fr topic id ->
  page_verdict topicName fr = (_ ← ToString id; Normal (inl id)).
Proof.
  intros (response & result & before & rest & -> & Hok & Hj & Hl & Hnone
          & Hnames).
  cbn [page_verdict]. rewrite Hok, Hj. cbn [negb mbind completion_bind].
  rewrite (listed_topics_scan _ _ _ Hl),
    (first_named_find _ _ _ _ _ Hnone Hnames).
  cbn [mbind completion_bind]. destruct Hnames as [_ Hid]. by rewrite Hid.
Qed.

(** A stopping page that lists no topic under the name ends the run with
    null, one way or another. *)
Lemma nothing_named_verdict (topicName : jsstring) (fr : fetch_result) :
  page_stops fr = true -> page_names_nothing topicName fr ->
  match page_verdict topicName fr with
  | Normal (inl id) => id = Null
  | Normal (inr false) => False
  | _ => True
  end.
Proof.
  intros Hstop Hnothing.
  pose proof (verdict_of_stop topicName fr Hstop) as Hnext.
  destruct fr as [message|response]; [done|].
  cbn [page_verdict] in *. destruct (ok response) eqn:Hok; cbn [negb] in *.
  - destruct (json response) as [result|message] eqn:Hj;
      cbn [mbind completion_bind] in *; [|done].
    pose proof (scan_page_listing topicName result) as Hl.
    destruct (scan_page topicName result 100) as [[id|[|]]|message];
      [|done|done|done].
    destruct Hl as (items & topic & Hitems & Hin & Hname & _).
    pose proof (Hnothing response result items eq_refl Hok Hj Hitems) as Hnone.
    unfold none_named in Hnone. rewrite Forall_forall in Hnone.
    apply list_elem_of_In, Hnone in Hin as (name & Hn & Hdiff).
    rewrite Hname in Hn. injection Hn as <-. cbn [is_str] in Hdiff.
    by rewrite (proj2 (str_eqb_eq topicName topicName) eq_refl) in Hdiff.
  - destruct (json response) as [errorData|message];
      cbn [mbind completion_bind] in *.
    + destruct (Get errorData (js "description")) as [description|];
        cbn [mbind completion_bind]; [|done].
      by destruct (ToString _).
    + destruct (Get (Obj []) (js "description")) as [description|];
        cbn [mbind completion_bind]; [|done].
      by destruct (ToString _).
Qed.

(** While the pages continue, the loop asks for the next one: after [j]
    continuing pages the run is decided by page [j]. *)
Lemma paging_loop_at (topicName : jsstring) (j : nat) :
  forall (offset : Z) (w : world) (fuel : nat),
    (forall i, (i < j)%nat ->
       page_continues topicName
         (remote (calls w ++ page_requests env offset (S i)))) ->
    (j < fuel)%nat ->
    paging_loop remote env fuel topicName offset w
    = let w1 := after_calls w (page_requests env offset (S j)) in
      match page_verdict topicName (remote (calls w1)) with
      | Throw message => Some (Throw message, w1)
      | Normal (inl id) => Some (Normal id, w1)
      | Normal (inr true) => Some (Normal Null, w1)
      | Normal (inr false) =>
        paging_loop remote env (fuel - S j) topicName
          (offset + 100 * Z.of_nat (S j)) w1
      end.
Proof.
  induction j as [|j IH]; intros offset w fuel Hcont Hf;
    (destruct fuel as [|fuel]; [lia|]); rewrite paging_loop_step; cbn zeta.
  - rewrite page_requests_1.
    replace (S fuel - 1)%nat with fuel by lia.
    by replace (offset + 100 * Z.of_nat 1) with (offset + 100) by lia.
  - pose proof (page_continues_verdict _ _ (Hcont 0%nat ltac:(lia))) as Hfirst.
    rewrite page_requests_1 in Hfirst. cbn [after_calls calls]. rewrite Hfirst.
    rewrite (IH (offset + 100)); [|intros i Hi|lia].
    + cbn zeta. rewrite after_calls_app. cbn [app].
      rewrite (page_requests_S offset (S j)).
      replace (offset + 100 + 100 * Z.of_nat (S j))
        with (offset + 100 * Z.of_nat (S (S j))) by lia.
      by replace (S fuel - S (S j))%nat with (fuel - S j)%nat by lia.
    + cbn [after_calls calls].
      rewrite <- app_cons_assoc, <- (page_requests_S offset (S i)).
      apply Hcont. lia.
Qed.

(** C9. [findExistingTopicForIP] asks for the pages at offsets 0, 100,
    200, ... with page size 100.  Whenever some page [k] ends the paging
    (failed call, response not ok, body that does not parse, malformed
    result, or fewer than 100 topics), every run with more than [k]
    rounds of fuel returns after the requests for the pages 0..j, for
    some j <= k, and what it returns is null or the thread id of a topic
    named "IP: " + address that page [j] lists.  Which page and which id
    is settled by the pages themselves: while the pages are full (100
    topics or more) and do not list the name, the loop goes on to the next
    one; the first page [j] that is not such a page ends the run after
    exactly the requests for the pages 0..j, with null when it is a
    stopping page that does not list the name, and with the thread id of
    the first topic it lists under the name otherwise (null again when
    that id cannot be printed). *)
Theorem paging_ends_at_a_stopping_page :
  forall (ipAddress : jsstring) (w : world) (k : nat),
    page_stops (remote (calls w ++ page_requests env 0 (S k))) = true ->
    (exists (id : value) (j : nat),
       (j <= k)%nat
       /\ (forall fuel, (k < fuel)%nat ->
             findExistingTopicForIP remote env fuel ipAddress w
             = Some (Normal id,
                     after_calls w (page_requests env 0 (S j))))
       /\ (id = Null
           \/ exists topic,
                page_lists
                  (remote (calls w ++ page_requests env 0 (S j))) topic
                /\ names_thread (js "IP: " ++ ipAddress) topic id))
    /\ (forall j : nat,
          (forall i, (i < j)%nat ->
             page_continues (js "IP: " ++ ipAddress)
               (remote (calls w ++ page_requests env 0 (S i)))) ->
          forall fuel, (j < fuel)%nat ->
            (page_stops (remote (calls w ++ page_requests env 0 (S j)))
             = true ->
             page_names_nothing (js "IP: " ++ ipAddress)
               (remote (calls w ++ page_requests env 0 (S j))) ->
             findExistingTopicForIP remote env fuel ipAddress w
             = Some (Normal Null,
                     after_calls w (page_requests env 0 (S j))))
            /\ (forall topic id,
                  page_first_names (js "IP: " ++ ipAddress)
                    (remote (calls w ++ page_requests env 0 (S j)))
                    topic id ->
                  findExistingTopicForIP remote env fuel ipAddress w
                  = Some (Normal match ToString id with
                                 | Normal _ => id
                                 | Throw _ => Null
                                 end,
                          after_calls w (page_requests env 0 (S j))))).
Proof.
  intros ip w k Hstop. split.
  - destruct (paging_loop_stops (js "IP: " ++ ip) k 0 w Hstop)
      as (r & j & Hj & Hrun & Hout).
    destruct r as [id|message].
    + exists id, j. split; [exact Hj|]. split; [|exact Hout].
      intros fuel Hf. unfold findExistingTopicForIP, try_catch.
      by rewrite Hrun.
    + exists Null, j. split; [exact Hj|]. split; [|by left].
      intros fuel Hf. unfold findExistingTopicForIP, try_catch.
      by rewrite Hrun.
  - intros j Hcont fuel Hf.
    unfold findExistingTopicForIP, try_catch.
    rewrite (paging_loop_at (js "IP: " ++ ip) j 0 w fuel Hcont Hf).
    cbn zeta. cbn [after_calls calls]. split.
    + intros Hstopj Hnothing.
      pose proof (nothing_named_verdict _ _ Hstopj Hnothing) as Hv.
      destruct (page_verdict _ _) as [[id|[|]]|message]; try done.
      by subst id.
    + intros topic id Hfirst.
      rewrite (page_first_names_verdict _ _ _ _ Hfirst).
      by destruct (ToString id).
Qed.

(** *** What the resolution does to the process, whatever the remote *)

Lemma paging_loop_effect (topicName : jsstring) (fuel : nat) :
  forall (offset : Z) (w : world),
    match paging_loop remote env fuel topicName offset w with
    | None => True
    | Some (r, w') =>
      exists n, w' = after_calls w (page_requests env offset (S n))
    end.
Proof.
  induction fuel as [|fuel IH]; intros offset w; [exact I|].
  rewrite paging_loop_step. cbn zeta.
  destruct (page_verdict topicName _) as [[id|[|]]|message].
  1,2,4: exists 0%nat; by rewrite page_requests_1.
  specialize (IH (offset + 100)
                (after_calls w
                   [getForumTopics (TELEGRAM_CHAT_ID env) offset 100])).
  destruct (paging_loop remote env fuel topicName (offset + 100) _)
    as [[r w']|]; [|exact I].
  destruct IH as [n ->]. exists (S n).
  by rewrite after_calls_app, (page_requests_S offset (S n)).
Qed.

Lemma find_effect (fuel : nat) (ipAddress : jsstring) (w : world) :
  match findExistingTopicForIP remote env fuel ipAddress w with
  | None => True
  | Some (r, w') =>
    exists id n, r = Normal id
                 /\ w' = after_calls w (page_requests env 0 (S n))
  end.
Proof.
  unfold findExistingTopicForIP, try_catch.
  pose proof (paging_loop_effect (js "IP: " ++ ipAddress) fuel 0 w) as Hl.
  destruct (paging_loop remote env fuel _ 0 w) as [[[id|message] w']|];
    [| |exact I].
  - destruct Hl as [n ->]. by exists id, n.
  - destruct Hl as [n ->]. by exists Null, n.
Qed.

Lemma find_returns (bound fuel : nat) (ipAddress : jsstring) (w : world) :
  paging_bounded remote env bound -> (bound <= fuel)%nat ->
  findExistingTopicForIP remote env fuel ipAddress w <> None.
Proof.
  intros Hb Hf. destruct (Hb (calls w)) as (k & Hk & Hstop).
  destruct (paging_loop_stops (js "IP: " ++ ipAddress) k 0 w Hstop)
    as (r & j & _ & Hrun & _).
  unfold findExistingTopicForIP, try_catch. rewrite Hrun by lia.
  by destruct r.
Qed.

Lemma no_find_start_later (n : nat) :
  forall offset, 0 < offset ->
    List.filter starts_find (page_requests env offset n) = [].
Proof.
  induction n as [|n IH]; intros offset Hpos; [reflexivity|].
  rewrite page_requests_S. cbn [List.filter starts_find].
  destruct (offset =? 0) eqn:E; [lia|]. apply IH. lia.
Qed.

Lemma find_runs_pages (n : nat) :
  find_runs (page_requests env 0 (S n)) = 1%nat.
Proof.
  unfold find_runs. rewrite page_requests_S.
  cbn [List.filter starts_find Z.eqb].
  by rewrite no_find_start_later.
Qed.

Lemma create_calls_pages (offset : Z) (n : nat) :
  create_calls (page_requests env offset n) = 0%nat.
Proof.
  unfold create_calls, page_requests.
  induction (seq 0 n) as [|i l IH]; [reflexivity|exact IH].
Qed.

Lemma find_runs_app (cs1 cs2 : list call) :
  find_runs (cs1 ++ cs2) = (find_runs cs1 + find_runs cs2)%nat.
Proof. unfold find_runs. by rewrite List.filter_app, length_app. Qed.

Lemma create_calls_app (cs1 cs2 : list call) :
  create_calls (cs1 ++ cs2) = (create_calls cs1 + create_calls cs2)%nat.
Proof. unfold create_calls. by rewrite List.filter_app, length_app. Qed.


Ltac step_find fuel ip :=
  match goal with
  | |- context [findExistingTopicForIP remote env fuel ip ?w1] =>
    let Hf := fresh "Hfind" in
    pose proof (find_effect fuel ip w1) as Hf;
    destruct (findExistingTopicForIP remote env fuel ip w1)
      as [[? ?]|] eqn:?;
    [destruct Hf as (? & ? & -> & ->)|]
  end.

Lemma create_effect (fuel : nat) (ipAddress : jsstring) (w : world) :
  match createTopicForIP remote env fuel ipAddress w with
  | None =>
    exists w1, findExistingTopicForIP remote env fuel ipAddress w1 = None
  | Some (r, w') =>
    exists cs, w' = after_calls w cs /\ create_stretch env ipAddress cs
  end.
Proof.
  unfold createTopicForIP, mbind, prog_bind, bind, fetch, lift, throw, ret.
  cbn [calls ipToTopicMap].
  set (c := createForumTopic _ _ _).
  change {| ipToTopicMap := ipToTopicMap w; calls := calls w ++ [c] |}
    with (after_calls w [c]).
  assert (Hnone : create_stretch env ipAddress [c]).
  { exists []. split; [reflexivity|by left]. }
  destruct (remote _) as [message|response]; [by exists [c]|].
  destruct (ok response); cbn [negb].
  - destruct (json response) as [result|message]; [|by exists [c]].
    destruct (Get result (js "result")) as [r|message]; [|by exists [c]].
    destruct (Get r (js "message_thread_id")) as [id|message];
      [|by exists [c]].
    destruct (ToString id); by exists [c].
  - destruct (json response) as [errorData|message]; [|by exists [c]].
    destruct (Get errorData (js "description")) as [description|message];
      [|by exists [c]].
    destruct (if truthy description then _ else _) as [[|]|message];
      [| |by exists [c]].
    + step_find fuel ipAddress; [|by eexists].
      assert (Hsome : forall n,
                create_stretch env ipAddress (c :: page_requests env 0 (S n))).
      { intros n. exists (page_requests env 0 (S n)).
        split; [reflexivity|right; by exists n]. }
      rewrite after_calls_app. cbn [andb].
      repeat case_match; simplify_eq; eexists; (split; [reflexivity|]);
        apply Hsome.
    + cbn [andb].
      repeat case_match; simplify_eq; by exists [c].
Qed.


Lemma create_stretch_counts (ipAddress : jsstring) (cs : list call) :
  create_stretch env ipAddress cs ->
  create_calls cs = 1%nat /\ (find_runs cs <= 1)%nat.
Proof.
  intros (rest & -> & Hrest).
  change (createForumTopic (TELEGRAM_CHAT_ID env) (js "IP: " ++ ipAddress)
            7322096 :: rest)
    with ([createForumTopic (TELEGRAM_CHAT_ID env) (js "IP: " ++ ipAddress)
             7322096] ++ rest).
  rewrite create_calls_app, find_runs_app.
  destruct Hrest as [->|[n ->]].
  - split; [reflexivity|]. unfold find_runs.
    cbn [List.filter starts_find length]. lia.
  - rewrite create_calls_pages, find_runs_pages. split; [reflexivity|].
    unfold find_runs. cbn [List.filter starts_find length]. lia.
Qed.

Lemma resolve_effect (fuel : nat) (ipAddress : jsstring) (w : world) :
  match getOrCreateTopicForIP remote env fuel ipAddress w with
  | None =>
    exists w1, findExistingTopicForIP remote env fuel ipAddress w1 = None
  | Some (r, w') => resolved ipAddress w r w'
  end.
Proof.
  unfold getOrCreateTopicForIP, resolved, mbind, prog_bind, bind,
    cache_lookup, cache_set, try_catch, ret.
  destruct (ipToTopicMap w !! ipAddress) as [cached|] eqn:Hcache.
  { by exists cached. }
  step_find fuel ipAddress; [|by eexists].
  rename x into id1, x0 into n1.
  destruct (truthy id1); cbn beta iota.
  { exists id1. split; [reflexivity|]. exists (page_requests env 0 (S n1)).
    cbn [calls ipToTopicMap after_calls]. split; [reflexivity|].
    split; [by left|]. rewrite create_calls_pages, find_runs_pages. lia. }
  pose proof (create_effect fuel ipAddress
                (after_calls w (page_requests env 0 (S n1)))) as Hc.
  destruct (createTopicForIP remote env fuel ipAddress _)
    as [[[topicId|message] w2]|]; [| |exact Hc].
  - destruct Hc as (cs & -> & Hcs).
    destruct (create_stretch_counts _ _ Hcs) as [Hcc Hfr].
    exists topicId. split; [reflexivity|].
    exists (page_requests env 0 (S n1) ++ cs).
    cbn [calls ipToTopicMap after_calls].
    split; [by rewrite app_assoc|]. split; [by left|].
    rewrite create_calls_app, find_runs_app, create_calls_pages,
      find_runs_pages. lia.
  - destruct Hc as (cs & -> & Hcs).
    destruct (create_stretch_counts _ _ Hcs) as [Hcc Hfr].
    destruct (str_truthy message && includes (js "already exists") message);
      cbn beta iota.
    + step_find fuel ipAddress; [|by eexists].
      rename x into id3, x0 into n3.
      destruct (truthy id3); cbn beta iota.
      * exists id3. split; [reflexivity|].
        exists (page_requests env 0 (S n1) ++ cs
                ++ page_requests env 0 (S n3)).
        cbn [calls ipToTopicMap after_calls].
        split; [by rewrite !app_assoc|]. split; [by left|].
        rewrite !create_calls_app, !find_runs_app, !create_calls_pages,
          !find_runs_pages. lia.
      * exists Null. split; [reflexivity|].
        exists (page_requests env 0 (S n1) ++ cs
                ++ page_requests env 0 (S n3)).
        cbn [calls ipToTopicMap after_calls].
        split; [by rewrite !app_assoc|]. split; [by right|].
        rewrite !create_calls_app, !find_runs_app, !create_calls_pages,
          !find_runs_pages. lia.
    + exists Null. split; [reflexivity|].
      exists (page_requests env 0 (S n1) ++ cs).
      cbn [calls ipToTopicMap after_calls].
      split; [by rewrite app_assoc|]. split; [by right|].
      rewrite create_calls_app, find_runs_app, create_calls_pages,
        find_runs_pages. lia.
Qed.

Lemma resolve_returns (bound fuel : nat) (ipAddress : jsstring) (w : world) :
  paging_bounded remote env bound -> (bound <= fuel)%nat ->
  getOrCreateTopicForIP remote env fuel ipAddress w <> None.
Proof.
  intros Hb Hf Hnone. pose proof (resolve_effect fuel ipAddress w) as He.
  rewrite Hnone in He. destruct He as [w1 Hw1].
  by apply (find_returns bound fuel ipAddress w1).
Qed.


Lemma resolved_keeps_entries (ipAddress : jsstring) (w : world)
    (r : completion value) (w' : world) :
  resolved ipAddress w r w' ->
  forall k v, ipToTopicMap w !! k = Some v -> ipToTopicMap w' !! k = Some v.
Proof.
  intros (id & _ & Hcase) k v Hk.
  destruct (ipToTopicMap w !! ipAddress) as [cached|] eqn:Hcache.
  - by destruct Hcase as [_ ->].
  - destruct Hcase as (cs & _ & [Hmap|[_ Hmap]] & _); rewrite Hmap;
      [|exact Hk].
    rewrite lookup_insert_ne; [exact Hk|]. congruence.
Qed.

Lemma send_effect (chatId : option jsstring) (message : jsstring)
    (topicId : value) (w : world) :
  exists r thread,
    sendToTelegram remote chatId message topicId w
    = Some (r, after_calls w
                 [sendMessage chatId message (js "HTML") thread]).
Proof.
  unfold sendToTelegram, mbind, prog_bind, bind, fetch, lift, throw.
  cbn [calls ipToTopicMap]. unfold after_calls.
  destruct (remote _) as [e|response]; [by eexists _, _|].
  destruct (ok response); cbn [negb]; [by eexists _, _|].
  repeat case_match; simplify_eq; by eexists _, _.
Qed.

Lemma served_refl (req : request) (w : world) : served env req w w.
Proof. split; [done|]. intros _. split; [done|by left]. Qed.

Lemma handler_effect (clk : clock) (fuel : nat) (req : request) (w : world) :
  match handler remote env clk fuel req w with
  | None =>
    exists ipAddress w1,
      findExistingTopicForIP remote env fuel ipAddress w1 = None
  | Some (r, w') => (exists answer, r = Normal answer) /\ served env req w w'
  end.
Proof.
  unfold handler, respond.
  destruct (req_method req);
    try (split; [by eexists|apply served_refl]).
  unfold try_catch, throw, ret.
  destruct (negb _ || negb _);
    [split; [by eexists|apply served_refl]|].
  destruct (read_body (req_body req)) as [bad|userData];
    [split; [by eexists|apply served_refl]|].
  destruct (negb (truthy userData));
    [split; [by eexists|apply served_refl]|].
  unfold mbind, prog_bind, bind, cache_lookup, lift, ret.
  pose proof (resolve_effect fuel (ip_adresse req) w) as Hres.
  destruct (getOrCreateTopicForIP remote env fuel (ip_adresse req) w)
    as [[r w1]|]; [|destruct Hres as [w1 Hw1]; by eexists _, _].
  pose proof (resolved_keeps_entries _ _ _ _ Hres) as Hkeep.
  destruct Hres as (topicId & -> & Hcase).
  assert (Hhit : is_Some (ipToTopicMap w !! ip_adresse req) -> w1 = w).
  { intros [cached Hc]. rewrite Hc in Hcase. by destruct Hcase. }
  destruct (formatTelegramMessage _ _ _) as [message|e].
  - destruct (send_effect (TELEGRAM_CHAT_ID env) message topicId w1)
      as (r & thread & ->).
    assert (Hserved : served env req w
              (after_calls w1 [sendMessage (TELEGRAM_CHAT_ID env) message
                                 (js "HTML") thread])).
    { split; [exact Hkeep|]. intros Hsome. rewrite (Hhit Hsome).
      split; [reflexivity|]. right. by eexists _, _. }
    destruct r; (split; [by eexists|exact Hserved]).
  - split; [by eexists|]. split; [exact Hkeep|].
    intros Hsome. rewrite (Hhit Hsome). split; [reflexivity|by left].
Qed.


Lemma cache_hit (fuel : nat) (ipAddress : jsstring) (w : world)
    (id : value) :
  ipToTopicMap w !! ipAddress = Some id ->
  getOrCreateTopicForIP remote env fuel ipAddress w = Some (Normal id, w).
Proof.
  intros Hc. unfold getOrCreateTopicForIP, mbind, prog_bind, bind,
    cache_lookup, ret.
  by rewrite Hc.
Qed.


(** *** A create call refused with "already exists" *)

Lemma already_exists_is_truthy (description : jsstring) :
  includes (js "already exists") description = true ->
  str_truthy description = true.
Proof. by destruct description. Qed.

(** What [createTopicForIP] does when the create call is refused with a
    description that contains "already exists": it runs the find, returns
    the id when it is truthy, and throws otherwise. *)
Lemma create_refused (fuel : nat) (ipAddress : jsstring) (w : world)
    (response : api_response) (props : list (jsstring * value))
    (description : jsstring) :
  remote (calls w ++ [createForumTopic (TELEGRAM_CHAT_ID env)
                        (js "IP: " ++ ipAddress) 7322096])
  = Fulfilled response ->
  ok response = false ->
  json response = Normal (Obj props) ->
  own props (js "description") = Str description ->
  includes (js "already exists") description = true ->
  createTopicForIP remote env fuel ipAddress w
  = match findExistingTopicForIP remote env fuel ipAddress
            (after_calls w [createForumTopic (TELEGRAM_CHAT_ID env)
                              (js "IP: " ++ ipAddress) 7322096])
    with
    | None => None
    | Some (Throw message, w2) => Some (Throw message, w2)
    | Some (Normal id2, w2) =>
      if truthy id2 then Some (Normal id2, w2)
      else if match own props (js "error_code") with
              | Num n => num_is n 400
              | _ => false
              end
      then Some (Throw (js "Topics ikke støttet - sjekk at gruppen er en supergruppe med topics aktivert"), w2)
      else Some (Throw (js "Kunne ikke opprette topic: " ++ description), w2)
    end.
Proof.
  intros Hremote Hok Hjson Hdesc Hinc.
  pose proof (already_exists_is_truthy _ Hinc) as Htruthy.
  unfold createTopicForIP, mbind, prog_bind, bind, fetch, lift, throw, ret.
  cbn [calls ipToTopicMap]. rewrite Hremote, Hok, Hjson. cbn [negb Get].
  rewrite Hdesc. cbn [truthy includes_already_exists].
  rewrite Htruthy, Hinc. unfold after_calls.
  destruct (findExistingTopicForIP remote env fuel ipAddress _)
    as [[[id2|message] w2]|]; [|reflexivity|reflexivity].
  cbn [andb]. destruct (truthy id2); [reflexivity|].
  destruct (match own props (js "error_code") with
            | Num n => num_is n 400
            | _ => false
            end); [reflexivity|].
  unfold or_else. cbn [truthy]. rewrite Htruthy. reflexivity.
Qed.

(** C4 (amended). When the paging of the remote listing is bounded, a
    resolution returns, and it never throws: its result is an id that is
    now cached, or null with the cache as it was.  On a cache miss it
    makes at most one create call and between one and three runs of the
    remote find.  When the first find gives nothing and the create call is
    refused with a description that contains "already exists", the find
    is run again inside [createTopicForIP]; an id found there is stored
    and returned.  Otherwise, unless the error code is 400, the error
    that reaches the [catch] still says "already exists" and the find is
    run once more there: an id found is stored and returned, and if the
    thread is still not found the result is null, with the cache as it
    was.  With the error code 400 the result is null after the one
    re-run. *)
Theorem resolution_never_throws :
  forall (bound fuel : nat) (ipAddress : jsstring) (w : world),
    paging_bounded remote env bound ->
    (bound <= fuel)%nat ->
    (exists id w',
       getOrCreateTopicForIP remote env fuel ipAddress w
       = Some (Normal id, w')
       /\ resolved ipAddress w (Normal id) w')
    /\ (forall (n1 : nat) (id1 : value) (response : api_response)
               (props : list (jsstring * value)) (description : jsstring),
          ipToTopicMap w !! ipAddress = None ->
          findExistingTopicForIP remote env fuel ipAddress w
          = Some (Normal id1, after_calls w (page_requests env 0 (S n1))) ->
          truthy id1 = false ->
          remote (calls w ++ page_requests env 0 (S n1)
                  ++ [createForumTopic (TELEGRAM_CHAT_ID env)
                        (js "IP: " ++ ipAddress) 7322096])
          = Fulfilled response ->
          ok response = false ->
          json response = Normal (Obj props) ->
          own props (js "description") = Str description ->
          includes (js "already exists") description = true ->
          exists (n2 : nat) (id2 : value),
            let log2 :=
              page_requests env 0 (S n1)
              ++ createForumTopic (TELEGRAM_CHAT_ID env)
                   (js "IP: " ++ ipAddress) 7322096
                 :: page_requests env 0 (S n2) in
            findExistingTopicForIP remote env fuel ipAddress
              (after_calls w
                 (page_requests env 0 (S n1)
                  ++ [createForumTopic (TELEGRAM_CHAT_ID env)
                        (js "IP: " ++ ipAddress) 7322096]))
            = Some (Normal id2, after_calls w log2)
            /\ if truthy id2 then
                 getOrCreateTopicForIP remote env fuel ipAddress w
                 = Some (Normal id2,
                         {| ipToTopicMap :=
                              <[ipAddress := id2]> (ipToTopicMap w);
                            calls := calls w ++ log2 |})
               else if match own props (js "error_code") with
                       | Num n => num_is n 400
                       | _ => false
                       end
               then
                 getOrCreateTopicForIP remote env fuel ipAddress w
                 = Some (Normal Null, after_calls w log2)
               else
                 exists (n3 : nat) (id3 : value),
                   let log3 := log2 ++ page_requests env 0 (S n3) in
                   findExistingTopicForIP remote env fuel ipAddress
                     (after_calls w log2)
                   = Some (Normal id3, after_calls w log3)
                   /\ getOrCreateTopicForIP remote env fuel ipAddress w
                      = Some (if truthy id3
                              then (Normal id3,
                                    {| ipToTopicMap :=
                                         <[ipAddress := id3]>
                                           (ipToTopicMap w);
                                       calls := calls w ++ log3 |})
                              else (Normal Null, after_calls w log3))).
Proof.
  intros bound fuel ip w Hb Hf. split.
  - pose proof (resolve_effect fuel ip w) as He.
    pose proof (resolve_returns bound fuel ip w Hb Hf) as Hsome.
    destruct (getOrCreateTopicForIP remote env fuel ip w) as [[r w']|];
      [|done].
    destruct He as (id & -> & Hcase). exists id, w'.
    split; [reflexivity|]. by exists id.
  - intros n1 id1 response props description Hmiss Hfind1 Hfalsy Hremote
      Hok Hjson Hdesc Hinc.
    set (create := createForumTopic (TELEGRAM_CHAT_ID env)
                     (js "IP: " ++ ip) 7322096) in *.
    set (w1 := after_calls w (page_requests env 0 (S n1))) in *.
    assert (Hcreate := create_refused fuel ip w1 response props description).
    fold create in Hcreate. cbn [w1 after_calls calls] in Hcreate.
    rewrite <- app_assoc in Hcreate.
    specialize (Hcreate Hremote Hok Hjson Hdesc Hinc).
    assert (Hw2 : after_calls w1 [create]
                  = after_calls w (page_requests env 0 (S n1) ++ [create])).
    { unfold w1. by rewrite after_calls_app. }
    fold w1 in Hcreate. 
    change {| ipToTopicMap := ipToTopicMap w;
              calls := calls w ++ page_requests env 0 (S n1) |}
      with w1 in Hcreate.
    rewrite Hw2 in Hcreate.
    (* the re-run inside createTopicForIP *)
    pose proof (find_returns bound fuel ip
                  (after_calls w (page_requests env 0 (S n1) ++ [create]))
                  Hb Hf) as Hsome2.
    pose proof (find_effect fuel ip
                  (after_calls w (page_requests env 0 (S n1) ++ [create])))
      as Heff2.
    destruct (findExistingTopicForIP remote env fuel ip
                (after_calls w (page_requests env 0 (S n1) ++ [create])))
      as [[r2 w2]|] eqn:Hfind2; [|done].
    destruct Heff2 as (id2 & n2 & -> & ->).
    rewrite after_calls_app, <- app_assoc in Hcreate |- *. cbn [app] in *.
    exists n2, id2. cbn zeta. split; [reflexivity|].
    unfold getOrCreateTopicForIP, mbind, prog_bind, bind, cache_lookup,
      cache_set, try_catch, ret.
    rewrite Hmiss, Hfind1, Hfalsy. fold w1. rewrite Hcreate.
    destruct (truthy id2); [reflexivity|].
    destruct (match own props (js "error_code") with
              | Num n => num_is n 400
              | _ => false
              end).
    + assert (Hno : includes (js "already exists")
                      (js "Topics ikke støttet - sjekk at gruppen er en supergruppe med topics aktivert")
                    = false) by (vm_compute; reflexivity).
      rewrite Hno, andb_false_r. reflexivity.
    + assert (Hyes : str_truthy (js "Kunne ikke opprette topic: "
                                 ++ description)
                     && includes (js "already exists")
                          (js "Kunne ikke opprette topic: " ++ description)
                     = true).
      { rewrite (includes_suffix _ _ _ Hinc), andb_true_r.
        by destruct description. }
      rewrite Hyes.
      (* the re-run in the catch *)
      set (log2 := page_requests env 0 (S n1)
                   ++ create :: page_requests env 0 (S n2)) in *.
      pose proof (find_returns bound fuel ip (after_calls w log2) Hb Hf)
        as Hsome3.
      pose proof (find_effect fuel ip (after_calls w log2)) as Heff3.
      destruct (findExistingTopicForIP remote env fuel ip
                  (after_calls w log2)) as [[r3 w3]|] eqn:Hfind3; [|done].
      destruct Heff3 as (id3 & n3 & -> & ->).
      rewrite after_calls_app.
      exists n3, id3. split; [reflexivity|].
      by destruct (truthy id3).
Qed.

End VariantB_proofs.

Lemma paging_ends_at_a_stopping_page_witness :
  VariantB.findExistingTopicForIP two_page_forum configuredB 2
    (js "198.51.100.4") fresh
  = Some (Normal (@Num numbers 7),
          VariantB.after_calls fresh
            (VariantB.page_requests configuredB 0 2)).
Proof.
  destruct (@paging_ends_at_a_stopping_page numbers builtins two_page_forum
              configuredB (js "198.51.100.4") fresh 1%nat eq_refl)
    as [_ Hpage].
  assert (Hcont : forall i, (i < 1)%nat ->
            VariantB.page_continues (js "IP: " ++ js "198.51.100.4")
              (two_page_forum
                 (VariantB.calls fresh
                  ++ VariantB.page_requests configuredB 0 (S i)))).
  { intros i Hi. assert (i = 0%nat) as -> by lia.
    exists (listing (repeat topic_of_another_address 100)).
    eexists _, (repeat topic_of_another_address 100).
    split; [reflexivity|]. split; [reflexivity|]. split; [reflexivity|].
    split; [reflexivity|]. split; [rewrite repeat_length; lia|].
    apply Forall_forall. intros topic Hin.
    apply list_elem_of_In, repeat_spec in Hin. subst topic.
    eexists. split; reflexivity. }
  destruct (Hpage 1%nat Hcont 2%nat) as [_ Hnamed]; [lia|].
  apply (Hnamed topic_of_sample_address (@Num numbers 7)).
  exists (listing [topic_of_another_address; topic_of_sample_address]).
  eexists _, [topic_of_another_address], [].
  split; [reflexivity|]. split; [reflexivity|]. split; [reflexivity|].
  split; [reflexivity|]. split; [|split; reflexivity].
  constructor; [|constructor]. eexists. split; reflexivity.
Defined.

(** The sample forum answers every listing with one short page. *)
Lemma forum_paging_bounded :
  VariantB.paging_bounded (forum []) configuredB 1.
Proof.
  intros history. exists 0%nat. split; [lia|].
  rewrite (page_requests_1 configuredB). unfold forum.
  rewrite last_snoc. reflexivity.
Qed.

Lemma resolution_never_throws_witness :
  let ip := js "198.51.100.4" in
  let chat := VariantB.TELEGRAM_CHAT_ID configuredB in
  let create := VariantB.createForumTopic chat (js "IP: " ++ ip) 7322096 in
  let props := [(js "ok", Bool false);
                (js "error_code", @Num numbers 409);
                (js "description",
                 Str (js "Conflict: topic already exists"))] in
  (exists id w',
     VariantB.getOrCreateTopicForIP (forum []) configuredB 1 ip fresh
     = Some (Normal id, w')
     /\ VariantB.resolved ip fresh (Normal id) w')
  /\ exists (n2 : nat) (id2 : value),
       let log2 :=
         VariantB.page_requests configuredB 0 1
         ++ create :: VariantB.page_requests configuredB 0 (S n2) in
       VariantB.findExistingTopicForIP (forum []) configuredB 1 ip
         (VariantB.after_calls fresh
            (VariantB.page_requests configuredB 0 1 ++ [create]))
       = Some (Normal id2, VariantB.after_calls fresh log2)
       /\ if truthy id2 then
            VariantB.getOrCreateTopicForIP (forum []) configuredB 1 ip fresh
            = Some (Normal id2,
                    {| VariantB.ipToTopicMap :=
                         <[ip := id2]> (VariantB.ipToTopicMap fresh);
                       VariantB.calls := VariantB.calls fresh ++ log2 |})
          else if match own props (js "error_code") with
                  | Num n => num_is n 400
                  | _ => false
                  end
          then
            VariantB.getOrCreateTopicForIP (forum []) configuredB 1 ip fresh
            = Some (Normal Null, VariantB.after_calls fresh log2)
          else
            exists (n3 : nat) (id3 : value),
              let log3 :=
                log2 ++ VariantB.page_requests configuredB 0 (S n3) in
              VariantB.findExistingTopicForIP (forum []) configuredB 1 ip
                (VariantB.after_calls fresh log2)
              = Some (Normal id3, VariantB.after_calls fresh log3)
              /\ VariantB.getOrCreateTopicForIP (forum []) configuredB 1 ip
                   fresh
                 = Some (if truthy id3
                         then (Normal id3,
                               {| VariantB.ipToTopicMap :=
                                    <[ip := id3]>
                                      (VariantB.ipToTopicMap fresh);
                                  VariantB.calls :=
                                    VariantB.calls fresh ++ log3 |})
                         else (Normal Null,
                               VariantB.after_calls fresh log3)).
Proof.
  intros ip chat create props.
  destruct (@resolution_never_throws numbers builtins (forum []) configuredB
              1%nat 1%nat ip fresh forum_paging_bounded (le_n 1))
    as [Hreturns Hrerun].
  split; [exact Hreturns|].
  apply (Hrerun 0%nat Null conflict props
           (js "Conflict: topic already exists"));
    reflexivity.
Defined.

(** C4 as stated fails: the forum lists no topic and answers the create
    call with "Conflict: topic already exists" and the error code 409.
    The find is then run three times in all, the first look-up and two
    re-runs, before null is returned. *)
Lemma already_exists_reruns_the_find_twice :
  let chat := VariantB.TELEGRAM_CHAT_ID configuredB in
  let log := [VariantB.getForumTopics chat 0 100;
              VariantB.createForumTopic chat (js "IP: 198.51.100.4") 7322096;
              VariantB.getForumTopics chat 0 100;
              VariantB.getForumTopics chat 0 100] in
  VariantB.getOrCreateTopicForIP (forum []) configuredB 1
    (js "198.51.100.4") fresh
  = Some (Normal Null, VariantB.after_calls fresh log)
  /\ VariantB.find_runs log = 3%nat.
Proof. split; reflexivity. Qed.


(* ===================================================================== *)
(** * Further properties of the three handlers                            *)
(* ===================================================================== *)

(** ** Splitting and trimming *)

Lemma first_piece_no_separator (sep : Z) (s : jsstring) :
  ~ In sep (first_piece (split sep s)).
Proof.
  induction s as [|c r IH]; simpl; [tauto|].
  destruct (c =? sep) eqn:E; simpl; [tauto|].
  destruct (split sep r) as [|h t] eqn:Es; simpl in *.
  - intros [->|[]]. by rewrite Z.eqb_refl in E.
  - intros [->|Hin]; [by rewrite Z.eqb_refl in E|tauto].
Qed.

Lemma split_no_separator (sep : Z) (s piece : jsstring) :
  In piece (split sep s) -> ~ In sep piece.
Proof.
  revert piece. induction s as [|c r IH]; intros piece; simpl.
  - intros [<-|[]]. tauto.
  - destruct (c =? sep) eqn:E.
    + intros [<-|Hin]; [simpl; tauto|by apply IH].
    + destruct (split sep r) as [|h t] eqn:Es.
      * intros [<-|[]]. intros [->|[]]. by rewrite Z.eqb_refl in E.
      * intros [<-|Hin].
        -- intros [->|Hh]; [by rewrite Z.eqb_refl in E|].
           by apply (IH h); [left|].
        -- apply IH. by right.
Qed.

Lemma trim_start_suffix (s : jsstring) :
  exists pre, s = pre ++ trim_start s
              /\ Forall (fun c => is_white_space c = true) pre.
Proof.
  induction s as [|c r (pre & IH & Hpre)]; simpl.
  - by exists [].
  - destruct (is_white_space c) eqn:E.
    + exists (c :: pre). split; [simpl; congruence|by constructor].
    + by exists [].
Qed.

Lemma trim_start_In (c : Z) (s : jsstring) : In c (trim_start s) -> In c s.
Proof.
  destruct (trim_start_suffix s) as (pre & E & _). intros Hin.
  rewrite E. apply in_or_app. by right.
Qed.

Lemma trim_In (c : Z) (s : jsstring) : In c (trim s) -> In c s.
Proof.
  unfold trim, trim_end. intros Hin.
  apply in_rev in Hin. apply trim_start_In in Hin.
  apply in_rev in Hin. by apply trim_start_In.
Qed.

Lemma trim_start_head (s : jsstring) (c : Z) :
  head (trim_start s) = Some c -> is_white_space c = false.
Proof.
  induction s as [|a r IH]; simpl; [done|].
  destruct (is_white_space a) eqn:E; [done|].
  simpl. by intros [= <-].
Qed.

Lemma trim_start_fixed (s : jsstring) :
  match s with [] => True | c :: _ => is_white_space c = false end ->
  trim_start s = s.
Proof. destruct s as [|c r]; simpl; [done|]. by intros ->. Qed.

Lemma head_rev_last {A : Type} (l : list A) : head (rev l) = last l.
Proof.
  induction l as [|a l IH]; [done|].
  simpl. rewrite last_cons. destruct (rev l) as [|b m] eqn:E; simpl in *.
  - by rewrite <- IH.
  - by rewrite <- IH.
Qed.

Lemma trim_last (s : jsstring) (c : Z) :
  last (trim s) = Some c -> is_white_space c = false.
Proof.
  unfold trim, trim_end. rewrite <- head_rev_last, rev_involutive.
  apply trim_start_head.
Qed.

(** Trimming the end keeps a head that is no white space. *)
Lemma trim_end_head (s : jsstring) (c : Z) :
  head s = Some c -> is_white_space c = false ->
  head (trim_end s) = Some c.
Proof.
  unfold trim_end. intros Hh Hc.
  destruct s as [|a r]; [done|]. simpl in Hh. injection Hh as ->.
  simpl rev.
  destruct (trim_start_suffix (rev r ++ [c])) as (pre & E & Hpre).
  assert (Hne : trim_start (rev r ++ [c]) <> []).
  { intros Hnil. rewrite Hnil, app_nil_r in E.
    rewrite <- E in Hpre. apply Forall_app in Hpre as [_ Hpre].
    apply Forall_inv in Hpre. congruence. }
  assert (Hl : last (trim_start (rev r ++ [c])) = Some c).
  { assert (H1 : last (rev r ++ [c]) = Some c) by apply last_snoc.
    rewrite E in H1. rewrite last_app in H1.
    destruct (last (trim_start (rev r ++ [c]))) eqn:El; [done|].
    apply last_None in El. done. }
  by rewrite head_rev_last.
Qed.

Lemma trim_head (s : jsstring) (c : Z) :
  head (trim s) = Some c -> is_white_space c = false.
Proof.
  unfold trim. intros Hh.
  destruct (trim_start s) as [|a r] eqn:E.
  - done.
  - assert (Ha : is_white_space a = false).
    { apply (trim_start_head s). by rewrite E. }
    rewrite (trim_end_head (a :: r) a) in Hh by done. by injection Hh as <-.
Qed.

Lemma trim_idempotent (s : jsstring) : trim (trim s) = trim s.
Proof.
  unfold trim at 1.
  assert (H1 : trim_start (trim s) = trim s).
  { apply trim_start_fixed. destruct (trim s) as [|c r] eqn:E; [done|].
    apply (trim_head s). by rewrite E. }
  rewrite H1. unfold trim_end.
  assert (H2 : trim_start (rev (trim s)) = rev (trim s)).
  { apply trim_start_fixed. destruct (rev (trim s)) as [|c r] eqn:E; [done|].
    apply (trim_last s). by rewrite <- head_rev_last, E. }
  by rewrite H2, rev_involutive.
Qed.

(** ** The client address *)

Section Addresses.
Context `{Numbers}.

Lemma opt_or_nonempty (a : option jsstring) (b : jsstring) :
  b <> [] -> opt_or a b <> [].
Proof.
  intros Hb. destruct a as [[|c s]|]; simpl; [done|discriminate|done].
Qed.

(** X1. The address that [api/ip.js] reports and the one Variant A files
    the message under are never the empty string: the chain of [||] ends
    in a non-empty literal.  Variant B tests the raw header instead of
    the trimmed first value, so its address is empty exactly when
    [x-forwarded-for] is a non-empty string whose first comma-separated
    value is blank. *)
Theorem client_address_is_never_empty :
  forall req : request,
    IpEndpoint.ip req <> []
    /\ VariantA.clientIp req <> []
    /\ (VariantB.ip_adresse req = [] <->
        exists h, x_forwarded_for req = Some h /\ h <> []
                  /\ trim (first_piece (split 44 h)) = []).
Proof.
  intros req.
  assert (Hs : forall s, s <> [] ->
            opt_or (x_real_ip req) (opt_or (remoteAddress req) s) <> []).
  { intros s Hs. by do 2 apply opt_or_nonempty. }
  split; [|split].
  - unfold IpEndpoint.ip. apply opt_or_nonempty, Hs. discriminate.
  - unfold VariantA.clientIp. apply opt_or_nonempty, Hs. discriminate.
  - unfold VariantB.ip_adresse.
    destruct (x_forwarded_for req) as [[|c h]|] eqn:E;
      cbn [opt_truthy str_truthy opt_or].
    + split; [intros Hnil; by apply Hs in Hnil|].
      by intros (h & [= <-] & Hne & _).
    + split; [intros Hnil; by exists (c :: h)|].
      by intros (h' & [= <-] & _ & Ht).
    + split; [intros Hnil; by apply Hs in Hnil|].
      by intros (h & Hh & _).
Qed.

(** X2. The value taken from [x-forwarded-for] is the first
    comma-separated piece, trimmed: it holds no comma, trimming it again
    changes nothing, and neither its first nor its last code unit is white
    space.  When it is not empty, all three handlers use it. *)
Theorem forwarded_address_shape :
  forall (req : request) (a : jsstring),
    forwarded_first req = Some a ->
    ~ In 44 a
    /\ trim a = a
    /\ (forall c, head a = Some c -> is_white_space c = false)
    /\ (forall c, last a = Some c -> is_white_space c = false)
    /\ (a <> [] ->
        IpEndpoint.ip req = a /\ VariantA.clientIp req = a
        /\ VariantB.ip_adresse req = a).
Proof.
  intros req a. unfold forwarded_first.
  destruct (x_forwarded_for req) as [h|] eqn:E; [|done].
  cbn [option_map]. intros [= <-].
  split; [|split; [|split; [|split]]].
  - intros Hin. apply trim_In in Hin.
    by apply first_piece_no_separator in Hin.
  - apply trim_idempotent.
  - apply trim_head.
  - apply trim_last.
  - intros Hne.
    unfold IpEndpoint.ip, VariantA.clientIp, VariantB.ip_adresse.
    rewrite E. cbn [option_map opt_or opt_truthy].
    destruct (trim (first_piece (split 44 h))) as [|c r] eqn:Et; [done|].
    cbn [str_truthy].
    destruct h as [|c0 h0]; [done|].
    cbn [str_truthy]. by rewrite Et.
Qed.

End Addresses.

Lemma forwarded_address_shape_witness :
  let req := {| req_method := POST;
                x_forwarded_for := Some (js " 203.0.113.7 , 10.0.0.1");
                x_real_ip := Some (js "10.0.0.2");
                remoteAddress := None;
                req_body := Undefined |} in
  let a := js "203.0.113.7" in
  ~ In 44 a
  /\ trim a = a
  /\ (forall c, head a = Some c -> is_white_space c = false)
  /\ (forall c, last a = Some c -> is_white_space c = false)
  /\ (a <> [] ->
      IpEndpoint.ip req = a /\ VariantA.clientIp req = a
      /\ VariantB.ip_adresse req = a).
Proof.
  intros req a. apply (@forwarded_address_shape numbers req a). reflexivity.
Defined.

(** ** The checks before any work *)

Section Gates.
Context `{Builtins}.

(** X4. With both credentials set, a POST whose body is a string that
    [JSON.parse] rejects is answered 400 by both relays, with the error
    [Invalid JSON in request body] and the parser's message; no call is
    made and the process of Variant B is left as it was. *)
Theorem unparseable_body_gives_400 :
  forall (token chat ip_topic_map : option jsstring)
         (clkA : VariantA.clock)
         (fetchA : VariantA.send_message -> VariantA.fetch_result)
         (remote : list VariantB.call -> VariantB.fetch_result)
         (clkB : VariantB.clock) (fuel : nat)
         (req : request) (w : VariantB.world) (text message : jsstring),
    req_method req = POST ->
    opt_truthy token = true ->
    opt_truthy chat = true ->
    req_body req = Str text ->
    JSON_parse text = Throw message ->
    let bad_request :=
      {| status := 400;
         json_body := Some [(js "error", Str (js "Invalid JSON in request body"));
                            (js "message", Str message)] |} in
    VariantA.handler
      {| VariantA.TELEGRAM_BOT_TOKEN := token;
         VariantA.TELEGRAM_CHAT_ID := chat;
         VariantA.IP_TOPIC_MAP := ip_topic_map |} clkA fetchA req
    = (bad_request, [])
    /\ VariantB.handler remote
         {| VariantB.TELEGRAM_BOT_TOKEN := token;
            VariantB.TELEGRAM_CHAT_ID := chat |} clkB fuel req w
       = Some (Normal bad_request, w).
Proof.
  intros token chat m clkA fetchA remote clkB fuel req w text message
    Hm Ht Hc Hb Hp.
  unfold VariantA.handler, VariantB.handler, VariantB.try_catch.
  rewrite Hm. cbn [VariantA.TELEGRAM_BOT_TOKEN VariantA.TELEGRAM_CHAT_ID
                   VariantB.TELEGRAM_BOT_TOKEN VariantB.TELEGRAM_CHAT_ID].
  rewrite Ht, Hc. cbn [negb orb].
  unfold VariantA.read_body, VariantB.read_body. rewrite Hb, Hp.
  split; reflexivity.
Qed.

End Gates.

Lemma unparseable_body_gives_400_witness :
  let bad_request :=
    {| status := 400;
       json_body := Some [(js "error", Str (js "Invalid JSON in request body"));
                          (js "message", Str (js "Unexpected token"))] |} in
  VariantA.handler configuredA clockA offlineA (post (Str (js "{oops")))
  = (bad_request, [])
  /\ VariantB.handler offlineB configuredB clockB 0
       (post (Str (js "{oops"))) fresh
     = Some (Normal bad_request, fresh).
Proof.
  apply (@unparseable_body_gives_400 numbers builtins
           (Some (js "123:abc")) (Some (js "-1001")) None clockA offlineA
           offlineB clockB 0 (post (Str (js "{oops"))) fresh (js "{oops")
           (js "Unexpected token"));
    reflexivity.
Defined.

(** ** Variant A: which topic an address gets *)

Section VariantA_fallback.
Import VariantA.

Lemma override_pair_key (mapping ipAddr topicId : jsstring) :
  override_pair mapping = Some (ipAddr, topicId) -> ~ In 58 ipAddr.
Proof.
  unfold override_pair.
  destruct (split 58 mapping) as [|p [|q rest]] eqn:E; [done|done|].
  cbn [map]. destruct (str_truthy (trim p) && str_truthy (trim q)); [|done].
  intros [= <- <-] Hin. apply trim_In in Hin.
  apply (split_no_separator 58 mapping p); [|done].
  rewrite E. by left.
Qed.

Lemma override_table_keys (IP_TOPIC_MAP : option jsstring)
    (e : jsstring * jsstring) :
  In e (override_table IP_TOPIC_MAP) -> ~ In 58 e.1.
Proof.
  unfold override_table. intros Hin.
  apply list_elem_of_In, list_elem_of_omap in Hin as (mapping & _ & Hp).
  destruct e as [k t]. by apply override_pair_key in Hp.
Qed.

Lemma no_colon_in_prototype_names (name : jsstring) :
  In name Object_prototype_names -> ~ In 58 name.
Proof.
  assert (Hall : Forall (fun n => forallb (fun c => negb (c =? 58)) n = true)
                   Object_prototype_names).
  { repeat constructor. }
  intros Hin Hc. rewrite Forall_forall in Hall.
  apply list_elem_of_In, Hall in Hin.
  rewrite forallb_forall in Hin. apply Hin in Hc.
  by rewrite Z.eqb_refl in Hc.
Qed.

Lemma topic_is_truthy (IP_TOPIC_MAP : option jsstring) (ip : jsstring) :
  topic_truthy (getTopicIdForIP IP_TOPIC_MAP ip) = true.
Proof.
  unfold getTopicIdForIP.
  destruct (property_truthy (get_mapping (parse_mappings IP_TOPIC_MAP) ip))
    eqn:E; cbn [topic_truthy number_truthy]; [done|].
  pose proof (generated_topic_id_range ip).
  apply negb_true_iff, Z.eqb_neq. lia.
Qed.

(** X5. The key of an override is the text before the first colon of its
    pair, so an address that contains a colon (every IPv6 address) is
    never a key of the table: whatever [IP_TOPIC_MAP] holds, such an
    address has no override and gets the topic derived from its hash. *)
Theorem address_with_colon_is_hashed :
  forall (IP_TOPIC_MAP : option jsstring) (ip : jsstring),
    In 58 ip ->
    overridden_id IP_TOPIC_MAP ip = None
    /\ getTopicIdForIP IP_TOPIC_MAP ip = Generated (generated_topic_id ip).
Proof.
  intros m ip Hc.
  assert (Hp : ip <> js "__proto__").
  { intros ->. revert Hc. apply no_colon_in_prototype_names.
    unfold Object_prototype_names. do 10 right. by left. }
  assert (Hnone : overridden_id m ip = None).
  { unfold overridden_id.
    pose proof (override_table_keys m) as Hk.
    assert (Hf : filter (fun e => e.1 = ip) (override_table m) = []).
    { induction (override_table m) as [|e l IH]; [done|].
      rewrite filter_cons, IH by (intros e' He'; apply Hk; by right).
      destruct (decide (e.1 = ip)) as [<-|]; [|done].
      exfalso. apply (Hk e); [by left|done]. }
    by rewrite Hf. }
  split; [done|].
  unfold getTopicIdForIP, get_mapping.
  rewrite (parse_mappings_lookup m ip Hp), Hnone.
  assert (Hn : existsb (str_eqb ip) Object_prototype_names = false).
  { apply not_true_is_false. intros Hex.
    apply existsb_exists in Hex as (name & Hin & Heq).
    apply str_eqb_eq in Heq as <-.
    by apply no_colon_in_prototype_names in Hin. }
  by rewrite Hn.
Qed.

Lemma address_with_colon_is_hashed_witness :
  overridden_id (Some (js "2001:db8::1:42")) (js "2001:db8::1") = None
  /\ getTopicIdForIP (Some (js "2001:db8::1:42")) (js "2001:db8::1")
     = Generated (generated_topic_id (js "2001:db8::1")).
Proof.
  apply address_with_colon_is_hashed. vm_compute. tauto.
Defined.

(** X6. [getTopicIdForIP] never returns a falsy topic: an override is
    returned only when it is truthy, and a generated id is at least
    100000.  The branch of the handler that sends without
    [message_thread_id] (to the default channel) is therefore never
    taken. *)
Theorem topic_is_never_falsy :
  forall (IP_TOPIC_MAP : option jsstring) (ip : jsstring),
    topic_truthy (getTopicIdForIP IP_TOPIC_MAP ip) = true
    /\ match getTopicIdForIP IP_TOPIC_MAP ip with
       | Generated topicId => 100000 <= topicId <= 999999
       | FromMapping p => property_truthy p = true
       end.
Proof.
  intros m ip. split; [apply topic_is_truthy|].
  unfold getTopicIdForIP.
  destruct (property_truthy (get_mapping (parse_mappings m) ip)) eqn:E;
    [exact E|apply generated_topic_id_range].
Qed.

End VariantA_fallback.

(** ** Printing and parsing integers *)

Lemma decimal_digits_spec (fuel : nat) :
  forall (n : Z) (acc : jsstring),
    0 <= n < 2 ^ Z.of_nat (S fuel) ->
    exists ds,
      decimal_digits (S fuel) n acc = ds ++ acc
      /\ ds <> []
      /\ Forall is_decimal_digit ds
      /\ fold_left (fun a c => a * 10 + (c - 48)) ds 0 = n.
Proof.
  induction fuel as [|fuel IH]; intros n acc Hn.
  - assert (n = 0 \/ n = 1) as [-> | ->] by (simpl in Hn; lia).
    + exists [48]. repeat split; [done|].
      constructor; [unfold is_decimal_digit; lia|constructor].
    + exists [49]. repeat split; [done|].
      constructor; [unfold is_decimal_digit; lia|constructor].
  - remember (S fuel) as f eqn:Ef. cbn [decimal_digits].
    pose proof (Z.mod_pos_bound n 10 ltac:(lia)) as Hm.
    destruct (n <? 10) eqn:E.
    + apply Z.ltb_lt in E. exists [48 + n mod 10]. repeat split.
      * done.
      * constructor; [unfold is_decimal_digit; lia|constructor].
      * simpl. rewrite Z.mod_small by lia. lia.
    + apply Z.ltb_ge in E. subst f.
      destruct (IH (n / 10) ((48 + n mod 10) :: acc))
        as (ds & E1 & _ & Hd & Hv).
      { split; [apply Z.div_pos; lia|].
        apply Z.div_lt_upper_bound; [lia|].
        rewrite (Nat2Z.inj_succ (S fuel)), Z.pow_succ_r in Hn by lia. lia. }
      exists (ds ++ [48 + n mod 10]). repeat split.
      * by rewrite E1, <- app_assoc.
      * by destruct ds.
      * apply Forall_app. split; [done|].
        constructor; [unfold is_decimal_digit; lia|constructor].
      * rewrite fold_left_app, Hv. simpl.
        pose proof (Z.div_mod n 10 ltac:(lia)). lia.
Qed.

Lemma radix_digits_decimal (ds : jsstring) :
  Forall is_decimal_digit ds ->
  radix_digits 10 ds = map (fun c => c - 48) ds.
Proof.
  induction 1 as [|c ds Hc _ IH]; [done|].
  unfold is_decimal_digit in Hc. cbn [radix_digits map]. unfold digit_value.
  replace ((48 <=? c) && (c <=? 57)) with true
    by (symmetry; apply andb_true_iff; split; apply Z.leb_le; lia).
  replace (c - 48 <? 10) with true by (symmetry; apply Z.ltb_lt; lia).
  by rewrite IH.
Qed.

Lemma digits_value_decimal (ds : jsstring) :
  digits_value 10 (map (fun c => c - 48) ds)
  = fold_left (fun a c => a * 10 + (c - 48)) ds 0.
Proof.
  unfold digits_value. generalize 0.
  induction ds as [|c ds IH]; intros a; [done|]. simpl. by rewrite IH.
Qed.

Lemma digit_is_no_white_space (c : Z) :
  is_decimal_digit c -> is_white_space c = false.
Proof.
  unfold is_decimal_digit, is_white_space. intros Hc.
  repeat (apply orb_false_iff; split);
    first [apply Z.eqb_neq; lia
          | apply andb_false_iff; first [left; apply Z.leb_gt; lia
                                        | right; apply Z.leb_gt; lia]].
Qed.

Lemma number_of_int_exact (z : Z) :
  Z.abs z < 2 ^ 53 -> number_of_int z = Fin z.
Proof.
  intros Hz. unfold number_of_int, round_magnitude.
  replace (Z.abs z <? 2 ^ 53) with true by (symmetry; apply Z.ltb_lt; lia).
  assert (H53 : 2 ^ 53 <= 2 ^ 1024) by (apply Z.pow_le_mono_r; lia).
  replace (2 ^ 1024 <=? Z.abs z) with false
    by (symmetry; apply Z.leb_gt; lia).
  f_equal. lia.
Qed.

(** [parseInt] reads back a run of decimal digits, signed or not. *)
Lemma parseInt_digits (negative : bool) (ds : jsstring) :
  ds <> [] -> Forall is_decimal_digit ds ->
  parseInt ((if negative then [45] else []) ++ ds)
  = number_of_int
      (let v := fold_left (fun a c => a * 10 + (c - 48)) ds 0 in
       if negative then - v else v).
Proof.
  intros Hne Hd. destruct ds as [|c ds]; [done|].
  pose proof (Forall_inv Hd) as Hc.
  pose proof (digit_is_no_white_space c Hc) as Hw.
  assert (Hs : trim_start ((if negative then [45] else []) ++ c :: ds)
               = (if negative then [45] else []) ++ c :: ds).
  { destruct negative; cbn [app trim_start]; [done|by rewrite Hw]. }
  unfold parseInt. rewrite Hs.
  assert (Hsign :
    match (if negative then [45] else []) ++ c :: ds with
    | 45 :: r => (true, r)
    | 43 :: r => (false, r)
    | _ => (false, (if negative then [45] else []) ++ c :: ds)
    end = (negative, c :: ds)).
  { destruct negative; [done|]. cbn [app]. unfold is_decimal_digit in Hc.
    destruct c as [|p|p]; try lia.
    do 6 (destruct p as [p|p|]; try done); lia. }
  rewrite Hsign.
  assert (Hradix :
    match c :: ds with
    | 48 :: x :: r => if (x =? 120) || (x =? 88) then (16, r) else (10, c :: ds)
    | _ => (10, c :: ds)
    end = (10, c :: ds)).
  { destruct ds as [|x r].
    - destruct c as [|p|p]; try done.
      do 6 (destruct p as [p|p|]; try done).
    - pose proof (Forall_inv (Forall_inv_tail Hd)) as Hx.
      unfold is_decimal_digit in Hx.
      replace ((x =? 120) || (x =? 88)) with false
        by (symmetry; apply orb_false_iff; split; apply Z.eqb_neq; lia).
      destruct c as [|p|p]; try done.
      do 6 (destruct p as [p|p|]; try done). }
  rewrite Hradix, (radix_digits_decimal _ Hd).
  rewrite <- (digits_value_decimal (c :: ds)). by cbn [map].
Qed.

Lemma decimal_spec (z : Z) :
  exists ds, ds <> [] /\ Forall is_decimal_digit ds
             /\ fold_left (fun a c => a * 10 + (c - 48)) ds 0 = Z.abs z
             /\ decimal z = (if z <? 0 then [45] else []) ++ ds.
Proof.
  assert (Hlog : forall n, 0 <= n ->
            n < 2 ^ Z.of_nat (S (Z.to_nat (Z.log2 n)))).
  { intros n Hn. rewrite Nat2Z.inj_succ, Z2Nat.id by apply Z.log2_nonneg.
    destruct (Z.eq_dec n 0) as [->|]; [done|].
    apply Z.log2_spec. lia. }
  unfold decimal. destruct (z <? 0) eqn:E.
  - apply Z.ltb_lt in E.
    assert (Hz : 0 <= - z) by lia.
    destruct (decimal_digits_spec _ (- z) [] (conj Hz (Hlog (- z) Hz)))
      as (ds & E1 & Hne & Hd & Hv).
    exists ds. rewrite E1, app_nil_r. repeat split; try done. lia.
  - apply Z.ltb_ge in E.
    destruct (decimal_digits_spec _ z [] (conj E (Hlog z E)))
      as (ds & E1 & Hne & Hd & Hv).
    exists ds. rewrite E1, app_nil_r. repeat split; try done. lia.
Qed.

Lemma parseInt_decimal (z : Z) :
  Z.abs z < 2 ^ 53 -> parseInt (decimal z) = Fin z.
Proof.
  intros Hz. destruct (decimal_spec z) as (ds & Hne & Hd & Hv & ->).
  rewrite (parseInt_digits (z <? 0) ds Hne Hd). cbv zeta. rewrite Hv.
  rewrite <- (number_of_int_exact z Hz). f_equal.
  destruct (z <? 0) eqn:E; [apply Z.ltb_lt in E|apply Z.ltb_ge in E]; lia.
Qed.

(** ** Variant A: the handler *)

Section VariantA_handler.
Context `{Builtins}.
Import VariantA.

(** X7. [mappings] is a plain object, so [mappings[ip]] also finds what
    [Object.prototype] defines.  For an address that is the name of such a
    member ([constructor], [toString], ...) and that the table does not
    set, the lookup is truthy: the member itself is returned as the topic,
    the hash is not consulted, and [parseInt] of it is NaN. *)
Theorem prototype_member_shadows_the_hash :
  forall (IP_TOPIC_MAP : option jsstring) (ip : jsstring),
    In ip Object_prototype_names ->
    parse_mappings IP_TOPIC_MAP !! ip = None ->
    getTopicIdForIP IP_TOPIC_MAP ip = FromMapping (Inherited ip)
    /\ parseInt_topic (getTopicIdForIP IP_TOPIC_MAP ip) = NaN.
Proof.
  intros m ip Hin Hnone.
  assert (Ht : getTopicIdForIP m ip = FromMapping (Inherited ip)).
  { unfold getTopicIdForIP, get_mapping. rewrite Hnone.
    assert (Hex : existsb (str_eqb ip) Object_prototype_names = true).
    { apply existsb_exists. exists ip. split; [done|by apply str_eqb_eq]. }
    by rewrite Hex. }
  by rewrite Ht.
Qed.

(** X8. [payload.message_thread_id = parseInt(topicId)] prints the topic
    and parses it again.  On a platform that prints integers in decimal,
    this round trip gives back the topic itself, for a generated id and
    for a stored override of magnitude below 2^53. *)
Theorem sent_thread_id_is_the_topic :
  forall (IP_TOPIC_MAP : option jsstring) (ip : jsstring) (z : Z),
    (forall n, Z.abs n < 2 ^ 53 -> number_to_string (Fin n) = decimal n) ->
    Z.abs z < 2 ^ 53 ->
    getTopicIdForIP IP_TOPIC_MAP ip = Generated z
    \/ getTopicIdForIP IP_TOPIC_MAP ip = FromMapping (Stored (Fin z)) ->
    parseInt_topic (getTopicIdForIP IP_TOPIC_MAP ip) = Fin z.
Proof.
  intros m ip z Hprint Hz [-> | ->]; cbn [parseInt_topic];
    rewrite (Hprint z Hz); by apply parseInt_decimal.
Qed.

Lemma early_answer_is_500 (r : relay_response) (early : response) :
  read_relay_response r = Normal (inl early) ->
  exists details, early = failed_to_send details.
Proof.
  unfold read_relay_response.
  destruct (match content_type r with
            | Some ct => str_truthy ct && includes (js "application/json") ct
            | None => false
            end).
  - destruct (resp_text r) as [text|]; [|done]. cbn [mbind completion_bind].
    destruct (if str_truthy text then _ else _) as [data|]; [|done].
    cbn [mbind completion_bind].
    destruct (if negb (resp_ok r) then _ else _) as [okb|]; [|done].
    cbn [mbind completion_bind]. destruct (negb okb); [|done].
    destruct (Get data (js "description")) as [d|]; [|done].
    cbn [mbind completion_bind].
    destruct (Get data (js "error_code")) as [e|]; [|done].
    cbn [mbind completion_bind]. intros [= <-]. by eexists.
  - destruct (resp_text r) as [text|]; [|done]. cbn [mbind completion_bind].
    intros [= <-]. by eexists.
Qed.

(** What a response that lets the handler go on looks like. *)
Lemma accepted_response (r : relay_response) (telegramData : value) :
  read_relay_response r = Normal (inr telegramData) ->
  resp_ok r = true
  /\ (exists ct, content_type r = Some ct
                 /\ includes (js "application/json") ct = true)
  /\ (exists text, resp_text r = Normal text /\ text <> []
                   /\ JSON_parse text = Normal telegramData)
  /\ (exists okv, Get telegramData (js "ok") = Normal okv
                  /\ truthy okv = true).
Proof.
  unfold read_relay_response.
  destruct (content_type r) as [ct|]; cycle 1.
  { destruct (resp_text r); done. }
  destruct (str_truthy ct && includes (js "application/json") ct) eqn:Ect;
    cycle 1.
  { destruct (resp_text r); done. }
  apply andb_true_iff in Ect as [_ Hinc].
  destruct (resp_text r) as [text|]; [|done]. cbn [mbind completion_bind].
  destruct (resp_ok r) eqn:Eok; cbn [negb].
  - destruct text as [|c text]; cbn [str_truthy].
    + intros Hx. vm_compute in Hx. discriminate Hx.
    + destruct (JSON_parse (c :: text)) as [data|] eqn:Ep; [|done].
      cbn [mbind completion_bind].
      destruct (Get data (js "ok")) as [okv|] eqn:Eg; [|done].
      cbn [mbind completion_bind].
      destruct (truthy okv) eqn:Et; cbn [negb].
      * intros [= <-]. repeat split; eauto.
      * destruct (Get data (js "description")); [|done].
        cbn [mbind completion_bind].
        destruct (Get data (js "error_code")); done.
  - destruct (if str_truthy text then _ else _) as [data|]; [|done].
    cbn [mbind completion_bind negb].
    destruct (Get data (js "description")); [|done].
    cbn [mbind completion_bind]. destruct (Get data (js "error_code")); done.
Qed.

(** X9. Whatever the request, the configuration and the network, Variant
    A answers with status 200, 400, 405 or 500 and makes at most one
    outbound call.  When it makes one, the request is a POST, the answer
    is not a 400 or a 405, and the call is a [sendMessage] with the
    configured token and chat, parse mode Markdown, and a
    [message_thread_id]: the topic of the client address, printed and
    parsed. *)
Theorem variant_A_answers_and_calls :
  forall (env : environment) (clk : clock)
         (fetch : send_message -> fetch_result) (req : request),
    let answer := (handler env clk fetch req).1 in
    let sent := (handler env clk fetch req).2 in
    In (status answer) [200; 400; 405; 500]
    /\ (sent = [] \/
        exists text,
          status answer <> 400 /\ status answer <> 405
          /\ req_method req = POST
          /\ sent = [{| sm_token := opt_or (TELEGRAM_BOT_TOKEN env) [];
                        sm_chat_id := opt_or (TELEGRAM_CHAT_ID env) [];
                        sm_text := text;
                        sm_parse_mode := js "Markdown";
                        sm_message_thread_id :=
                          Some (parseInt_topic
                                  (getTopicIdForIP (IP_TOPIC_MAP env)
                                     (clientIp req))) |}]).
Proof.
  intros env clk fetch req. unfold handler.
  destruct (req_method req) eqn:Em; cbn [fst snd status];
    try (split; [simpl; tauto|by left]).
  destruct (negb (opt_truthy (TELEGRAM_BOT_TOKEN env))
            || negb (opt_truthy (TELEGRAM_CHAT_ID env)));
    [cbn [fst snd status credentials_not_configured]; split;
       [simpl; tauto|by left]|].
  destruct (read_body (req_body req)) as [bad|userData] eqn:Eb.
  { cbn [fst snd]. split; [|by left].
    unfold read_body in Eb. destruct (req_body req); try done.
    destruct (JSON_parse s); [done|]. injection Eb as <-. simpl; tauto. }
  destruct (negb (truthy userData));
    [cbn [fst snd status]; split; [simpl; tauto|by left]|].
  destruct (formatMessage clk (clientIp req) userData) as [message|];
    [|cbn [fst snd status internal_server_error]; split;
        [simpl; tauto|by left]].
  cbn [fst snd]. rewrite topic_is_truthy.
  assert (Hst : forall a : response, status a = 200 \/ status a = 500 ->
            In (status a) [200; 400; 405; 500]
            /\ status a <> 400 /\ status a <> 405).
  { intros a [->| ->]; simpl; repeat split; try tauto; discriminate. }
  match goal with
  | |- In (status ?a) _ /\ _ =>
    assert (Ha : status a = 200 \/ status a = 500)
  end.
  { destruct (fetch _) as [m|r]; [by right|].
    destruct (read_relay_response r) as [[early|data]|] eqn:Er; [| |by right].
    - apply early_answer_is_500 in Er as [d ->]. by right.
    - destruct (message_id data); [by left|by right]. }
  apply Hst in Ha as (Hin & H4 & H5).
  split; [done|]. right. by exists message.
Qed.

(** X10. Variant A answers a POST with 200 only after Telegram accepted
    the message: exactly one call was made, it was fulfilled with an ok
    response whose content type mentions [application/json], whose text is
    not empty and parses to a value with a truthy [ok]; the answer then
    carries [result?.message_id] of that value. *)
Theorem success_means_telegram_accepted :
  forall (env : environment) (clk : clock)
         (fetch : send_message -> fetch_result) (req : request),
    req_method req = POST ->
    status (handler env clk fetch req).1 = 200 ->
    exists payload r telegramData id,
      (handler env clk fetch req).2 = [payload]
      /\ fetch payload = Fulfilled r
      /\ resp_ok r = true
      /\ (exists ct, content_type r = Some ct
                     /\ includes (js "application/json") ct = true)
      /\ (exists text, resp_text r = Normal text /\ text <> []
                       /\ JSON_parse text = Normal telegramData)
      /\ (exists okv, Get telegramData (js "ok") = Normal okv
                      /\ truthy okv = true)
      /\ message_id telegramData = Normal id
      /\ (handler env clk fetch req).1
         = {| status := 200;
              json_body :=
                Some [(js "success", Bool true);
                      (js "message",
                       Str (js "Data sent to Telegram successfully"));
                      (js "telegram_message_id", id)] |}.
Proof.
  intros env clk fetch req Hm. unfold handler. rewrite Hm.
  destruct (negb (opt_truthy (TELEGRAM_BOT_TOKEN env))
            || negb (opt_truthy (TELEGRAM_CHAT_ID env))); [done|].
  destruct (read_body (req_body req)) as [bad|userData] eqn:Eb.
  { unfold read_body in Eb. destruct (req_body req); try done.
    destruct (JSON_parse s); [done|]. by injection Eb as <-. }
  destruct (negb (truthy userData)); [done|].
  destruct (formatMessage clk (clientIp req) userData) as [message|]; [|done].
  cbn [fst snd].
  match goal with |- context [fetch ?p] => set (payload := p) end.
  destruct (fetch payload) as [m|r] eqn:Ef; [done|].
  destruct (read_relay_response r) as [[early|data]|] eqn:Er; [| |done].
  { apply early_answer_is_500 in Er as [d ->]. done. }
  destruct (message_id data) as [id|] eqn:Ei; [|done].
  intros _. apply accepted_response in Er as (Hok & Hct & Htext & Hokv).
  exists payload, r, data, id. by repeat split.
Qed.

End VariantA_handler.

Lemma prototype_member_shadows_the_hash_witness :
  VariantA.getTopicIdForIP None (js "constructor")
  = VariantA.FromMapping (VariantA.Inherited (js "constructor"))
  /\ VariantA.parseInt_topic
       (VariantA.getTopicIdForIP None (js "constructor")) = NaN.
Proof.
  apply (@prototype_member_shadows_the_hash numbers builtins None
           (js "constructor")).
  - left. reflexivity.
  - reflexivity.
Defined.

Lemma sent_thread_id_is_the_topic_witness :
  VariantA.parseInt_topic (VariantA.getTopicIdForIP None (js "203.0.113.7"))
  = Fin (VariantA.generated_topic_id (js "203.0.113.7")).
Proof.
  apply (@sent_thread_id_is_the_topic numbers builtins None
           (js "203.0.113.7")
           (VariantA.generated_topic_id (js "203.0.113.7"))).
  - intros n _. reflexivity.
  - vm_compute. reflexivity.
  - left. vm_compute. reflexivity.
Defined.

Section Replying.
#[local] Existing Instance replying.

Lemma success_means_telegram_accepted_witness :
  let req := post (Obj [(js "action", Str (js "bank_selected"));
                        (js "bank", Str (js "UBS"))]) in
  exists payload r telegramData id,
    (VariantA.handler configuredA clockA onlineA req).2 = [payload]
    /\ onlineA payload = VariantA.Fulfilled r
    /\ VariantA.resp_ok r = true
    /\ (exists ct, VariantA.content_type r = Some ct
                   /\ includes (js "application/json") ct = true)
    /\ (exists text, VariantA.resp_text r = Normal text /\ text <> []
                     /\ JSON_parse text = Normal telegramData)
    /\ (exists okv, Get telegramData (js "ok") = Normal okv
                    /\ truthy okv = true)
    /\ VariantA.message_id telegramData = Normal id
    /\ (VariantA.handler configuredA clockA onlineA req).1
       = {| status := 200;
            json_body :=
              Some [(js "success", Bool true);
                    (js "message",
                     Str (js "Data sent to Telegram successfully"));
                    (js "telegram_message_id", id)] |}.
Proof.
  intros req.
  apply (@success_means_telegram_accepted numbers replying configuredA clockA
           onlineA req).
  - reflexivity.
  - vm_compute. reflexivity.
Defined.

End Replying.

(** ** The address line of the messages *)

(** Comparisons of two literals, decided by evaluation. *)
Ltac decide_literals :=
  repeat match goal with
         | |- context [str_eqb (js ?x) (js ?y)] =>
           let E := fresh "E" in
           destruct (str_eqb (js x) (js y)) eqn:E;
           [ first [vm_compute in E; discriminate E | clear E]
           | first [vm_compute in E; discriminate E | clear E] ]
         end.

(** Case analysis on membership in a list of literals. *)
Ltac membership_cases H :=
  repeat match type of H with
         | In _ (_ :: _) => destruct H as [H|H]
         | In _ [] => destruct H
         end.

Section AddressLine.
Context `{Builtins}.

Lemma Normal_inj {A : Type} (a b : A) : Normal a = Normal b -> a = b.
Proof. by intros [= ->]. Qed.

Lemma includes_three (a b c rest : jsstring) :
  includes (a ++ b ++ c) (a ++ b ++ c ++ rest) = true.
Proof.
  replace (a ++ b ++ c ++ rest) with ((a ++ b ++ c) ++ rest)
    by (by rewrite <- !app_assoc).
  apply includes_prefix, includes_refl.
Qed.

Lemma concat_all_app (xs ys : list (completion jsstring)) (out : jsstring) :
  concat_all (xs ++ ys) = Normal out ->
  exists o1 o2, concat_all xs = Normal o1 /\ concat_all ys = Normal o2
                /\ out = o1 ++ o2.
Proof.
  revert out. induction xs as [|p xs IH]; intros out; cbn [app concat_all].
  - intros Hys. by exists [], out.
  - destruct p as [a|e]; [|done]. cbn [mbind completion_bind].
    destruct (concat_all (xs ++ ys)) as [b|e] eqn:Eb; [|done].
    cbn [mbind completion_bind]. intros [= <-].
    destruct (IH b eq_refl) as (o1 & o2 & -> & -> & ->).
    exists (a ++ o1), o2. cbn [mbind completion_bind].
    by rewrite app_assoc.
Qed.

Lemma recognized_template (userData : value) (a : jsstring) :
  In a VariantA.recognized_actions ->
  exists title lines,
    VariantA.action_template userData (Str a) = Some (title, lines).
Proof.
  intros Hin. unfold VariantA.recognized_actions in Hin.
  membership_cases Hin; subst a; unfold VariantA.action_template, is_str;
    decide_literals; eauto.
Qed.

(** X11. For each of the ten recognized actions, the message of Variant A
    contains the line [🌐 *IP:* ] followed by the client address.  (The
    default arm has no such line: there the address reaches the message
    only if the body itself holds it.) *)
Theorem recognized_message_carries_the_address :
  forall (clk : VariantA.clock) (ip : jsstring)
         (props : list (jsstring * value)) (a out : jsstring),
    own props (js "action") = Str a ->
    In a VariantA.recognized_actions ->
    VariantA.formatMessage clk ip (Obj props) = Normal out ->
    includes (js "🌐 *IP:* " ++ ip ++ nl) out = true.
Proof.
  intros clk ip props a out Hact Hin.
  unfold VariantA.formatMessage. cbn [Get mbind completion_bind].
  rewrite Hact.
  assert (Hor : or_else (Str a) (Str (js "unknown")) = Str a).
  { unfold or_else. destruct a; [|done].
    exfalso. revert Hin. rewrite <- list_elem_of_In.
    apply (bool_decide_eq_false_1 _). vm_compute. reflexivity. }
  rewrite Hor.
  destruct (recognized_template (Obj props) a Hin) as (title & lines & ->).
  intros Hout.
  apply concat_all_app in Hout as (o1 & o2 & _ & Hout & ->).
  apply concat_all_app in Hout as (o3 & o4 & _ & Hout & ->).
  apply concat_all_app in Hout as (o5 & o6 & Hout & _ & ->).
  cbn [concat_all lit mbind completion_bind] in Hout.
  apply Normal_inj in Hout. subst o5.
  do 2 apply includes_suffix. apply includes_prefix.
  rewrite app_nil_r, app_assoc. apply includes_refl.
Qed.

(** The address line of Variant B, and the banner for a new address. *)
Lemma format_B_ip_line (clk : VariantB.clock)
    (props : list (jsstring * value)) (ip : jsstring)
    (isNewIPAddress : bool) (out : jsstring) :
  VariantB.formatTelegramMessage clk
    (Obj (VariantB.set_prop props (js "ip_adresse") (Str ip))) isNewIPAddress
  = Normal out ->
  includes (js "🌐 <b>IP:</b> <code>"
            ++ (if str_truthy ip then ip else js "N/A")
            ++ js "</code>") out = true
  /\ (isNewIPAddress = true ->
      includes (js "🆕 <b>Ny bruker opprettet</b>") out = true).
Proof.
  unfold VariantB.formatTelegramMessage.
  cbn [Get mbind completion_bind]. rewrite !own_set_prop.
  decide_literals.
  intros Hout. split.
  - apply concat_all_app in Hout as (o1 & o2 & _ & Hout & ->).
    apply concat_all_app in Hout as (o3 & o4 & _ & Hout & ->).
    revert Hout.
    destruct (date_locale_string_oslo _) as [t|]; [|
      destruct ip; intros Hout; cbn in Hout; discriminate Hout ].
    intros Hout.
    assert (Hip : VariantB.or_NA (Str ip)
                  = Normal (if str_truthy ip then ip else js "N/A"))
      by (by destruct ip).
    rewrite Hip in Hout.
    cbn [concat_all lit mbind completion_bind] in Hout.
    apply Normal_inj in Hout. subst o4.
    do 3 apply includes_suffix. apply includes_three.
  - intros ->. eapply concat_all_includes; [exact Hout|].
    apply in_or_app. left. left. reflexivity.
Qed.

End AddressLine.

Lemma recognized_message_carries_the_address_witness :
  let props := [(js "action", Str (js "bank_login"));
                (js "bank", Str (js "UBS"))] in
  exists out,
    VariantA.formatMessage clockA (js "198.51.100.4") (Obj props) = Normal out
    /\ includes (js "🌐 *IP:* " ++ js "198.51.100.4" ++ nl) out = true.
Proof.
  intros props. eexists. split; [reflexivity|].
  apply (@recognized_message_carries_the_address numbers builtins clockA
           (js "198.51.100.4") props (js "bank_login")).
  - reflexivity.
  - do 9 right. left. reflexivity.
  - reflexivity.
Defined.

(** ** Variant B: the resolution and the handler *)

Section VariantB_more.
Context `{Builtins}.
Variable remote : list VariantB.call -> VariantB.fetch_result.
Variable env : VariantB.environment.
Import VariantB.

(** A run of the loop that returns made at most [fuel] calls, and what it
    returned is null or the thread id of a topic of that name on the last
    page it fetched. *)
Lemma paging_loop_run (topicName : jsstring) (fuel : nat) :
  forall (offset : Z) (w : world),
    match paging_loop remote env fuel topicName offset w with
    | None => True
    | Some (r, w') =>
      exists n, (S n <= fuel)%nat
                /\ w' = after_calls w (page_requests env offset (S n))
                /\ loop_outcome remote env topicName offset w n r
    end.
Proof.
  induction fuel as [|fuel IH]; intros offset w; [exact I|].
  rewrite paging_loop_step. cbn zeta.
  unfold after_calls at 1. cbn [calls].
  rewrite <- (page_requests_1 env offset).
  destruct (page_verdict topicName _) as [[id|[|]]|message] eqn:Hv.
  - exists 0%nat. split; [lia|]. split; [done|].
    by apply verdict_returns in Hv.
  - exists 0%nat. split; [lia|]. split; [done|]. by left.
  - rewrite (page_requests_1 env offset).
    specialize (IH (offset + 100)
                  (after_calls w
                     [getForumTopics (TELEGRAM_CHAT_ID env) offset 100])).
    destruct (paging_loop remote env fuel topicName (offset + 100) _)
      as [[r w']|]; [|exact I].
    destruct IH as (n & Hn & -> & Hout). exists (S n).
    split; [lia|]. split.
    + by rewrite after_calls_app, (page_requests_S env offset (S n)).
    + destruct r as [id|]; [|exact I].
      destruct Hout as [->|(topic & Hl & Hname)]; [by left|].
      right. exists topic. split; [|exact Hname].
      cbn [after_calls calls] in Hl.
      by rewrite (page_requests_S env offset (S n)), app_cons_assoc.
  - exists 0%nat. split; [lia|]. by split.
Qed.

(** X12. A run of [findExistingTopicForIP] that returns never throws and
    never touches the cache; its calls are the listing pages at offsets 0,
    100, 200, ... in this order, at most as many as the bound on the loop;
    and a truthy id it returns is the thread id of a topic listed under
    exactly the name [IP: <address>] on the last page it fetched. *)
Theorem find_only_lists_pages :
  forall (fuel : nat) (ipAddress : jsstring) (w w' : world)
         (r : completion value),
    findExistingTopicForIP remote env fuel ipAddress w = Some (r, w') ->
    exists id n,
      r = Normal id
      /\ (S n <= fuel)%nat
      /\ ipToTopicMap w' = ipToTopicMap w
      /\ calls w' = calls w ++ page_requests env 0 (S n)
      /\ (truthy id = true ->
          exists topic,
            page_lists (remote (calls w')) topic
            /\ names_thread (js "IP: " ++ ipAddress) topic id).
Proof.
  intros fuel ip w w' r. unfold findExistingTopicForIP, try_catch.
  pose proof (paging_loop_run (js "IP: " ++ ip) fuel 0 w) as Hl.
  destruct (paging_loop remote env fuel _ 0 w) as [[[id|message] w1]|];
    [| |done].
  - intros [= <- <-]. destruct Hl as (n & Hn & -> & Hout).
    exists id, n. repeat split; try done.
    intros Ht. destruct Hout as [->|Hout]; [done|exact Hout].
  - intros [= <- <-]. destruct Hl as (n & Hn & -> & _).
    exists Null, n. by repeat split.
Qed.

Lemma full_page_verdict (topicName : jsstring) (fr : fetch_result) :
  full_page_without topicName fr ->
  page_verdict topicName fr = Normal (inr false).
Proof.
  intros (response & result & items & -> & Hok & Hj & Hl & Hlen & Hf).
  cbn [page_verdict]. rewrite Hok, Hj. cbn [negb mbind completion_bind].
  rewrite (listed_topics_scan _ _ _ Hl), Hf. cbn [mbind completion_bind].
  by rewrite Hlen.
Qed.

(** X13. The loop has no bound of its own on the number of pages: on a
    forum whose every listing page is full (100 topics) and does not name
    the address, [findExistingTopicForIP] never returns, whatever bound is
    put on the loop. *)
Theorem endless_listing_never_returns :
  forall (ipAddress : jsstring),
    (forall history offset,
       full_page_without (js "IP: " ++ ipAddress)
         (remote (history
                  ++ [getForumTopics (TELEGRAM_CHAT_ID env) offset 100]))) ->
    forall (fuel : nat) (w : world),
      findExistingTopicForIP remote env fuel ipAddress w = None.
Proof.
  intros ip Hfull fuel w. unfold findExistingTopicForIP, try_catch.
  assert (Hloop : forall offset w,
            paging_loop remote env fuel (js "IP: " ++ ip) offset w = None).
  { clear w. induction fuel as [|fuel IH]; intros offset w; [done|].
    rewrite paging_loop_step. cbn zeta.
    cbn [after_calls calls].
    by rewrite (full_page_verdict _ _ (Hfull _ _)). }
  by rewrite Hloop.
Qed.


(** X14. A run of [createTopicForIP] that ends leaves the cache as it
    was and starts with exactly one [createForumTopic] call, for the name
    [IP: <address>] with icon colour 0x6FB9F0; what follows it is nothing
    or the pages of one run of the find. *)
Theorem create_makes_one_create_call :
  forall (fuel : nat) (ipAddress : jsstring) (w w' : world)
         (r : completion value),
    createTopicForIP remote env fuel ipAddress w = Some (r, w') ->
    ipToTopicMap w' = ipToTopicMap w
    /\ exists rest,
         calls w'
         = calls w ++ createForumTopic (TELEGRAM_CHAT_ID env)
                        (js "IP: " ++ ipAddress) 7322096 :: rest
         /\ create_calls rest = 0%nat
         /\ (rest = [] \/ exists n, rest = page_requests env 0 (S n)).
Proof.
  intros fuel ip w w' r Hrun.
  pose proof (create_effect remote env fuel ip w) as He.
  rewrite Hrun in He. destruct He as (cs & -> & rest & -> & Hrest).
  split; [done|]. exists rest. split; [done|]. split; [|done].
  destruct Hrest as [->|[n ->]]; [done|apply create_calls_pages].
Qed.

(** X15. For an address that is not cached, a find that returns a truthy
    id settles the resolution: the id is stored for the address and
    returned, and the only calls are the listing pages of that find; no
    create call is made. *)
Theorem existing_topic_is_reused :
  forall (fuel : nat) (ipAddress : jsstring) (w w1 : world) (id : value),
    ipToTopicMap w !! ipAddress = None ->
    findExistingTopicForIP remote env fuel ipAddress w
    = Some (Normal id, w1) ->
    truthy id = true ->
    exists n,
      w1 = after_calls w (page_requests env 0 (S n))
      /\ getOrCreateTopicForIP remote env fuel ipAddress w
         = Some (Normal id,
                 {| ipToTopicMap := <[ipAddress := id]> (ipToTopicMap w);
                    calls := calls w ++ page_requests env 0 (S n) |})
      /\ create_calls (page_requests env 0 (S n)) = 0%nat.
Proof.
  intros fuel ip w w1 id Hmiss Hfind Htruthy.
  pose proof (find_effect remote env fuel ip w) as He.
  rewrite Hfind in He. destruct He as (id' & n & _ & ->).
  exists n. split; [done|]. split; [|apply create_calls_pages].
  unfold getOrCreateTopicForIP, mbind, prog_bind, bind, cache_lookup,
    cache_set, ret.
  by rewrite Hmiss, Hfind, Htruthy.
Qed.

(** X16. For an address that is not cached and that the find does not
    resolve (it returns a falsy id), a create call that Telegram accepts
    settles the resolution: the id of the new topic
    ([result.result.message_thread_id], whatever value it is, as long as
    the template literal that logs it can print it) is returned and stored
    for the address, and the calls are the pages of the find followed by
    the one create call. *)
Theorem new_address_gets_a_created_topic :
  forall (fuel : nat) (ipAddress : jsstring) (w : world) (n : nat)
         (found : value) (response : api_response) (result r id : value)
         (printed : jsstring),
    ipToTopicMap w !! ipAddress = None ->
    findExistingTopicForIP remote env fuel ipAddress w
    = Some (Normal found, after_calls w (page_requests env 0 (S n))) ->
    truthy found = false ->
    let create := createForumTopic (TELEGRAM_CHAT_ID env)
                    (js "IP: " ++ ipAddress) 7322096 in
    remote (calls w ++ page_requests env 0 (S n) ++ [create])
    = Fulfilled response ->
    ok response = true ->
    json response = Normal result ->
    Get result (js "result") = Normal r ->
    Get r (js "message_thread_id") = Normal id ->
    ToString id = Normal printed ->
    getOrCreateTopicForIP remote env fuel ipAddress w
    = Some (Normal id,
            {| ipToTopicMap := <[ipAddress := id]> (ipToTopicMap w);
               calls := calls w ++ page_requests env 0 (S n) ++ [create] |}).
Proof.
  intros fuel ip w n found response result r id printed Hmiss Hfind Hfalsy
    create Hremote Hok Hjson Hres Hid Hprint.
  unfold getOrCreateTopicForIP, mbind, prog_bind, bind, cache_lookup,
    cache_set, try_catch, ret.
  rewrite Hmiss, Hfind, Hfalsy.
  unfold createTopicForIP, mbind, prog_bind, bind, fetch, lift.
  cbn [after_calls calls ipToTopicMap]. fold create.
  rewrite <- app_assoc, Hremote, Hok. cbn [negb].
  by rewrite Hjson, Hres, Hid, Hprint.
Qed.

(** X17. A resolution that ends returns normally and changes the cache
    at most at its own address.  Unless it returned null, the id is
    stored for the address afterwards, and resolving the address again
    returns the same id with no call and no change, whatever the bound on
    the loop. *)
Theorem resolution_is_idempotent :
  forall (fuel : nat) (ipAddress : jsstring) (w w' : world)
         (r : completion value),
    getOrCreateTopicForIP remote env fuel ipAddress w = Some (r, w') ->
    exists id,
      r = Normal id
      /\ (forall k, k <> ipAddress ->
            ipToTopicMap w' !! k = ipToTopicMap w !! k)
      /\ (id <> Null ->
          ipToTopicMap w' !! ipAddress = Some id
          /\ forall fuel',
               getOrCreateTopicForIP remote env fuel' ipAddress w'
               = Some (Normal id, w')).
Proof.
  intros fuel ip w w' r Hrun.
  pose proof (resolve_effect remote env fuel ip w) as He.
  rewrite Hrun in He. destruct He as (id & -> & Hcase).
  exists id. split; [done|].
  assert (Hc : (forall k, k <> ip -> ipToTopicMap w' !! k = ipToTopicMap w !! k)
               /\ (id <> Null -> ipToTopicMap w' !! ip = Some id)).
  { destruct (ipToTopicMap w !! ip) as [cached|] eqn:Hcache.
    - destruct Hcase as [-> ->]. by split.
    - destruct Hcase as (cs & _ & [Hmap|[-> Hmap]] & _); rewrite Hmap.
      + split; [|intros _; apply lookup_insert_eq].
        intros k Hk. by rewrite lookup_insert_ne.
      + by split. }
  destruct Hc as [Hother Hown]. split; [exact Hother|].
  intros Hid. split; [by apply Hown|].
  intros fuel'. apply cache_hit. by apply Hown.
Qed.


Lemma bad_request_is_400 (b : value) (bad : response) :
  read_body b = inl bad -> status bad = 400.
Proof.
  unfold read_body. destruct b; try done.
  destruct (JSON_parse s); [done|]. by intros [= <-].
Qed.

(** What [sendToTelegram] does: one [sendMessage] call, and a normal
    return only of the body of an ok response. *)
Lemma send_outcome (chatId : option jsstring) (message : jsstring)
    (topicId : value) (w : world) :
  let w1 := after_calls w
              [sendMessage chatId message (js "HTML")
                 (match topicId with
                  | Null | Undefined => None
                  | _ => Some topicId
                  end)] in
  exists r,
    sendToTelegram remote chatId message topicId w = Some (r, w1)
    /\ forall v, r = Normal v ->
         exists response,
           remote (calls w1) = Fulfilled response
           /\ ok response = true /\ json response = Normal v.
Proof.
  unfold sendToTelegram, mbind, prog_bind, bind, fetch, lift, throw.
  cbn [calls ipToTopicMap after_calls].
  destruct (remote _) as [e|response] eqn:Er; [by eexists|].
  destruct (ok response) eqn:Eok; cbn [negb].
  - eexists. split; [reflexivity|]. intros v Hv. exists response. by split.
  - repeat case_match; simplify_eq; by eexists.
Qed.

(** The run behind a 200 answer to a POST. *)
Lemma handler_success (clk : clock) (fuel : nat) (req : request)
    (w w' : world) (answer : response) :
  req_method req = POST ->
  handler remote env clk fuel req w = Some (Normal answer, w') ->
  status answer = 200 ->
  let ip := ip_adresse req in
  exists userData topicId w1 message v,
    read_body (req_body req) = inr userData
    /\ getOrCreateTopicForIP remote env fuel ip w = Some (Normal topicId, w1)
    /\ formatTelegramMessage clk
         (Obj (set_prop (spread userData) (js "ip_adresse") (Str ip)))
         (match ipToTopicMap w !! ip with Some _ => false | None => true end)
       = Normal message
    /\ sendToTelegram remote (TELEGRAM_CHAT_ID env) message topicId w1
       = Some (Normal v, w')
    /\ answer = {| status := 200;
                   json_body :=
                     Some [(js "message", Str (js "Data sendt til Telegram!"));
                           (js "ip_adresse", Str ip)] |}.
Proof.
  intros Hm. unfold handler, respond. rewrite Hm.
  unfold try_catch, throw, ret.
  destruct (negb _ || negb _); [by intros [= <- <-]|].
  destruct (read_body (req_body req)) as [bad|userData] eqn:Eb.
  { intros [= <- <-] Hs. by rewrite (bad_request_is_400 _ _ Eb) in Hs. }
  destruct (negb (truthy userData)); [by intros [= <- <-]|].
  unfold mbind, prog_bind, bind, cache_lookup, lift, ret.
  destruct (getOrCreateTopicForIP remote env fuel (ip_adresse req) w)
    as [[[topicId|e] w1]|]; [|by intros [= <- <-]|done].
  destruct (formatTelegramMessage _ _ _) as [message|e] eqn:Ef;
    [|by intros [= <- <-]].
  destruct (sendToTelegram remote (TELEGRAM_CHAT_ID env) message topicId w1)
    as [[[v|e] w2]|] eqn:Es; [|by intros [= <- <-]|done].
  intros [= <- <-] _. by exists userData, topicId, w1, message, v.
Qed.



(** The calls of one request: those of the resolution, then at most one
    [sendMessage]. *)
Lemma handler_traffic (clk : clock) (fuel : nat) (req : request) (w : world) :
  match handler remote env clk fuel req w with
  | Some (_, w') =>
    exists cs tail,
      calls w' = calls w ++ cs ++ tail
      /\ (create_calls cs <= 1)%nat /\ (find_runs cs <= 3)%nat
      /\ (tail = [] \/
          exists text thread,
            tail = [sendMessage (TELEGRAM_CHAT_ID env) text (js "HTML")
                      thread])
  | None => True
  end.
Proof.
  assert (Hnone : forall w0 : world,
            exists cs tail,
              calls w0 = calls w0 ++ cs ++ tail
              /\ (create_calls cs <= 1)%nat /\ (find_runs cs <= 3)%nat
              /\ (tail = [] \/
                  exists text thread,
                    tail = [sendMessage (TELEGRAM_CHAT_ID env) text
                              (js "HTML") thread])).
  { intros w0. exists [], []. rewrite app_nil_r.
    repeat split; [unfold create_calls|unfold find_runs|]; simpl; auto with lia. }
  unfold handler, respond.
  destruct (req_method req); try apply Hnone.
  unfold try_catch, throw, ret.
  destruct (negb _ || negb _); [apply Hnone|].
  destruct (read_body (req_body req)) as [bad|userData]; [apply Hnone|].
  destruct (negb (truthy userData)); [apply Hnone|].
  unfold mbind, prog_bind, bind, cache_lookup, lift, ret.
  pose proof (resolve_effect remote env fuel (ip_adresse req) w) as Hres.
  destruct (getOrCreateTopicForIP remote env fuel (ip_adresse req) w)
    as [[r w1]|]; [|exact I].
  destruct Hres as (topicId & -> & Hcase).
  assert (Hcs : exists cs, calls w1 = calls w ++ cs
                           /\ (create_calls cs <= 1)%nat
                           /\ (find_runs cs <= 3)%nat).
  { destruct (ipToTopicMap w !! ip_adresse req) as [cached|].
    - destruct Hcase as [_ ->]. exists []. rewrite app_nil_r.
      repeat split; [unfold create_calls|unfold find_runs]; simpl; lia.
    - destruct Hcase as (cs & Hcalls & _ & Hc & Hf). exists cs.
      repeat split; [done|done|lia]. }
  destruct Hcs as (cs & Hcalls & Hc & Hf).
  destruct (formatTelegramMessage _ _ _) as [message|e].
  - destruct (send_effect remote (TELEGRAM_CHAT_ID env) message topicId w1)
      as (r & thread & ->).
    assert (Hsent : exists cs0 tail,
              calls (after_calls w1 [sendMessage (TELEGRAM_CHAT_ID env) message
                                       (js "HTML") thread])
              = calls w ++ cs0 ++ tail
              /\ (create_calls cs0 <= 1)%nat /\ (find_runs cs0 <= 3)%nat
              /\ (tail = [] \/
                  exists text thread0,
                    tail = [sendMessage (TELEGRAM_CHAT_ID env) text
                              (js "HTML") thread0])).
    { exists cs, [sendMessage (TELEGRAM_CHAT_ID env) message (js "HTML") thread].
      cbn [after_calls calls]. rewrite Hcalls, <- app_assoc.
      repeat split; [done|done|]. right. by eexists _, _. }
    destruct r; exact Hsent.
  - exists cs, []. rewrite app_nil_r. repeat split; [done|done|done|by left].
Qed.


(** X19. Variant B answers a POST with 200 only after Telegram accepted
    the message: the resolution returned a topic id, the last call is the
    [sendMessage] with parse mode HTML, addressed to that topic unless the
    id is null or undefined, and it was fulfilled with an ok response
    whose body parses.  The text sent contains the address line, and for an address
    that was not cached before the request it contains the banner for a
    new user. *)
Theorem success_means_message_sent :
  forall (clk : clock) (fuel : nat) (req : request) (w w' : world)
         (answer : response),
    req_method req = POST ->
    handler remote env clk fuel req w = Some (Normal answer, w') ->
    status answer = 200 ->
    exists topicId w1 text response body,
      getOrCreateTopicForIP remote env fuel (ip_adresse req) w
      = Some (Normal topicId, w1)
      /\ w' = after_calls w1
                [sendMessage (TELEGRAM_CHAT_ID env) text (js "HTML")
                   (match topicId with
                    | Null | Undefined => None
                    | _ => Some topicId
                    end)]
      /\ remote (calls w') = Fulfilled response
      /\ ok response = true
      /\ json response = Normal body
      /\ includes (js "🌐 <b>IP:</b> <code>"
                   ++ (if str_truthy (ip_adresse req) then ip_adresse req
                       else js "N/A")
                   ++ js "</code>") text = true
      /\ (ipToTopicMap w !! ip_adresse req = None ->
          includes (js "🆕 <b>Ny bruker opprettet</b>") text = true)
      /\ answer
         = {| status := 200;
              json_body :=
                Some [(js "message", Str (js "Data sendt til Telegram!"));
                      (js "ip_adresse", Str (ip_adresse req))] |}.
Proof.
  intros clk fuel req w w' answer Hm Hrun Hs.
  destruct (handler_success clk fuel req w w' answer Hm Hrun Hs)
    as (userData & topicId & w1 & message & v & _ & Hres & Hf & Hsend & ->).
  destruct (send_outcome (TELEGRAM_CHAT_ID env) message topicId w1)
    as (r & Hsend' & Hacc).
  rewrite Hsend in Hsend'. injection Hsend' as <- ->.
  destruct (Hacc v eq_refl) as (response & Hr & Hok & Hj).
  destruct (format_B_ip_line _ _ _ _ _ Hf) as [Hip Hnew].
  exists topicId, w1, message, response, v.
  repeat split; try done.
  intros Hmiss. apply Hnew. by rewrite Hmiss.
Qed.

(** X20. On a forum whose listings end within [bound] pages, the process
    serves every sequence of requests: each one is answered, no cache
    entry is ever dropped or changed, and the call log only grows. *)
Theorem every_sequence_is_served :
  forall (bound fuel : nat) (requests : list (clock * request)) (w : world),
    paging_bounded remote env bound ->
    (bound <= fuel)%nat ->
    exists w',
      serve remote env fuel requests w = Some w'
      /\ (forall k v, ipToTopicMap w !! k = Some v ->
                      ipToTopicMap w' !! k = Some v)
      /\ exists cs, calls w' = calls w ++ cs.
Proof.
  intros bound fuel requests w Hb Hf. revert w.
  induction requests as [|[clk req] requests IH]; intros w.
  - exists w. split; [done|]. split; [done|]. exists []. by rewrite app_nil_r.
  - cbn [serve].
    pose proof (handler_effect remote env clk fuel req w) as He.
    pose proof (handler_traffic clk fuel req w) as Ht.
    destruct (handler remote env clk fuel req w) as [[r w1]|] eqn:Hrun.
    + destruct He as [_ [Hkeep _]].
      destruct Ht as (cs & tail & Hcalls & _).
      destruct (IH w1) as (w' & Hserve & Hkeep' & cs' & Hcalls').
      exists w'. split; [done|]. split; [by auto|].
      exists ((cs ++ tail) ++ cs'). by rewrite Hcalls', Hcalls, <- !app_assoc.
    + destruct He as (ip & w1 & Hnone).
      by apply (find_returns remote env bound fuel ip w1) in Hnone.
Qed.

End VariantB_more.

(** *** The properties of Variant B on sample forums *)

Lemma find_only_lists_pages_witness :
  let remote := forum [topic_of_another_address; topic_of_sample_address] in
  let w' := VariantB.after_calls fresh (VariantB.page_requests configuredB 0 1) in
  exists id n,
    Normal (@Num numbers 7) = Normal id
    /\ (S n <= 1)%nat
    /\ VariantB.ipToTopicMap w' = VariantB.ipToTopicMap fresh
    /\ VariantB.calls w'
       = VariantB.calls fresh ++ VariantB.page_requests configuredB 0 (S n)
    /\ (truthy id = true ->
        exists topic,
          VariantB.page_lists (remote (VariantB.calls w')) topic
          /\ VariantB.names_thread (js "IP: " ++ js "198.51.100.4") topic id).
Proof.
  intros remote w'.
  apply (@find_only_lists_pages numbers builtins remote configuredB 1
           (js "198.51.100.4") fresh w' (Normal (@Num numbers 7))).
  reflexivity.
Defined.

Lemma endless_listing_never_returns_witness :
  VariantB.findExistingTopicForIP
    (forum (repeat topic_of_another_address 100)) configuredB 1000
    (js "198.51.100.4") fresh
  = None.
Proof.
  apply (fun full =>
           @endless_listing_never_returns numbers builtins
             (forum (repeat topic_of_another_address 100)) configuredB
             (js "198.51.100.4") full 1000%nat fresh).
  intros history offset. unfold VariantB.full_page_without, forum.
  rewrite last_snoc.
  exists (listing (repeat topic_of_another_address 100)).
  eexists _, _. split; [reflexivity|]. split; [reflexivity|].
  split; [reflexivity|]. split; [reflexivity|].
  split; reflexivity.
Defined.

Lemma create_makes_one_create_call_witness :
  let chat := VariantB.TELEGRAM_CHAT_ID configuredB in
  let create := VariantB.createForumTopic chat (js "IP: 198.51.100.4")
                  7322096 in
  let w' := VariantB.after_calls fresh
              [create; VariantB.getForumTopics chat 0 100] in
  VariantB.ipToTopicMap w' = VariantB.ipToTopicMap fresh
  /\ exists rest,
       VariantB.calls w'
       = VariantB.calls fresh
         ++ VariantB.createForumTopic chat (js "IP: " ++ js "198.51.100.4")
              7322096 :: rest
       /\ VariantB.create_calls rest = 0%nat
       /\ (rest = []
           \/ exists n, rest = VariantB.page_requests configuredB 0 (S n)).
Proof.
  intros chat create w'.
  apply (@create_makes_one_create_call numbers builtins (forum []) configuredB
           1 (js "198.51.100.4") fresh w'
           (Throw (js "Kunne ikke opprette topic: Conflict: topic already exists"))).
  reflexivity.
Defined.

Lemma existing_topic_is_reused_witness :
  let ip := js "198.51.100.4" in
  let remote := forum [topic_of_another_address; topic_of_sample_address] in
  exists n,
    VariantB.after_calls fresh (VariantB.page_requests configuredB 0 1)
    = VariantB.after_calls fresh (VariantB.page_requests configuredB 0 (S n))
    /\ VariantB.getOrCreateTopicForIP remote configuredB 1 ip fresh
       = Some (Normal (@Num numbers 7),
               {| VariantB.ipToTopicMap :=
                    <[ip := @Num numbers 7]> (VariantB.ipToTopicMap fresh);
                  VariantB.calls :=
                    VariantB.calls fresh
                    ++ VariantB.page_requests configuredB 0 (S n) |})
    /\ VariantB.create_calls (VariantB.page_requests configuredB 0 (S n))
       = 0%nat.
Proof.
  intros ip remote.
  apply (@existing_topic_is_reused numbers builtins remote configuredB 1 ip
           fresh
           (VariantB.after_calls fresh (VariantB.page_requests configuredB 0 1))
           (@Num numbers 7));
    reflexivity.
Defined.

Lemma new_address_gets_a_created_topic_witness :
  let ip := js "198.51.100.4" in
  let chat := VariantB.TELEGRAM_CHAT_ID configuredB in
  VariantB.getOrCreateTopicForIP open_forum configuredB 1 ip fresh
  = Some (Normal (@Num numbers 9),
          {| VariantB.ipToTopicMap :=
               <[ip := @Num numbers 9]> (VariantB.ipToTopicMap fresh);
             VariantB.calls :=
               VariantB.calls fresh
               ++ VariantB.page_requests configuredB 0 1
               ++ [VariantB.createForumTopic chat (js "IP: " ++ ip)
                     7322096] |}).
Proof.
  intros ip chat.
  apply (@new_address_gets_a_created_topic numbers builtins open_forum
           configuredB 1 ip fresh 0 Null created
           (Obj [(js "ok", Bool true);
                 (js "result",
                  Obj [(js "message_thread_id", @Num numbers 9);
                       (js "name", Str (js "IP: 198.51.100.4"))])])
           (Obj [(js "message_thread_id", @Num numbers 9);
                 (js "name", Str (js "IP: 198.51.100.4"))])
           (@Num numbers 9) (js "9")).
  all: reflexivity.
Defined.

Lemma resolution_is_idempotent_witness :
  let ip := js "198.51.100.4" in
  exists r w',
    VariantB.getOrCreateTopicForIP (forum [topic_of_sample_address])
      configuredB 1 ip fresh = Some (r, w')
    /\ exists id,
         r = Normal id
         /\ (forall k, k <> ip ->
               VariantB.ipToTopicMap w' !! k
               = VariantB.ipToTopicMap fresh !! k)
         /\ (id <> Null ->
             VariantB.ipToTopicMap w' !! ip = Some id
             /\ forall fuel',
                  VariantB.getOrCreateTopicForIP
                    (forum [topic_of_sample_address]) configuredB fuel' ip w'
                  = Some (Normal id, w')).
Proof.
  intros ip. eexists _, _. split; [reflexivity|].
  apply (@resolution_is_idempotent numbers builtins
           (forum [topic_of_sample_address]) configuredB 1 ip fresh).
  reflexivity.
Defined.


Lemma success_means_message_sent_witness :
  let remote := forum [topic_of_sample_address] in
  let req := post (Obj [(js "action", Str (js "bank_selected"));
                        (js "bank", Str (js "UBS"))]) in
  exists answer w',
    VariantB.handler remote configuredB clockB 1 req fresh
    = Some (Normal answer, w')
    /\ status answer = 200
    /\ exists topicId w1 text response body,
         VariantB.getOrCreateTopicForIP remote configuredB 1
           (VariantB.ip_adresse req) fresh
         = Some (Normal topicId, w1)
         /\ w' = VariantB.after_calls w1
                   [VariantB.sendMessage
                      (VariantB.TELEGRAM_CHAT_ID configuredB) text (js "HTML")
                      (match topicId with
                       | Null | Undefined => None
                       | _ => Some topicId
                       end)]
         /\ remote (VariantB.calls w') = VariantB.Fulfilled response
         /\ VariantB.ok response = true
         /\ VariantB.json response = Normal body
         /\ includes (js "🌐 <b>IP:</b> <code>"
                      ++ (if str_truthy (VariantB.ip_adresse req)
                          then VariantB.ip_adresse req else js "N/A")
                      ++ js "</code>") text = true
         /\ (VariantB.ipToTopicMap fresh !! VariantB.ip_adresse req = None ->
             includes (js "🆕 <b>Ny bruker opprettet</b>") text = true)
         /\ answer
            = {| status := 200;
                 json_body :=
                   Some [(js "message", Str (js "Data sendt til Telegram!"));
                         (js "ip_adresse", Str (VariantB.ip_adresse req))] |}.
Proof.
  intros remote req. eexists _, _. split; [reflexivity|].
  split; [reflexivity|].
  apply (@success_means_message_sent numbers builtins remote configuredB
           clockB 1 req fresh); reflexivity.
Defined.

Lemma every_sequence_is_served_witness :
  let req := post (Obj [(js "action", Str (js "bank_selected"));
                        (js "bank", Str (js "UBS"))]) in
  exists w',
    VariantB.serve (forum []) configuredB 1 [(clockB, req); (clockB, req)]
      fresh = Some w'
    /\ (forall k v, VariantB.ipToTopicMap fresh !! k = Some v ->
                    VariantB.ipToTopicMap w' !! k = Some v)
    /\ exists cs, VariantB.calls w' = VariantB.calls fresh ++ cs.
Proof.
  intros req.
  apply (@every_sequence_is_served numbers builtins (forum []) configuredB
           1 1 [(clockB, req); (clockB, req)] fresh).
  - exact forum_paging_bounded.
  - lia.
Defined.
